(** * Gunrock: a shallow embedding of the host drivers and device functors

    The development follows the layout of the sources:
    - [cuda]    the CUDA runtime as the host code observes it (status codes,
                allocation) and the error-propagation idiom of the drivers;
    - [util]    memset kernels, [Array1D], 32-bit integers;
    - [topk]    [binary_search] of the top-k application;
    - [bfs]     [BFSProblem] (Reset/Extract), [BFSFunctor], and the
                advance/filter/enactor engine the functor is plugged into;
    - [pr]      [PRFunctor];
    - [hits], [bc]  [HITSProblem] and [BCProblem] (Init/Reset/Extract);
    - [salsa]   [SALSAEnactor] (NormalizeRank, EnactSALSA).

    Integers of type [VertexId]/[SizeT] are 32-bit [int]s, modelled in [Z];
    [Value] is a binary64 float. *)

From Stdlib Require Import ZArith Lia List Bool Floats.
From stdpp Require Import base list.
From Equations Require Import Equations.
Import ListNotations.
Open Scope Z_scope.

(* ===================================================================== *)
(** ** The CUDA runtime seen from the host                                *)
(* ===================================================================== *)

Module cuda.

(** [cudaError_t]: an integer status, [cudaSuccess] is zero; the host code
    tests it with [if (retval = call) ...]. *)
Definition cudaError_t := Z.
Definition cudaSuccess : cudaError_t := 0.
Definition cudaErrorMemoryAllocation : cudaError_t := 2.
Definition cudaErrorLaunchFailure : cudaError_t := 4.
Definition cudaErrorInvalidDeviceFunction : cudaError_t := 8.
Definition cudaErrorInvalidDevice : cudaError_t := 10.

Definition failed (e : cudaError_t) : bool := negb (e =? 0).

(** The runtime: [pending] lists the status the next runtime calls will
    return, in call order (success once the list is exhausted); [mallocs]
    counts the device allocations served so far. *)
Record Runtime := mkRuntime { pending : list cudaError_t; mallocs : nat }.

Definition healthy : Runtime := mkRuntime [] 0.

(** One runtime call: take the next status. *)
Definition call (rt : Runtime) : cudaError_t * Runtime :=
  match pending rt with
  | [] => (cudaSuccess, rt)
  | e :: es => (e, mkRuntime es (mallocs rt))
  end.

(** [util::GRError(err, msg, file, line)] reports [err] when it is a failure
    and returns it unchanged. *)
Definition GRError (e : cudaError_t) : cudaError_t := e.

Definition cudaSetDevice (rt : Runtime) : cudaError_t * Runtime := call rt.
Definition cudaGetDevice (rt : Runtime) : cudaError_t * Runtime := call rt.
Definition cudaThreadSynchronize (rt : Runtime) : cudaError_t * Runtime := call rt.

(** [cudaMalloc(&p, n * sizeof(T))]: on success [p] is a fresh array of [n]
    cells (their contents are unspecified; [fill] stands for them). *)
Definition cudaMalloc {T} (fill : T) (n : Z) (rt : Runtime)
  : cudaError_t * option (list T) * Runtime :=
  let (e, rt') := call rt in
  if failed e then (e, None, rt')
  else (e, Some (replicate (Z.to_nat n) fill),
        mkRuntime (pending rt') (S (mallocs rt'))).

(** [cudaMemcpy(dst, src, n * sizeof(T), kind)]: on success the first [n]
    cells of [dst] are those of [src]; on failure [dst] is unchanged. *)
Definition copy_cells {T} (dst src : list T) (n : Z) : list T :=
  take (Z.to_nat n) src ++ drop (Z.to_nat n) dst.

Definition cudaMemcpy {T} (dst src : list T) (n : Z) (rt : Runtime)
  : cudaError_t * list T * Runtime :=
  let (e, rt') := call rt in
  if failed e then (e, dst, rt') else (e, copy_cells dst src n, rt').

(** The drivers' idiom [if (retval = f(...)) return retval;] as a
    state-and-error monad over the driver's state [S]. *)
Section Monad.
Context {S : Type}.

Definition M (A : Type) : Type := S -> (cudaError_t + A) * S.

Definition ret {A} (a : A) : M A := fun s => (inr a, s).

Definition bind {A B} (m : M A) (k : A -> M B) : M B :=
  fun s => match m s with
           | (inl e, s') => (inl e, s')
           | (inr a, s') => k a s'
           end.

Definition get : M S := fun s => (inr s, s).
Definition modify (f : S -> S) : M unit := fun s => (inr tt, f s).

(** [if (retval = c) return retval;] *)
Definition try (c : S -> cudaError_t * S) : M unit :=
  fun s => let (e, s') := c s in
           if failed e then (inl e, s') else (inr tt, s').

(** The [cudaError_t] the function hands back to its caller. *)
Definition run (m : M unit) (s : S) : cudaError_t * S :=
  match m s with
  | (inl e, s') => (e, s')
  | (inr _, s') => (cudaSuccess, s')
  end.
End Monad.

End cuda.

Export cuda.

Declare Scope dev_scope.
Delimit Scope dev_scope with dev.
Notation "x <- m ;; k" := (bind m (fun x => k))
  (at level 100, m at next level, right associativity) : dev_scope.
Notation "m ;;; k" := (bind m (fun _ => k))
  (at level 100, right associativity) : dev_scope.

(* ===================================================================== *)
(** ** gunrock/util                                                        *)
(* ===================================================================== *)

Module util.

(** 32-bit signed integers. *)
Definition INT_MAX : Z := 2147483647.
Definition INT_MIN : Z := -2147483648.
Definition in_int (z : Z) : bool := (INT_MIN <=? z) && (z <=? INT_MAX).

(** Two's-complement wrap-around of device integer arithmetic. *)
Definition wrap (z : Z) : Z := (z + 2147483648) mod 4294967296 - 2147483648.

(** Modelled from the spec: [util::MaxValue<VertexId>()] (types.cuh is not
    under src/), "the maximum representable VertexId value". *)
Definition MaxValue : Z := INT_MAX.

(** Reading and writing cell [i] of a device array. *)
Definition Ld {T} (dflt : T) (a : list T) (i : Z) : T :=
  if 0 <=? i then default dflt (a !! Z.to_nat i) else dflt.

Definition St {T} (v : T) (a : list T) (i : Z) : list T :=
  if 0 <=? i then <[Z.to_nat i := v]> a else a.

(** [atomicMin(addr + i, v)]: store the minimum, return the old value. *)
Definition atomicMin (a : list Z) (i : Z) (v : Z) : Z * list Z :=
  let old := Ld 0 a i in (old, St (Z.min old v) a i).

(** [MemsetKernel<<<..>>>(d_out, value, length)]:
    every [idx < length] gets [d_out[idx] = value]. *)
Definition MemsetKernel {T} (d_out : list T) (value : T) (length : Z) : list T :=
  imap (fun idx x => if Z.of_nat idx <? length then value else x) d_out.

(** [MemsetIdxKernel<<<..>>>(d_out, length)]: [d_out[idx] = idx]. *)
Definition MemsetIdxKernel (d_out : list Z) (length : Z) : list Z :=
  imap (fun idx x => if Z.of_nat idx <? length then Z.of_nat idx else x) d_out.

(** [MemsetCopyVectorKernel<<<..>>>(d_dst, d_src, length)]:
    [d_dst[idx] = d_src[idx]] for every [idx < length]. *)
Definition MemsetCopyVectorKernel {T} (d_dst d_src : list T) (length : Z) : list T :=
  imap (fun idx x => if Z.of_nat idx <? length then default x (d_src !! idx) else x) d_dst.

(** [MemsetMadVectorKernel<<<..>>>(d_dst, d_src1, d_src2, scale, length)]:
    [d_dst[idx] = d_src1[idx] * scale + d_src2[idx]]. *)
Definition MemsetMadVectorKernel (d_dst d_src1 d_src2 : list Z) (scale length : Z) : list Z :=
  imap (fun idx x =>
          if Z.of_nat idx <? length
          then wrap (wrap (Ld 0 d_src1 (Z.of_nat idx) * scale) + Ld 0 d_src2 (Z.of_nat idx))
          else x) d_dst.

(** Modelled from the spec: [util::Array1D] (array_utils.cuh is not under
    src/).  An array with a host side and a device side, either of which may
    be absent (NULL).  [Allocate(size, DEVICE)] reserves a device array of
    [size] cells (§4.5 "allocate all device arrays sized by nodes/edges"; an
    allocation can fail, §7 (1)); [SetPointer] attaches a caller's buffer;
    [Move(DEVICE, HOST)] copies the device array into the host buffer (§4.5
    "copy final device arrays back to host-provided buffers"). *)
Record Array1D (T : Type) := mkArray1D {
  h_pointer : option (list T);
  d_pointer : option (list T)
}.
Arguments mkArray1D {T} _ _.
Arguments h_pointer {T} _.
Arguments d_pointer {T} _.

Definition Array1D_empty {T} : Array1D T := mkArray1D None None.

Definition GetPointer_DEVICE {T} (a : Array1D T) : option (list T) := d_pointer a.
Definition GetPointer_HOST {T} (a : Array1D T) : option (list T) := h_pointer a.

Definition SetPointer_HOST {T} (p : list T) (a : Array1D T) : Array1D T :=
  mkArray1D (Some p) (d_pointer a).
Definition SetPointer_DEVICE {T} (p : option (list T)) (a : Array1D T) : Array1D T :=
  mkArray1D (h_pointer a) p.

Definition Allocate_DEVICE {T} (fill : T) (size : Z) (a : Array1D T) (rt : Runtime)
  : cudaError_t * Array1D T * Runtime :=
  match cudaMalloc fill size rt with
  | (e, Some p, rt') => (e, mkArray1D (h_pointer a) (Some p), rt')
  | (e, None, rt') => (e, a, rt')
  end.

Definition Move_DEVICE_HOST {T} (a : Array1D T) (rt : Runtime)
  : cudaError_t * Array1D T * Runtime :=
  match h_pointer a, d_pointer a with
  | Some h, Some d =>
      match cudaMemcpy h d (Z.of_nat (length d)) rt with
      | (e, h', rt') => (e, mkArray1D (Some h') (Some d), rt')
      end
  | _, _ => let (e, rt') := call rt in (e, a, rt')
  end.

(** The device side of an array as the kernels address it. *)
Definition dev {T} (a : Array1D T) : list T := default [] (d_pointer a).
Definition on_dev {T} (f : list T -> list T) (a : Array1D T) : Array1D T :=
  mkArray1D (h_pointer a) (f <$> d_pointer a).

End util.

(* ===================================================================== *)
(** ** The top-k application: binary_search                                *)
(* ===================================================================== *)

Module topk.
Import util.

(** [arr[i]] on the host: [None] is a read outside the array. *)
Definition rd (arr : list Z) (i : Z) : option Z :=
  if 0 <=? i then arr !! Z.to_nat i else None.

(** [binary_search<VertexId, SizeT>] with [VertexId = SizeT = int].  [None]
    stands for undefined behaviour: signed overflow of the index arithmetic
    or a read outside [arr].  The loop is the recursion; the measure is the
    width of [[lft, rgt]]. *)
Equations? binary_search (arr : list Z) (val lft rgt : Z) : option Z
  by wf (Z.to_nat (rgt - lft + 1)) lt :=
  binary_search arr val lft rgt with Z_le_dec lft rgt => {
    | right _ => Some (-1);
    | left _ with in_int (rgt - lft) => {
        | false => None;
        | true with rd arr (lft + (rgt - lft) ÷ 2) => {
            | None => None;
            | Some x with Z.eq_dec x val => {
                | left _ => Some x;
                | right _ with Z_gt_dec x val => {
                    | left _ =>
                        binary_search arr val lft (lft + (rgt - lft) ÷ 2 - 1);
                    | right _ with in_int (lft + (rgt - lft) ÷ 2 + 1) => {
                        | false => None;
                        | true =>
                            binary_search arr val (lft + (rgt - lft) ÷ 2 + 1) rgt
                      } } } } } }.
Proof.
  all: assert (0 <= (rgt - lft) ÷ 2 <= rgt - lft) by
    (split; [apply Z.quot_pos; lia | apply Z.quot_le_upper_bound; lia]); lia.
Qed.

(** [arr] is sorted in ascending order on the index range [[lft, rgt]]. *)
Definition sorted_on (arr : list Z) (lft rgt : Z) : Prop :=
  forall i j x y, lft <= i -> i <= j -> j <= rgt ->
    rd arr i = Some x -> rd arr j = Some y -> x <= y.

(** [val] occurs in [arr] at an index of [[lft, rgt]]. *)
Definition occurs_on (arr : list Z) (val lft rgt : Z) : Prop :=
  exists i, lft <= i <= rgt /\ rd arr i = Some val.

End topk.

(* ===================================================================== *)
(** ** The graph and the operators the functors are plugged into          *)
(* ===================================================================== *)

Module oprtr.
Import util.

(** The CSR graph of the input contract (§3, §6). *)
Record Csr := mkCsr {
  nodes : Z;
  edges : Z;
  row_offsets : list Z;
  column_indices : list Z
}.

(** The neighbour range of [v]:
    [column_indices[row_offsets[v] .. row_offsets[v+1])]. *)
Definition neighbors (g : Csr) (v : Z) : list Z :=
  let b := Ld 0 (row_offsets g) v in
  let e := Ld 0 (row_offsets g) (v + 1) in
  take (Z.to_nat (e - b)) (drop (Z.to_nat b) (column_indices g)).

(** The functor contract (§6): two condition/apply pairs over the data
    slice [DS]; [V] is the type of the filter's auxiliary value. *)
Record Functor (DS V : Type) := mkFunctor {
  CondEdge : Z -> Z -> DS -> Z -> Z -> bool * DS;
  ApplyEdge : Z -> Z -> DS -> Z -> Z -> DS;
  CondFilter : Z -> DS -> V -> Z -> bool * DS;
  ApplyFilter : Z -> DS -> V -> Z -> DS
}.
Arguments CondEdge {DS V} _.
Arguments ApplyEdge {DS V} _.
Arguments CondFilter {DS V} _.
Arguments ApplyFilter {DS V} _.

Section Operators.
Context {DS V : Type} (F : Functor DS V).

(** The neighbours [nbrs] of one frontier element [s] (input position
    [e_in]; [e] is the id of the first edge): evaluate [CondEdge]; when it
    holds call [ApplyEdge] and emit the destination. *)
Fixpoint expand (s e_in e : Z) (nbrs : list Z) (ds : DS) : list Z * DS :=
  match nbrs with
  | [] => ([], ds)
  | d :: rest =>
      let (ok, ds1) := CondEdge F s d ds e e_in in
      if ok then
        let ds2 := ApplyEdge F s d ds1 e e_in in
        let (out, ds3) := expand s e_in (e + 1) rest ds2 in
        (d :: out, ds3)
      else expand s e_in (e + 1) rest ds1
  end.

Fixpoint advance_from (g : Csr) (e_in : Z) (frontier : list Z) (ds : DS)
  : list Z * DS :=
  match frontier with
  | [] => ([], ds)
  | s :: rest =>
      let (o1, ds1) := expand s e_in (Ld 0 (row_offsets g) s) (neighbors g s) ds in
      let (o2, ds2) := advance_from g (e_in + 1) rest ds1 in
      (o1 ++ o2, ds2)
  end.

(** Modelled from the spec: the Advance operator (oprtr/advance is not
    under src/), §4.2: "for each input element, determine its neighbor
    range via an offset lookup; for each neighbor, evaluate CondEdge — if
    true, call ApplyEdge then write the destination into the output
    frontier"; an empty input frontier yields an empty output.  The
    device threads are taken one edge at a time, in frontier and then
    adjacency order; the atomics of the functors make each [CondEdge]
    one indivisible step. *)
Definition Advance (g : Csr) (frontier : list Z) (ds : DS) : list Z * DS :=
  advance_from g 0 frontier ds.

Fixpoint filter_from (nid : Z) (v : V) (frontier : list Z) (ds : DS)
  : list Z * DS :=
  match frontier with
  | [] => ([], ds)
  | x :: rest =>
      let (ok, ds1) := CondFilter F x ds v nid in
      if ok then
        let ds2 := ApplyFilter F x ds1 v nid in
        let (out, ds3) := filter_from (nid + 1) v rest ds2 in
        (x :: out, ds3)
      else filter_from (nid + 1) v rest ds1
  end.

(** Modelled from the spec: the Filter operator (oprtr/filter is not under
    src/), §4.3: "call CondFilter; accepted elements call ApplyFilter and
    are compacted into the output frontier preserving relative order". *)
Definition Filter (v : V) (frontier : list Z) (ds : DS) : list Z * DS :=
  filter_from 0 v frontier ds.
End Operators.

End oprtr.

(* ===================================================================== *)
(** ** gunrock/app/bfs                                                     *)
(* ===================================================================== *)

Module bfs.
Import util oprtr.

(** The template parameters of [BFSProblem]. *)
Record Config := mkConfig {
  MARK_PREDECESSORS : bool;
  ENABLE_IDEMPOTENCE : bool
}.

(** [BFSProblem::DataSlice] with the [preds]/[temp_preds] members it
    inherits from [DataSliceBase]. *)
Record DataSlice := mkDataSlice {
  labels : Array1D Z;
  preds : Array1D Z;
  temp_preds : Array1D Z;
  visited_mask : Array1D Z;
  original_vertex : Array1D Z
}.

Definition set_labels (a : Array1D Z) (ds : DataSlice) : DataSlice :=
  mkDataSlice a (preds ds) (temp_preds ds) (visited_mask ds) (original_vertex ds).
Definition set_preds (a : Array1D Z) (ds : DataSlice) : DataSlice :=
  mkDataSlice (labels ds) a (temp_preds ds) (visited_mask ds) (original_vertex ds).
Definition set_temp_preds (a : Array1D Z) (ds : DataSlice) : DataSlice :=
  mkDataSlice (labels ds) (preds ds) a (visited_mask ds) (original_vertex ds).
Definition set_visited_mask (a : Array1D Z) (ds : DataSlice) : DataSlice :=
  mkDataSlice (labels ds) (preds ds) (temp_preds ds) a (original_vertex ds).
Definition set_original_vertex (a : Array1D Z) (ds : DataSlice) : DataSlice :=
  mkDataSlice (labels ds) (preds ds) (temp_preds ds) (visited_mask ds) a.

Definition DataSlice_empty : DataSlice :=
  mkDataSlice Array1D_empty Array1D_empty Array1D_empty Array1D_empty Array1D_empty.

(** A single-GPU [BFSProblem] ([num_gpus == 1]): the runtime, the slice of
    the graph ([graph_slices[0]]: its node count and its [original_vertex]
    table, absent on one GPU) and [data_slices[0]]. *)
Record BFSProblem := mkBFSProblem {
  rt : Runtime;
  gs_nodes : Z;
  gs_original_vertex : option (list Z);
  data_slice : DataSlice
}.

Definition set_rt (r : Runtime) (p : BFSProblem) : BFSProblem :=
  mkBFSProblem r (gs_nodes p) (gs_original_vertex p) (data_slice p).
Definition set_slice (ds : DataSlice) (p : BFSProblem) : BFSProblem :=
  mkBFSProblem (rt p) (gs_nodes p) (gs_original_vertex p) ds.

(** A runtime call made by the problem. *)
Definition rt_call (c : Runtime -> cudaError_t * Runtime) (p : BFSProblem)
  : cudaError_t * BFSProblem :=
  let (e, r) := c (rt p) in (e, set_rt r p).

(** [if (retval = member.Allocate(size, util::DEVICE)) return retval;] *)
Definition allocate (getf : DataSlice -> Array1D Z)
    (setf : Array1D Z -> DataSlice -> DataSlice) (size : Z) : M unit :=
  try (fun p : BFSProblem =>
         match Allocate_DEVICE 0 size (getf (data_slice p)) (rt p) with
         | (e, a, r) => (e, set_rt r (set_slice (setf a (data_slice p)) p))
         end).

(** A kernel launched on the device side of a member. *)
Definition launch (getf : DataSlice -> Array1D Z)
    (setf : Array1D Z -> DataSlice -> DataSlice) (k : list Z -> list Z) : M unit :=
  modify (fun p : BFSProblem =>
            set_slice (setf (on_dev k (getf (data_slice p))) (data_slice p)) p).

Definition when (b : bool) (m : M (S := BFSProblem) unit) : M unit :=
  if b then m else ret tt.

(** [DataSlice::Init(num_gpus, gpu_idx, graph)]. *)
Definition DataSlice_Init (cfg : Config) (graph_nodes : Z) : M unit :=
  (try (rt_call call) ;;;   (* DataSliceBase::Init *)
   allocate labels set_labels graph_nodes ;;;
   when (MARK_PREDECESSORS cfg)
     (allocate preds set_preds graph_nodes ;;;
      allocate temp_preds set_temp_preds graph_nodes) ;;;
   when (ENABLE_IDEMPOTENCE cfg)
     (allocate visited_mask set_visited_mask ((graph_nodes + 7) ÷ 8)))%dev.

(** [DataSlice::Reset(graph_slice)]. *)
Definition DataSlice_Reset (cfg : Config) : M unit :=
  (p <- get ;;
   let nodes := gs_nodes p in
   (* Allocate output labels if necessary *)
   allocate labels set_labels nodes ;;;
   launch labels set_labels
     (fun d => MemsetKernel d
                 (if ENABLE_IDEMPOTENCE cfg then -1 else MaxValue - 1) nodes) ;;;
   (* Allocate preds if necessary *)
   when (MARK_PREDECESSORS cfg)
     (allocate preds set_preds nodes ;;;
      launch preds set_preds (fun d => MemsetKernel d (-2) nodes)) ;;;
   modify (fun p => set_slice
                      (set_original_vertex
                         (SetPointer_DEVICE (gs_original_vertex p)
                            (original_vertex (data_slice p)))
                         (data_slice p)) p) ;;;
   when (ENABLE_IDEMPOTENCE cfg)
     (let visited_mask_bytes := (nodes * 1 + 7) ÷ 8 in
      let visited_mask_elements := visited_mask_bytes * 1 in
      launch visited_mask set_visited_mask
        (fun d => MemsetKernel d 0 visited_mask_elements)))%dev.

(** [BFSProblem::Init], after [ProblemBase::Init] has built the graph
    slice: create and initialise [data_slices[0]]. *)
Definition Init (cfg : Config) (p : BFSProblem) : cudaError_t * BFSProblem :=
  run (try (rt_call call) ;;;              (* BaseProblem::Init *)
       try (rt_call cudaSetDevice) ;;;
       try (rt_call call) ;;;              (* data_slices[gpu].Allocate(1, ..) *)
       DataSlice_Init cfg (gs_nodes p) ;;;
       when (ENABLE_IDEMPOTENCE cfg) (try (rt_call call)) (* cudaBindTexture *)
      )%dev p.

(** [BFSProblem::Reset()]. *)
Definition Reset (cfg : Config) (p : BFSProblem) : cudaError_t * BFSProblem :=
  run (try (rt_call cudaSetDevice) ;;;
       DataSlice_Reset cfg ;;;
       try (rt_call call)                  (* data_slices[gpu].Move(HOST, DEVICE) *)
      )%dev p.

(** [if (retval = member.Move(util::DEVICE, util::HOST)) return retval;] *)
Definition move_to_host (getf : DataSlice -> Array1D Z)
    (setf : Array1D Z -> DataSlice -> DataSlice) : M unit :=
  try (fun p : BFSProblem =>
         match Move_DEVICE_HOST (getf (data_slice p)) (rt p) with
         | (e, a, r) => (e, set_rt r (set_slice (setf a (data_slice p)) p))
         end).

(** [BFSProblem::Extract(h_labels, h_preds)], the [num_gpus == 1] branch.
    The caller's buffers are the host sides of [labels] and [preds] once
    the call returns. *)
Definition Extract (cfg : Config) (h_labels h_preds : list Z) (p : BFSProblem)
  : cudaError_t * BFSProblem :=
  run (try (rt_call cudaSetDevice) ;;;
       modify (fun p => set_slice
                 (set_labels (SetPointer_HOST h_labels (labels (data_slice p)))
                    (data_slice p)) p) ;;;
       move_to_host labels set_labels ;;;
       when (MARK_PREDECESSORS cfg)
         (modify (fun p => set_slice
                    (set_preds (SetPointer_HOST h_preds (preds (data_slice p)))
                       (data_slice p)) p) ;;;
          move_to_host preds set_preds))%dev p.

(** What the caller finds in its buffers after [Extract]. *)
Definition extracted_labels (h_labels : list Z) (p : BFSProblem) : list Z :=
  default h_labels (h_pointer (labels (data_slice p))).
Definition extracted_preds (cfg : Config) (h_preds : list Z) (p : BFSProblem) : list Z :=
  if MARK_PREDECESSORS cfg
  then default h_preds (h_pointer (preds (data_slice p)))
  else h_preds.

(** *** bfs_functor.cuh *)

Definition CondEdge (cfg : Config) (s_id d_id : Z) (d_data_slice : DataSlice)
    (e_id e_id_in : Z) : bool * DataSlice :=
  if ENABLE_IDEMPOTENCE cfg then (true, d_data_slice)
  else
    (* Check if the destination node has been claimed as someone's child *)
    let new_label :=
      if MARK_PREDECESSORS cfg
      then Ld 0 (dev (labels d_data_slice)) s_id
      else s_id in
    let new_label := wrap (new_label + 1) in
    let (old_label, lab) := atomicMin (dev (labels d_data_slice)) d_id new_label in
    let result := new_label <? old_label in
    (result, set_labels (on_dev (fun _ => lab) (labels d_data_slice)) d_data_slice).

Definition ApplyEdge (cfg : Config) (s_id d_id : Z) (problem : DataSlice)
    (e_id e_id_in : Z) : DataSlice :=
  if ENABLE_IDEMPOTENCE cfg then problem
  else if MARK_PREDECESSORS cfg then
    (* set preds[d_id] to be s_id *)
    let v := match GetPointer_DEVICE (original_vertex problem) with
             | None => s_id
             | Some ov => Ld 0 ov s_id
             end in
    set_preds (on_dev (fun d => St v d d_id) (preds problem)) problem
  else problem.

Definition CondFilter (cfg : Config) (node : Z) (problem : DataSlice)
    (v : Z) (nid : Z) : bool * DataSlice :=
  (negb (node =? -1), problem).

Definition ApplyFilter (cfg : Config) (node : Z) (problem : DataSlice)
    (v : Z) (nid : Z) : DataSlice :=
  if ENABLE_IDEMPOTENCE cfg
  then set_labels (on_dev (fun d => St v d node) (labels problem)) problem
  else problem.

Definition BFSFunctor (cfg : Config) : Functor DataSlice Z :=
  mkFunctor DataSlice Z (CondEdge cfg) (ApplyEdge cfg) (CondFilter cfg) (ApplyFilter cfg).

(** *** The enactor *)

(** The frontier and the iteration counter next to the data slice. *)
Record EnactorState := mkEnactorState {
  frontier : list Z;
  slice : DataSlice;
  iteration : Z
}.

(** Modelled from the spec: the seed of a run (bfs_enactor.cuh is not under
    src/): §4.1 "Reset(initial_ids) seeds buffer 0 with given IDs (e.g.
    source vertex)", §8 "BFS source label = 0" and the scenario's
    [preds[src] = -1]. *)
Definition seed (cfg : Config) (src : Z) (ds : DataSlice) : EnactorState :=
  let ds1 := set_labels (on_dev (fun d => St 0 d src) (labels ds)) ds in
  let ds2 := if MARK_PREDECESSORS cfg
             then set_preds (on_dev (fun d => St (-1) d src) (preds ds1)) ds1
             else ds1 in
  mkEnactorState [src] ds2 0.

(** One iteration, steps (1)-(4) of §4.4: Advance, Filter, increment. *)
Definition iterate (cfg : Config) (g : Csr) (st : EnactorState) : EnactorState :=
  let (q1, ds1) := Advance (BFSFunctor cfg) g (frontier st) (slice st) in
  let (q2, ds2) := Filter (BFSFunctor cfg) (iteration st + 1) q1 ds1 in
  mkEnactorState q2 ds2 (iteration st + 1).

(** Step (5) of §4.4: "frontier length == 0, OR iteration >= max_iteration". *)
Definition done (max_iteration : Z) (st : EnactorState) : bool :=
  (Z.of_nat (length (frontier st)) =? 0) || (max_iteration <=? iteration st).

Fixpoint iterations (fuel : nat) (cfg : Config) (g : Csr) (max_iteration : Z)
    (st : EnactorState) : option EnactorState :=
  let st' := iterate cfg g st in
  if done max_iteration st' then Some st'
  else match fuel with
       | O => None
       | S fuel' => iterations fuel' cfg g max_iteration st'
       end.

(** Modelled from the spec: the iteration driver (bfs_enactor.cuh is not
    under src/), §4.4: each iteration runs Advance, Filter, increments
    [iteration] and checks termination.  The counter bounds the iterations
    by [max_iteration], which is the fuel. *)
Definition Enact (cfg : Config) (g : Csr) (src max_iteration : Z) (ds : DataSlice)
  : option EnactorState :=
  iterations (Z.to_nat max_iteration) cfg g max_iteration (seed cfg src ds).

(** The driver's sequence (§2, data flow): Init, Reset, Enact, Extract on a
    fresh single-GPU problem; the status and the caller's two buffers.
    [None]: the enactor did not stop. *)
Definition RunBFS (cfg : Config) (g : Csr) (src max_iteration : Z)
  : option (cudaError_t * list Z * list Z) :=
  let p0 := mkBFSProblem healthy (nodes g) None DataSlice_empty in
  let h := replicate (Z.to_nat (nodes g)) 0 in
  let (e1, p1) := Init cfg p0 in
  if failed e1 then Some (e1, h, h) else
  let (e2, p2) := Reset cfg p1 in
  if failed e2 then Some (e2, h, h) else
  match Enact cfg g src max_iteration (data_slice p2) with
  | None => None
  | Some st =>
      let (e3, p3) := Extract cfg h h (set_slice (slice st) p2) in
      Some (e3, extracted_labels h p3, extracted_preds cfg h p3)
  end.

End bfs.

(* ===================================================================== *)
(** ** Problems with raw device pointers (HITS, BC)                        *)
(* ===================================================================== *)

Module problem.
Import util.

(** What [HITSProblem] and [BCProblem] share: the runtime, the sizes, the
    device arrays of [graph_slices[0]] they read or seed, [data_slices[0]]
    (type [DS]) and whether its device copy [d_data_slices[0]] exists.  A
    device pointer is [None] (NULL) or the array it points to.  [mallocs] of
    the runtime counts the [cudaMalloc] calls of the problem itself; the
    calls into [ProblemBase] are single runtime steps. *)
Record Problem (DS : Type) := mkProblem {
  rt : Runtime;
  num_gpus : Z;
  nodes : Z;
  edges : Z;
  d_row_offsets : list Z;
  d_column_offsets : list Z;
  d_keys0 : list Z;
  data_slice : DS;
  d_data_slice : bool
}.
Arguments mkProblem {DS}.
Arguments rt {DS}.
Arguments num_gpus {DS}.
Arguments nodes {DS}.
Arguments edges {DS}.
Arguments d_row_offsets {DS}.
Arguments d_column_offsets {DS}.
Arguments d_keys0 {DS}.
Arguments data_slice {DS}.
Arguments d_data_slice {DS}.

(** A pointer member of a data slice. *)
Record field (DS T : Type) := mkField {
  fget : DS -> option (list T);
  fset : option (list T) -> DS -> DS
}.
Arguments mkField {DS T}.
Arguments fget {DS T}.
Arguments fset {DS T}.

Section Ops.
Context {DS : Type}.

Definition set_rt (r : Runtime) (p : Problem DS) : Problem DS :=
  mkProblem r (num_gpus p) (nodes p) (edges p) (d_row_offsets p)
    (d_column_offsets p) (d_keys0 p) (data_slice p) (d_data_slice p).
Definition set_slice (ds : DS) (p : Problem DS) : Problem DS :=
  mkProblem (rt p) (num_gpus p) (nodes p) (edges p) (d_row_offsets p)
    (d_column_offsets p) (d_keys0 p) ds (d_data_slice p).
Definition set_d_data_slice (b : bool) (p : Problem DS) : Problem DS :=
  mkProblem (rt p) (num_gpus p) (nodes p) (edges p) (d_row_offsets p)
    (d_column_offsets p) (d_keys0 p) (data_slice p) b.
Definition set_keys0 (k : list Z) (p : Problem DS) : Problem DS :=
  mkProblem (rt p) (num_gpus p) (nodes p) (edges p) (d_row_offsets p)
    (d_column_offsets p) k (data_slice p) (d_data_slice p).
Definition set_sizes (g n e : Z) (p : Problem DS) : Problem DS :=
  mkProblem (rt p) g n e (d_row_offsets p)
    (d_column_offsets p) (d_keys0 p) (data_slice p) (d_data_slice p).

(** A runtime call whose status the caller tests. *)
Definition rt_call (c : Runtime -> cudaError_t * Runtime) (p : Problem DS)
  : cudaError_t * Problem DS :=
  let (e, r) := c (rt p) in (e, set_rt r p).

(** A call whose status the caller drops ([ProblemBase::Init] and
    [ProblemBase::Reset] are called that way). *)
Definition unchecked (c : Runtime -> cudaError_t * Runtime) : M (S := Problem DS) unit :=
  modify (fun p => set_rt (snd (c (rt p))) p).

(** [T *tmp; if (retval = GRError(cudaMalloc(&tmp, n * sizeof(T)))) return
    retval; data_slices[0]->member = tmp;] *)
Definition malloc_member {T} (f : field DS T) (fill : T) (n : Z) : M (S := Problem DS) unit :=
  try (fun p =>
         match cudaMalloc fill n (rt p) with
         | (e, Some a, r) =>
             (GRError e, set_rt r (set_slice (fset f (Some a) (data_slice p)) p))
         | (e, None, r) => (GRError e, set_rt r p)
         end).

(** [if (!data_slices[gpu]->member) { ... cudaMalloc ... }] *)
Definition malloc_if_null {T} (f : field DS T) (fill : T) (n : Z) : M (S := Problem DS) unit :=
  bind get (fun p =>
    match fget f (data_slice p) with
    | None => malloc_member f fill n
    | Some _ => ret tt
    end).

(** A kernel launched on a member: nothing to check, nothing returned. *)
Definition kernel {T} (f : field DS T) (k : Problem DS -> list T -> list T) : M (S := Problem DS) unit :=
  modify (fun p =>
            set_slice (fset f (k p <$> fget f (data_slice p)) (data_slice p)) p).

(** [if (retval = GRError(cudaMemcpy(member + i, &v, sizeof(T), HostToDevice)))
    return retval;] *)
Definition memcpy_cell {T} (f : field DS T) (i : Z) (v : T) : M (S := Problem DS) unit :=
  try (fun p =>
         let (e, r) := call (rt p) in
         if failed e then (GRError e, set_rt r p)
         else (GRError e,
               set_rt r (set_slice
                           (fset f ((fun a => St v a i) <$> fget f (data_slice p))
                              (data_slice p)) p))).

(** [cudaMemcpy(d_data_slices[gpu], data_slices[gpu], sizeof(DataSlice),
    HostToDevice)]: the device copy of the struct of pointers. *)
Definition memcpy_struct : M (S := Problem DS) unit :=
  try (fun p => let (e, r) := call (rt p) in (GRError e, set_rt r p)).

(** [cudaMemcpy(h, member, n * sizeof(T), DeviceToHost)] into the caller's
    buffer [h]; a NULL member copies nothing. *)
Definition memcpy_to_host {T} (f : field DS T) (n : Z) (h : list T) (p : Problem DS)
  : cudaError_t * list T * Problem DS :=
  match fget f (data_slice p) with
  | Some d =>
      match cudaMemcpy h d n (rt p) with
      | (e, h', r) => (GRError e, h', set_rt r p)
      end
  | None => let (e, r) := call (rt p) in (GRError e, h, set_rt r p)
  end.

End Ops.

End problem.

(* ===================================================================== *)
(** ** gunrock/app/hits: HITSProblem                                       *)
(* ===================================================================== *)

Module hits.
Import util problem.

Definition Value := float.

Record DataSlice := mkDataSlice {
  d_hrank_curr : option (list Value);
  d_arank_curr : option (list Value);
  d_hrank_next : option (list Value);
  d_arank_next : option (list Value);
  d_in_degrees : option (list Z);
  d_out_degrees : option (list Z);
  d_delta : option (list Value);
  d_src_node : option (list Z);
  d_labels : option (list Z)
}.

(** [new DataSlice]: the members of a new slice are not initialised; NULL
    stands for them. *)
Definition new_DataSlice : DataSlice :=
  mkDataSlice None None None None None None None None None.

Definition hrank_curr : field DataSlice Value :=
  mkField d_hrank_curr
    (fun v s => mkDataSlice v (d_arank_curr s) (d_hrank_next s) (d_arank_next s)
                  (d_in_degrees s) (d_out_degrees s) (d_delta s) (d_src_node s) (d_labels s)).
Definition arank_curr : field DataSlice Value :=
  mkField d_arank_curr
    (fun v s => mkDataSlice (d_hrank_curr s) v (d_hrank_next s) (d_arank_next s)
                  (d_in_degrees s) (d_out_degrees s) (d_delta s) (d_src_node s) (d_labels s)).
Definition hrank_next : field DataSlice Value :=
  mkField d_hrank_next
    (fun v s => mkDataSlice (d_hrank_curr s) (d_arank_curr s) v (d_arank_next s)
                  (d_in_degrees s) (d_out_degrees s) (d_delta s) (d_src_node s) (d_labels s)).
Definition arank_next : field DataSlice Value :=
  mkField d_arank_next
    (fun v s => mkDataSlice (d_hrank_curr s) (d_arank_curr s) (d_hrank_next s) v
                  (d_in_degrees s) (d_out_degrees s) (d_delta s) (d_src_node s) (d_labels s)).
Definition in_degrees : field DataSlice Z :=
  mkField d_in_degrees
    (fun v s => mkDataSlice (d_hrank_curr s) (d_arank_curr s) (d_hrank_next s) (d_arank_next s)
                  v (d_out_degrees s) (d_delta s) (d_src_node s) (d_labels s)).
Definition out_degrees : field DataSlice Z :=
  mkField d_out_degrees
    (fun v s => mkDataSlice (d_hrank_curr s) (d_arank_curr s) (d_hrank_next s) (d_arank_next s)
                  (d_in_degrees s) v (d_delta s) (d_src_node s) (d_labels s)).
Definition delta_ : field DataSlice Value :=
  mkField d_delta
    (fun v s => mkDataSlice (d_hrank_curr s) (d_arank_curr s) (d_hrank_next s) (d_arank_next s)
                  (d_in_degrees s) (d_out_degrees s) v (d_src_node s) (d_labels s)).
Definition src_node : field DataSlice Z :=
  mkField d_src_node
    (fun v s => mkDataSlice (d_hrank_curr s) (d_arank_curr s) (d_hrank_next s) (d_arank_next s)
                  (d_in_degrees s) (d_out_degrees s) (d_delta s) v (d_labels s)).
Definition labels_ : field DataSlice Z :=
  mkField d_labels
    (fun v s => mkDataSlice (d_hrank_curr s) (d_arank_curr s) (d_hrank_next s) (d_arank_next s)
                  (d_in_degrees s) (d_out_degrees s) (d_delta s) (d_src_node s) v).

Definition HITSProblem := Problem DataSlice.

(** [HITSProblem::Extract(h_hrank, h_arank)]: the status and the caller's
    two buffers.  Every exit of the [do { } while (0)] returns [retval]. *)
Definition Extract (h_hrank h_arank : list Value) (p : HITSProblem)
  : cudaError_t * list Value * list Value * HITSProblem :=
  let retval := cudaSuccess in
  if num_gpus p =? 1 then
    (* Set device *)
    let (e0, p0) := rt_call cudaSetDevice p in
    if failed (GRError e0) then (retval, h_hrank, h_arank, p0)      (* break *)
    else
      match memcpy_to_host hrank_curr (nodes p0) h_hrank p0 with
      | (retval, h_hrank, p1) =>
          if failed retval then (retval, h_hrank, h_arank, p1)      (* break *)
          else
            match memcpy_to_host arank_curr (nodes p1) h_arank p1 with
            | (retval, h_arank, p2) => (retval, h_hrank, h_arank, p2)
            end
      end
  else
    (* TODO: multi-GPU extract result *)
    (retval, h_hrank, h_arank, p).

(** [HITSProblem::Init(stream_from_host, hub_graph, auth_graph, _num_gpus)]:
    [p] already holds the two graphs' offsets.  An early [break] and an
    early [return retval] leave with the same status. *)
Definition Init (_num_gpus hub_nodes hub_edges : Z) (p : HITSProblem)
  : cudaError_t * HITSProblem :=
  run (modify (set_sizes _num_gpus hub_nodes hub_edges) ;;;
       unchecked call ;;;                        (* ProblemBase::Init *)
       if _num_gpus <=? 1 then
         try (rt_call (fun r => let (e, r') := cudaGetDevice r in (GRError e, r'))) ;;;
         modify (set_slice new_DataSlice) ;;;
         try (fun p => match cudaMalloc tt 1 (rt p) with
                       | (e, Some _, r) => (GRError e, set_rt r (set_d_data_slice true p))
                       | (e, None, r) => (GRError e, set_rt r p)
                       end) ;;;
         (* Create SoA on device *)
         malloc_member hrank_curr 0%float hub_nodes ;;;
         malloc_member arank_curr 0%float hub_nodes ;;;
         malloc_member hrank_next 0%float hub_nodes ;;;
         malloc_member arank_next 0%float hub_nodes ;;;
         malloc_member in_degrees 0 hub_nodes ;;;
         malloc_member out_degrees 0 hub_nodes ;;;
         malloc_member delta_ 0%float 1 ;;;
         malloc_member src_node 0 1 ;;;
         modify (fun p => set_slice (fset labels_ None (data_slice p)) p)
       else ret tt                               (* TODO: multi-GPU *)
      )%dev p.

(** [HITSProblem::Reset(src, delta, frontier_type, queue_sizing)] of a
    problem with one data slice (the [for] over the GPUs runs once). *)
Definition Reset (src : Z) (delta : Value) (p : HITSProblem)
  : cudaError_t * HITSProblem :=
  run (unchecked call ;;;                        (* BaseProblem::Reset *)
       p0 <- get ;;
       let nodes := nodes p0 in
       (* Set device *)
       try (rt_call (fun r => let (e, r') := cudaSetDevice r in (GRError e, r'))) ;;;
       (* Allocate output page ranks if necessary *)
       malloc_if_null hrank_curr 0%float nodes ;;;
       malloc_if_null arank_curr 0%float nodes ;;;
       malloc_if_null hrank_next 0%float nodes ;;;
       malloc_if_null arank_next 0%float nodes ;;;
       (* Allocate d_degrees if necessary *)
       malloc_if_null in_degrees 0 nodes ;;;
       malloc_if_null out_degrees 0 nodes ;;;
       malloc_if_null delta_ 0%float 1 ;;;
       malloc_if_null src_node 0 1 ;;;
       modify (fun p => set_slice (fset labels_ None (data_slice p)) p) ;;;
       (* Initial rank_curr = 0 *)
       kernel hrank_curr (fun _ d => MemsetKernel d 0%float nodes) ;;;
       kernel arank_curr (fun _ d => MemsetKernel d 0%float nodes) ;;;
       kernel hrank_next (fun _ d => MemsetKernel d 0%float nodes) ;;;
       kernel arank_next (fun _ d => MemsetKernel d 0%float nodes) ;;;
       kernel out_degrees (fun _ d => MemsetKernel d 0 nodes) ;;;
       kernel in_degrees (fun _ d => MemsetKernel d 0 nodes) ;;;
       kernel out_degrees
         (fun p d => MemsetMadVectorKernel d (d_row_offsets p)
                       (drop 1 (d_row_offsets p)) (-1) nodes) ;;;
       kernel in_degrees
         (fun p d => MemsetMadVectorKernel d (d_column_offsets p)
                       (drop 1 (d_column_offsets p)) (-1) nodes) ;;;
       memcpy_struct ;;;
       (* Fillin the initial input_queue *)
       memcpy_cell hrank_curr src 1%float ;;;
       memcpy_cell delta_ 0 delta ;;;
       memcpy_cell src_node 0 src ;;;
       (* Put every vertex in there *)
       modify (fun p => set_keys0 (MemsetIdxKernel (d_keys0 p) nodes) p)
      )%dev p.

End hits.

(* ===================================================================== *)
(** ** gunrock/app/bc: BCProblem                                           *)
(* ===================================================================== *)

Module bc.
Import util problem.

Definition Value := float.

Record DataSlice := mkDataSlice {
  d_labels : option (list Z);
  d_preds : option (list Z);
  d_bc_values : option (list Value);
  d_ebc_values : option (list Value);
  d_sigmas : option (list Value);
  d_deltas : option (list Value);
  d_src_node : option (list Z);
  d_forward_output : option (list Z)
}.

Definition new_DataSlice : DataSlice :=
  mkDataSlice None None None None None None None None.

Definition labels_ : field DataSlice Z :=
  mkField d_labels (fun v s => mkDataSlice v (d_preds s) (d_bc_values s) (d_ebc_values s) (d_sigmas s) (d_deltas s) (d_src_node s) (d_forward_output s)).
Definition preds_ : field DataSlice Z :=
  mkField d_preds (fun v s => mkDataSlice (d_labels s) v (d_bc_values s) (d_ebc_values s) (d_sigmas s) (d_deltas s) (d_src_node s) (d_forward_output s)).
Definition bc_values : field DataSlice Value :=
  mkField d_bc_values (fun v s => mkDataSlice (d_labels s) (d_preds s) v (d_ebc_values s) (d_sigmas s) (d_deltas s) (d_src_node s) (d_forward_output s)).
Definition ebc_values : field DataSlice Value :=
  mkField d_ebc_values (fun v s => mkDataSlice (d_labels s) (d_preds s) (d_bc_values s) v (d_sigmas s) (d_deltas s) (d_src_node s) (d_forward_output s)).
Definition sigmas : field DataSlice Value :=
  mkField d_sigmas (fun v s => mkDataSlice (d_labels s) (d_preds s) (d_bc_values s) (d_ebc_values s) v (d_deltas s) (d_src_node s) (d_forward_output s)).
Definition deltas : field DataSlice Value :=
  mkField d_deltas (fun v s => mkDataSlice (d_labels s) (d_preds s) (d_bc_values s) (d_ebc_values s) (d_sigmas s) v (d_src_node s) (d_forward_output s)).
Definition src_node : field DataSlice Z :=
  mkField d_src_node (fun v s => mkDataSlice (d_labels s) (d_preds s) (d_bc_values s) (d_ebc_values s) (d_sigmas s) (d_deltas s) v (d_forward_output s)).
Definition forward_output : field DataSlice Z :=
  mkField d_forward_output (fun v s => mkDataSlice (d_labels s) (d_preds s) (d_bc_values s) (d_ebc_values s) (d_sigmas s) (d_deltas s) (d_src_node s) v).

Definition BCProblem := Problem DataSlice.

(** [if (h) { if (retval = GRError(cudaMemcpy(h, member, ..))) break; }] for
    a buffer the caller may leave out (NULL). *)
Definition memcpy_opt (f : field DataSlice Value) (n : Z)
    (h : option (list Value)) (p : BCProblem)
  : cudaError_t * option (list Value) * BCProblem :=
  match h with
  | Some b =>
      match memcpy_to_host f n b p with
      | (e, b', p') => (e, Some b', p')
      end
  | None => (cudaSuccess, None, p)
  end.

(** [BCProblem::Extract(h_sigmas, h_bc_values, h_ebc_values)]: the status
    and the caller's three buffers. *)
Definition Extract (h_sigmas : option (list Value)) (h_bc_values : list Value)
    (h_ebc_values : option (list Value)) (p : BCProblem)
  : cudaError_t * option (list Value) * list Value * option (list Value) * BCProblem :=
  let retval := cudaSuccess in
  if num_gpus p =? 1 then
    (* Set device *)
    let (e0, p0) := rt_call cudaSetDevice p in
    if failed (GRError e0)
    then (retval, h_sigmas, h_bc_values, h_ebc_values, p0)          (* break *)
    else
      match memcpy_to_host bc_values (nodes p0) h_bc_values p0 with
      | (retval, h_bc_values, p1) =>
          if failed retval
          then (retval, h_sigmas, h_bc_values, h_ebc_values, p1)    (* break *)
          else
            match memcpy_opt ebc_values (edges p1) h_ebc_values p1 with
            | (retval, h_ebc_values, p2) =>
                if failed retval
                then (retval, h_sigmas, h_bc_values, h_ebc_values, p2)
                else
                  match memcpy_opt sigmas (nodes p2) h_sigmas p2 with
                  | (retval, h_sigmas, p3) =>
                      (retval, h_sigmas, h_bc_values, h_ebc_values, p3)
                  end
            end
      end
  else
    (* TODO: multi-GPU extract result *)
    (retval, h_sigmas, h_bc_values, h_ebc_values, p).

(** [BCProblem::Init(stream_from_host, graph, _num_gpus)]. *)
Definition Init (_num_gpus graph_nodes graph_edges : Z) (p : BCProblem)
  : cudaError_t * BCProblem :=
  run (modify (set_sizes _num_gpus graph_nodes graph_edges) ;;;
       unchecked call ;;;                        (* ProblemBase::Init *)
       if _num_gpus <=? 1 then
         try (rt_call (fun r => let (e, r') := cudaGetDevice r in (GRError e, r'))) ;;;
         modify (set_slice new_DataSlice) ;;;
         try (fun p => match cudaMalloc tt 1 (rt p) with
                       | (e, Some _, r) => (GRError e, set_rt r (set_d_data_slice true p))
                       | (e, None, r) => (GRError e, set_rt r p)
                       end) ;;;
         (* Create SoA on device *)
         malloc_member labels_ 0 graph_nodes ;;;
         malloc_member preds_ 0 graph_nodes ;;;
         malloc_member bc_values 0%float graph_nodes ;;;
         malloc_member ebc_values 0%float graph_edges ;;;
         kernel bc_values (fun _ d => MemsetKernel d 0%float graph_nodes) ;;;
         kernel ebc_values (fun _ d => MemsetKernel d 0%float graph_edges) ;;;
         malloc_member sigmas 0%float graph_nodes ;;;
         malloc_member forward_output 0 graph_nodes ;;;
         malloc_member src_node 0 1 ;;;
         malloc_member deltas 0%float graph_nodes
       else ret tt                               (* TODO: multi-GPU *)
      )%dev p.

(** [BCProblem::Reset(src, frontier_type, queue_sizing)] of a problem with
    one data slice. *)
Definition Reset (src : Z) (p : BCProblem) : cudaError_t * BCProblem :=
  run (unchecked call ;;;                        (* BaseProblem::Reset *)
       p0 <- get ;;
       let nodes := nodes p0 in
       (* Reset all data but d_bc_values and d_ebc_values *)
       try (rt_call (fun r => let (e, r') := cudaSetDevice r in (GRError e, r'))) ;;;
       malloc_if_null labels_ 0 nodes ;;;
       kernel labels_ (fun _ d => MemsetKernel d (-1) nodes) ;;;
       malloc_if_null preds_ 0 nodes ;;;
       kernel preds_ (fun _ d => MemsetKernel d (-2) nodes) ;;;
       malloc_if_null bc_values 0%float nodes ;;;
       malloc_if_null ebc_values 0%float nodes ;;;
       malloc_if_null deltas 0%float nodes ;;;
       kernel deltas (fun _ d => MemsetKernel d 0%float nodes) ;;;
       malloc_if_null sigmas 0%float nodes ;;;
       malloc_if_null forward_output 0 nodes ;;;
       malloc_if_null src_node 0 1 ;;;
       kernel sigmas (fun _ d => MemsetKernel d 0%float nodes) ;;;
       memcpy_struct ;;;
       (* Fillin the initial input_queue for BC problem *)
       try (fun p => let (e, r) := call (rt p) in
                     if failed e then (GRError e, set_rt r p)
                     else (GRError e, set_rt r (set_keys0 (St src (d_keys0 p) 0) p))) ;;;
       memcpy_cell src_node 0 src ;;;
       memcpy_cell labels_ src 0 ;;;
       memcpy_cell preds_ src (-1) ;;;
       memcpy_cell sigmas src 1%float
      )%dev p.

End bc.

(* ===================================================================== *)
(** ** gunrock/app/pr: PRFunctor                                           *)
(* ===================================================================== *)

Module pr.
Import util.

Definition Value := float.

(** The members of PRProblem's data slice the functor touches
    (pr_problem.cuh is not under src/): device arrays. *)
Record DataSlice := mkDataSlice {
  d_rank_curr : list Value;
  d_rank_next : list Value;
  d_degrees : list Z;
  d_delta : list Value;
  d_threshold : list Value
}.

Definition set_rank_next (a : list Value) (s : DataSlice) : DataSlice :=
  mkDataSlice (d_rank_curr s) a (d_degrees s) (d_delta s) (d_threshold s).

(** An [int] degree converted to [Value]. *)
Definition Value_of_int (z : Z) : Value :=
  if z <? 0 then (- of_uint63 (Uint63.of_Z (- z)))%float
  else of_uint63 (Uint63.of_Z z).

Definition CondEdge (s_id d_id : Z) (problem : DataSlice) (e_id e_id_in : Z)
  : bool * DataSlice :=
  (true, problem).

(** [atomicAdd(&d_rank_next[d_id], d_rank_curr[s_id] / d_degrees[s_id])]. *)
Definition ApplyEdge (s_id d_id : Z) (problem : DataSlice) (e_id e_id_in : Z)
  : DataSlice :=
  let degree := Ld 0 (d_degrees problem) s_id in
  let contribution :=
    (Ld 0 (d_rank_curr problem) s_id / Value_of_int degree)%float in
  set_rank_next
    (St (Ld 0 (d_rank_next problem) d_id + contribution)%float
        (d_rank_next problem) d_id)
    problem.

Definition CondFilter (node : Z) (problem : DataSlice) (v : Value) (nid : Z)
  : bool * DataSlice :=
  let delta := Ld 0%float (d_delta problem) 0 in
  let problem :=
    set_rank_next
      (St ((1 - delta) + delta * Ld 0 (d_rank_next problem) node)%float
          (d_rank_next problem) node)
      problem in
  let diff :=
    abs (Ld 0 (d_rank_next problem) node - Ld 0 (d_rank_curr problem) node)%float in
  ((Ld 0%float (d_threshold problem) 0 <=? diff)%float, problem).

Definition ApplyFilter (node : Z) (problem : DataSlice) (v : Value) (nid : Z)
  : DataSlice :=
  (* Doing nothing here *)
  problem.

Definition PRFunctor : oprtr.Functor DataSlice Value :=
  oprtr.mkFunctor DataSlice Value CondEdge ApplyEdge CondFilter ApplyFilter.

End pr.

(* ===================================================================== *)
(** ** gunrock/app/salsa: SALSAEnactor                                     *)
(* ===================================================================== *)

Module salsa.
Import util.

Definition Value := float.

(** The members of SALSAProblem's [data_slices[0]] that the enactor itself
    touches (salsa_problem.cuh is not under src/). *)
Record DataSlice := mkDataSlice {
  d_hrank_curr : list Value;
  d_hrank_next : list Value;
  d_arank_curr : list Value;
  d_arank_next : list Value
}.

(** [SALSAEnactor::NormalizeRank(problem, context, hub_or_auth, nodes)]. *)
Definition NormalizeRank (problem : DataSlice) (hub_or_auth nodes : Z) : DataSlice :=
  if hub_or_auth =? 0 then
    let rank_curr := d_hrank_curr problem in
    let rank_next := d_hrank_next problem in
    (* swap rank_curr and rank_next *)
    let rank_curr := MemsetCopyVectorKernel rank_curr rank_next nodes in
    let rank_next := MemsetKernel rank_next 0%float nodes in
    mkDataSlice rank_curr rank_next (d_arank_curr problem) (d_arank_next problem)
  else
    let rank_curr := d_arank_curr problem in
    let rank_next := d_arank_next problem in
    let rank_curr := MemsetCopyVectorKernel rank_curr rank_next nodes in
    let rank_next := MemsetKernel rank_next 0%float nodes in
    mkDataSlice (d_hrank_curr problem) (d_hrank_next problem) rank_curr rank_next.

Record FrontierAttribute := mkFrontierAttribute {
  queue_length : Z;
  queue_index : Z;
  selector : Z;
  queue_reset : bool
}.

(** What an advance kernel is handed by reference, apart from the counters of
    [enactor_stats]: the frontier attribute, the queue length kept by
    [work_progress], the two frontier queues and the data slice. *)
Record Device := mkDevice {
  frontier_attribute : FrontierAttribute;
  work_progress : Z;
  d_keys : list Z * list Z;
  data_slice : DataSlice
}.

Definition set_frontier_attribute (a : FrontierAttribute) (d : Device) : Device :=
  mkDevice a (work_progress d) (d_keys d) (data_slice d).
Definition set_work_progress (w : Z) (d : Device) : Device :=
  mkDevice (frontier_attribute d) w (d_keys d) (data_slice d).
Definition set_d_keys (k : list Z * list Z) (d : Device) : Device :=
  mkDevice (frontier_attribute d) (work_progress d) k (data_slice d).
Definition set_data_slice (s : DataSlice) (d : Device) : Device :=
  mkDevice (frontier_attribute d) (work_progress d) (d_keys d) s.

Definition set_queue_length (n : Z) (d : Device) : Device :=
  let a := frontier_attribute d in
  set_frontier_attribute
    (mkFrontierAttribute n (queue_index a) (selector a) (queue_reset a)) d.

(** The enactor during one [EnactSALSA]: the runtime, the graph slice's
    sizes, [enactor_stats.iteration], the scratch array of the load-balanced
    advance and what the kernels work on. *)
Record Enactor := mkEnactor {
  rt : Runtime;
  gs_nodes : Z;
  gs_edges : Z;
  frontier_elements : Z * Z;
  iteration : Z;
  d_scanned_edges : option (list Z);
  device : Device
}.

Definition set_rt (r : Runtime) (s : Enactor) : Enactor :=
  mkEnactor r (gs_nodes s) (gs_edges s) (frontier_elements s) (iteration s)
    (d_scanned_edges s) (device s).
Definition set_iteration (i : Z) (s : Enactor) : Enactor :=
  mkEnactor (rt s) (gs_nodes s) (gs_edges s) (frontier_elements s) i
    (d_scanned_edges s) (device s).
Definition set_d_scanned_edges (a : option (list Z)) (s : Enactor) : Enactor :=
  mkEnactor (rt s) (gs_nodes s) (gs_edges s) (frontier_elements s) (iteration s)
    a (device s).
Definition set_device (d : Device) (s : Enactor) : Enactor :=
  mkEnactor (rt s) (gs_nodes s) (gs_edges s) (frontier_elements s) (iteration s)
    (d_scanned_edges s) d.

(** The four functors [EnactSALSA] launches the advance kernel with. *)
Inductive SalsaFunctor := HForward | AForward | HBackward | ABackward.

(** [gunrock::oprtr::advance::LaunchKernel<.., Functor>(..., max_in_queue,
    max_out_queue, ...)]: the kernel is not under src/; its effect on what it
    is handed is a parameter of the enactor.  It returns nothing. *)
Definition Kernel := SalsaFunctor -> Z -> Z -> Device -> Device.

Definition launch (K : Kernel) (f : SalsaFunctor) (max_in max_out : Z)
    (s : Enactor) : Enactor :=
  set_device (K f max_in max_out (device s)) s.

(** The queue [d_keys[selector]]. *)
Definition on_selected (f : list Z -> list Z) (d : Device) : Device :=
  let (k0, k1) := d_keys d in
  if selector (frontier_attribute d) =? 0
  then set_d_keys (f k0, k1) d
  else set_d_keys (k0, f k1) d.

Definition rt_call (c : Runtime -> cudaError_t * Runtime) (s : Enactor)
  : cudaError_t * Enactor :=
  let (e, r) := c (rt s) in (e, set_rt r s).

(** [work_progress.SetQueueLength(queue_index, v)]. *)
Definition SetQueueLength (v : Z) (s : Enactor) : cudaError_t * Enactor :=
  let (e, s') := rt_call call s in
  if failed e then (e, s') else (e, set_device (set_work_progress v (device s')) s').

(** [work_progress.GetQueueLength(queue_index, frontier_attribute.queue_length)]. *)
Definition GetQueueLength (s : Enactor) : cudaError_t * Enactor :=
  let (e, s') := rt_call call s in
  if failed e then (e, s')
  else (e, set_device (set_queue_length (work_progress (device s')) (device s')) s').

(** [if (DEBUG && (retval = GRError(cudaThreadSynchronize(), ..))) break;]:
    the status to break with, if any. *)
Definition debug_sync (DEBUG : bool) (s : Enactor) : cudaError_t * Enactor :=
  if DEBUG then
    let (e, s') := rt_call cudaThreadSynchronize s in (GRError e, s')
  else (cudaSuccess, s).

(** The loop's own exit test: [if (enactor_stats.iteration >= max_iteration)
    break;]. *)
Definition termination_check (max_iteration : Z) (s : Enactor) : bool :=
  max_iteration <=? iteration s.

(** Following the spec's words (§4.4 step (5), without the filter-side
    predicate, SALSA having no filter): "frontier length == 0, OR iteration >=
    max_iteration". *)
Definition termination_check_spec (max_iteration : Z) (s : Enactor) : bool :=
  (queue_length (frontier_attribute (device s)) =? 0)
  || (max_iteration <=? iteration s).

(** One turn of [while (true) { ... }] up to and including
    [enactor_stats.iteration++]: [inl] is a [break] on a failed call, with
    the status. *)
Definition loop_body (K : Kernel) (DEBUG INSTRUMENT : bool) (s : Enactor)
  : (cudaError_t * Enactor) + Enactor :=
  let s := set_device (on_selected (fun k => MemsetIdxKernel k (gs_edges s)) (device s)) s in
  let s := set_device (set_queue_length (gs_edges s) (device s)) s in
  let (e, s) := SetQueueLength (queue_length (frontier_attribute (device s))) s in
  if failed e then inl (e, s) else
  (* Edge Map *)
  let s := launch K HBackward (gs_nodes s) (gs_edges s) s in
  let (e, s) := debug_sync DEBUG s in
  if failed e then inl (e, s) else
  let s := set_device (set_data_slice
             (NormalizeRank (data_slice (device s)) 0 (gs_nodes s)) (device s)) s in
  (* Edge Map *)
  let s := launch K ABackward (gs_nodes s) (gs_edges s) s in
  let (e, s) := debug_sync DEBUG s in
  if failed e then inl (e, s) else
  let (e, s) := if DEBUG then GetQueueLength s else (cudaSuccess, s) in
  if failed e then inl (e, s) else
  let (e, s) := if INSTRUMENT then rt_call call s   (* advance_kernel_stats.Accumulate *)
                else (cudaSuccess, s) in
  if failed e then inl (e, s) else
  let s := set_device (set_data_slice
             (NormalizeRank (data_slice (device s)) 1 (gs_nodes s)) (device s)) s in
  inr (set_iteration (iteration s + 1) s).

(** [while (true) { body; if (iteration >= max_iteration) break; }]; [None]
    when the fuel runs out before the loop is left. *)
Fixpoint loop (fuel : nat) (K : Kernel) (DEBUG INSTRUMENT : bool)
    (max_iteration : Z) (s : Enactor) : option (cudaError_t * Enactor) :=
  match fuel with
  | O => None
  | S fuel' =>
      match loop_body K DEBUG INSTRUMENT s with
      | inl r => Some r
      | inr s' =>
          if termination_check max_iteration s' then Some (cudaSuccess, s')
          else loop fuel' K DEBUG INSTRUMENT max_iteration s'
      end
  end.

(** What precedes the loop: the two forward advances over all vertices. *)
Definition prologue (K : Kernel) (DEBUG LB : bool) (s : Enactor)
  : (cudaError_t * Enactor) + Enactor :=
  (* Lazy initialization: Setup(problem) returns cudaSuccess;
     EnactorBase::Setup resets the statistics *)
  let (e, s) := rt_call call s in
  if failed e then inl (e, s) else
  let s := set_iteration 0 s in
  let s := set_device
             (set_frontier_attribute (mkFrontierAttribute (gs_nodes s) 0 0 true)
                (device s)) s in
  let (e, s) :=
    if LB then
      match cudaMalloc 0 (gs_edges s + 1) (rt s) with
      | (e, a, r) => (GRError e, set_rt r (set_d_scanned_edges a s))
      end
    else (cudaSuccess, s) in
  if failed e then inl (e, s) else
  let s := set_device (on_selected (fun k => MemsetIdxKernel k (gs_nodes s)) (device s)) s in
  let (e, s) := SetQueueLength (gs_nodes s) s in
  if failed e then inl (e, s) else
  let s := launch K HForward (fst (frontier_elements s)) (snd (frontier_elements s)) s in
  let (e, s) := debug_sync DEBUG s in
  if failed e then inl (e, s) else
  let s := launch K AForward (fst (frontier_elements s)) (snd (frontier_elements s)) s in
  let (e, s) := debug_sync DEBUG s in
  if failed e then inl (e, s) else
  inr (set_device (set_queue_length (gs_edges s) (device s)) s).

(** [SALSAEnactor::EnactSALSA(context, problem, max_iteration, max_grid_size)];
    [LB] says whether the advance policy is the load-balanced one.  After
    the loop comes [if (retval) break;] and the comment "Check overflow
    ignored here"; every path returns [retval]. *)
Definition EnactSALSA (K : Kernel) (DEBUG INSTRUMENT LB : bool)
    (max_iteration : Z) (s : Enactor) : option (cudaError_t * Enactor) :=
  match prologue K DEBUG LB s with
  | inl r => Some r
  | inr s' => loop (S (Z.to_nat max_iteration)) K DEBUG INSTRUMENT max_iteration s'
  end.

(** [SALSAEnactor::Enact]: only devices of SM version 3.0 and later are
    tuned; the policy chosen there is the load-balanced advance. *)
Definition Enact (K : Kernel) (DEBUG INSTRUMENT : bool) (device_sm_version : Z)
    (max_iteration : Z) (s : Enactor) : option (cudaError_t * Enactor) :=
  if 300 <=? device_sm_version
  then EnactSALSA K DEBUG INSTRUMENT true max_iteration s
  else Some (cudaErrorInvalidDeviceFunction, s).

End salsa.

(* ===================================================================== *)
(** ** Theorems: binary_search                                             *)
(* ===================================================================== *)

Section BinarySearch.
Import util topk.

Lemma mid_bounds lft rgt :
  lft <= rgt -> lft <= lft + (rgt - lft) ÷ 2 <= rgt.
Proof.
  intros H.
  assert (0 <= (rgt - lft) ÷ 2 <= rgt - lft)
    by (split; [apply Z.quot_pos; lia | apply Z.quot_le_upper_bound; lia]).
  lia.
Qed.

Lemma in_int_false_absurd z :
  in_int z = false -> INT_MIN <= z <= INT_MAX -> False.
Proof.
  unfold in_int. intros H [Ha Hb].
  apply andb_false_iff in H as [H|H]; apply Z.leb_gt in H; lia.
Qed.

Lemma rd_in_range (arr : list Z) i :
  0 <= i < Z.of_nat (length arr) -> exists x, rd arr i = Some x.
Proof.
  intros [H0 H1]. unfold rd.
  destruct (Z.leb_spec 0 i); [|lia].
  apply lookup_lt_is_Some. lia.
Qed.

Lemma sorted_on_narrow arr l r l' r' :
  sorted_on arr l r -> l <= l' -> r' <= r -> sorted_on arr l' r'.
Proof.
  intros Hs Hl Hr i j x y Hi Hij Hj. apply Hs; lia.
Qed.

(** C9: on an array sorted in ascending order on [[lft, rgt]] (a range of
    valid indices), [binary_search] returns [val] when [val] occurs in the
    range and [-1] when it does not. *)
Theorem binary_search_sorted (arr : list Z) (val lft rgt : Z) :
  0 <= lft ->
  rgt < Z.of_nat (length arr) ->
  Z.of_nat (length arr) <= INT_MAX ->
  sorted_on arr lft rgt ->
  (occurs_on arr val lft rgt -> binary_search arr val lft rgt = Some val) /\
  (~ occurs_on arr val lft rgt -> binary_search arr val lft rgt = Some (-1)).
Proof.
  funelim (binary_search arr val lft rgt); intros H0 Hlen Hmax Hs;
    try (pose proof (mid_bounds lft rgt ltac:(assumption)) as Hm);
    (* neither right - left nor mid + 1 overflows under the bounds *)
    try solve [exfalso; eapply in_int_false_absurd; [eassumption|];
               unfold INT_MIN, INT_MAX in *; lia].
  - (* empty range *)
    split; [|reflexivity].
    intros [i [Hi _]]. lia.
  - (* the probe is a valid index *)
    exfalso.
    destruct (rd_in_range arr (lft + (rgt - lft) ÷ 2)) as [y Hy]; [lia|].
    congruence.
  - (* the probe equals val *)
    subst x. split; [reflexivity|].
    intros Hno. exfalso. apply Hno.
    exists (lft + (rgt - lft) ÷ 2). split; [lia | assumption].
  - (* arr[mid] > val: continue on the left half *)
    match goal with
    | IH : _ -> _ -> _ -> _ -> _ /\ _ |- _ =>
        destruct IH as [IH1 IH2];
          [lia | lia | assumption | eapply sorted_on_narrow; eauto; lia |]
    end.
    split; intros Ho.
    + apply IH1. destruct Ho as [i [Hi Hv]]. exists i. split; [|assumption].
      destruct (Z_lt_dec i (lft + (rgt - lft) ÷ 2)); [lia|].
      assert (x <= val) by (eapply (Hs (lft + (rgt - lft) ÷ 2) i); eauto; lia).
      lia.
    + apply IH2. intros [i [Hi Hv]]. apply Ho. exists i. split; [lia|assumption].
  - (* arr[mid] < val: continue on the right half *)
    match goal with
    | IH : _ -> _ -> _ -> _ -> _ /\ _ |- _ =>
        destruct IH as [IH1 IH2];
          [lia | lia | assumption | eapply sorted_on_narrow; eauto; lia |]
    end.
    split; intros Ho.
    + apply IH1. destruct Ho as [i [Hi Hv]]. exists i. split; [|assumption].
      destruct (Z_lt_dec (lft + (rgt - lft) ÷ 2) i); [lia|].
      assert (val <= x) by (eapply (Hs i (lft + (rgt - lft) ÷ 2)); eauto; lia).
      lia.
    + apply IH2. intros [i [Hi Hv]]. apply Ho. exists i. split; [lia|assumption].
Qed.

Lemma binary_search_sorted_witness :
  (occurs_on [1; 3; 5] 3 0 2 -> binary_search [1; 3; 5] 3 0 2 = Some 3) /\
  (~ occurs_on [1; 3; 5] 3 0 2 -> binary_search [1; 3; 5] 3 0 2 = Some (-1)).
Proof.
  apply (binary_search_sorted [1; 3; 5] 3 0 2).
  - lia.
  - cbn. lia.
  - cbn. unfold INT_MAX. lia.
  - intros i j x y Hi Hij Hj.
    assert (Ei : i = 0 \/ i = 1 \/ i = 2) by lia.
    assert (Ej : j = 0 \/ j = 1 \/ j = 2) by lia.
    destruct Ei as [->|[->| ->]], Ej as [->|[->| ->]];
      cbn; intros A B; inversion A; inversion B; lia.
Defined.

End BinarySearch.

(* ===================================================================== *)
(** ** Theorems: device arrays                                             *)
(* ===================================================================== *)

Section DeviceArrays.
Import util.

Lemma wrap_small z : INT_MIN <= z <= INT_MAX -> wrap z = z.
Proof.
  unfold wrap, INT_MIN, INT_MAX. intros H.
  rewrite Z.mod_small; lia.
Qed.

Lemma St_length {T} (v : T) a i : length (St v a i) = length a.
Proof. unfold St. destruct (0 <=? i); [apply length_insert | reflexivity]. Qed.

Lemma Ld_St_eq {T} (dflt v : T) a i :
  0 <= i < Z.of_nat (length a) -> Ld dflt (St v a i) i = v.
Proof.
  intros [H0 H1]. unfold Ld, St.
  destruct (Z.leb_spec 0 i); [|lia].
  rewrite list_lookup_insert_eq; [reflexivity | lia].
Qed.

Lemma Ld_St_ne {T} (dflt v : T) a i j :
  i <> j -> Ld dflt (St v a i) j = Ld dflt a j.
Proof.
  intros Hne. unfold Ld, St.
  destruct (Z.leb_spec 0 j); [|reflexivity].
  destruct (Z.leb_spec 0 i); [|reflexivity].
  rewrite list_lookup_insert_ne; [reflexivity | lia].
Qed.

Lemma St_same (a : list Z) i :
  0 <= i < Z.of_nat (length a) -> St (Ld 0 a i) a i = a.
Proof.
  intros [H0 H1]. unfold Ld, St.
  destruct (Z.leb_spec 0 i); [|lia].
  destruct (lookup_lt_is_Some_2 a (Z.to_nat i)) as [x Hx]; [lia|].
  rewrite Hx. simpl. apply list_insert_id. exact Hx.
Qed.

Lemma Ld_replicate {T} (dflt x : T) n i :
  0 <= i < Z.of_nat n -> Ld dflt (replicate n x) i = x.
Proof.
  intros [H0 H1]. unfold Ld.
  destruct (Z.leb_spec 0 i); [|lia].
  rewrite lookup_replicate_2; [reflexivity | lia].
Qed.

Lemma MemsetKernel_all {T} (d : list T) v n :
  Z.of_nat (length d) <= n -> MemsetKernel d v n = replicate (length d) v.
Proof.
  intros Hn. unfold MemsetKernel.
  apply list_eq. intros i. rewrite list_lookup_imap.
  destruct (d !! i) as [x|] eqn:Hx; simpl.
  - pose proof (lookup_lt_Some _ _ _ Hx).
    destruct (Z.ltb_spec (Z.of_nat i) n); [|lia].
    rewrite lookup_replicate_2; [reflexivity | lia].
  - symmetry. apply lookup_replicate_None.
    apply lookup_ge_None in Hx. lia.
Qed.

Lemma MemsetKernel_length {T} (d : list T) v n :
  length (MemsetKernel d v n) = length d.
Proof. unfold MemsetKernel. apply length_imap. Qed.

End DeviceArrays.

(* ===================================================================== *)
(** ** Theorems: the error-propagation idiom                               *)
(* ===================================================================== *)

Section MonadLaws.
Context {S : Type}.
Implicit Types s : S.

(** A computation reports only failures as errors. *)
Definition sound {A} (m : M (S := S) A) : Prop :=
  forall s e s', m s = (inl e, s') -> failed e = true.

(** [P] holds after [m] whenever it held before, on every exit. *)
Definition preserves {A} (P : S -> Prop) (m : M (S := S) A) : Prop :=
  forall s r s', P s -> m s = (r, s') -> P s'.

Lemma sound_ret {A} (a : A) : sound (ret a).
Proof. intros s e s' H. discriminate. Qed.

Lemma sound_get : sound (get (S := S)).
Proof. intros s e s' H. discriminate. Qed.

Lemma sound_modify f : sound (modify (S := S) f).
Proof. intros s e s' H. discriminate. Qed.

Lemma sound_try c : sound (try (S := S) c).
Proof.
  intros s e s' H. unfold try in H. destruct (c s) as [e0 s0].
  destruct (failed e0) eqn:E; inversion H; subst; assumption.
Qed.

Lemma sound_bind {A B} (m : M A) (k : A -> M B) :
  sound m -> (forall a, sound (k a)) -> sound (bind m k).
Proof.
  intros Hm Hk s e s' H. unfold bind in H.
  destruct (m s) as [[e0|a] s0] eqn:E.
  - inversion H; subst. eapply Hm; eauto.
  - eapply Hk; eauto.
Qed.

Lemma run_success (m : M unit) s s' :
  sound m -> run m s = (cudaSuccess, s') -> m s = (inr tt, s').
Proof.
  intros Hm. unfold run. destruct (m s) as [[e|[]] s0] eqn:E; intros H.
  - inversion H; subst. apply Hm in E. discriminate.
  - inversion H; subst. reflexivity.
Qed.

Lemma bind_inr {A B} (m : M A) (k : A -> M B) s b s'' :
  bind m k s = (inr b, s'') ->
  exists a s', m s = (inr a, s') /\ k a s' = (inr b, s'').
Proof.
  unfold bind. destruct (m s) as [[e|a] s0]; intros H; [discriminate|].
  eauto.
Qed.

Lemma try_inr c s s' :
  try (S := S) c s = (inr tt, s') ->
  exists e, c s = (e, s') /\ failed e = false.
Proof.
  unfold try. destruct (c s) as [e s0]. destruct (failed e) eqn:E; intros H;
    inversion H; subst. eauto.
Qed.

Lemma preserves_ret {A} P (a : A) : preserves P (ret a).
Proof. intros s r s' HP H. inversion H; subst. assumption. Qed.

Lemma preserves_get P : preserves P (get (S := S)).
Proof. intros s r s' HP H. inversion H; subst. assumption. Qed.

Lemma preserves_modify (P : S -> Prop) f :
  (forall s, P s -> P (f s)) -> preserves P (modify f).
Proof. intros Hf s r s' HP H. inversion H; subst. auto. Qed.

Lemma preserves_try (P : S -> Prop) c :
  (forall s, P s -> P (snd (c s))) -> preserves P (try c).
Proof.
  intros Hc s r s' HP H. unfold try in H. specialize (Hc s HP).
  destruct (c s) as [e s0]. simpl in Hc.
  destruct (failed e); inversion H; subst; assumption.
Qed.

Lemma preserves_bind {A B} P (m : M A) (k : A -> M B) :
  preserves P m -> (forall a, preserves P (k a)) -> preserves P (bind m k).
Proof.
  intros Hm Hk s r s' HP H. unfold bind in H.
  destruct (m s) as [[e|a] s0] eqn:E.
  - inversion H; subst. eapply Hm; eauto.
  - eapply Hk; [|eassumption]. eapply Hm; eauto.
Qed.

Lemma preserves_run P (m : M unit) s :
  preserves P m -> P s -> P (snd (run m s)).
Proof.
  intros Hm HP. unfold run. destruct (m s) as [[e|u] s0] eqn:E; simpl;
    eapply Hm; eauto.
Qed.

End MonadLaws.

Create HintDb dev discriminated.
#[export] Hint Resolve sound_ret sound_get sound_modify sound_try sound_bind : dev.
#[export] Hint Resolve preserves_ret preserves_get preserves_bind : dev.

Lemma call_mallocs rt : mallocs (snd (call rt)) = mallocs rt.
Proof. unfold call. destruct (pending rt); reflexivity. Qed.

(* ===================================================================== *)
(** ** Theorems: breadth-first search                                      *)
(* ===================================================================== *)

Module bfs_proof.
Import util oprtr bfs.

(** The configuration the claim is about: labels claimed by [atomicMin],
    predecessors recorded. *)
Definition cfg0 : Config := mkConfig true false.

(** The label of a vertex no one has claimed. *)
Definition INF : Z := MaxValue - 1.

(** Graphs whose adjacency lists name vertices of the graph. *)
Definition well_formed (g : Csr) : Prop :=
  Forall (fun d => 0 <= d < nodes g) (column_indices g).

Definition edge (g : Csr) (u v : Z) : Prop :=
  0 <= u < nodes g /\ In v (neighbors g u).

(** [path g s j v]: a walk of [j] edges leads from [s] to [v]. *)
Inductive path (g : Csr) (s : Z) : nat -> Z -> Prop :=
| path_here : 0 <= s < nodes g -> path g s O s
| path_step j u v : path g s j u -> edge g u v -> path g s (S j) v.

(** [j] is the length of a shortest path from [s] to [v]. *)
Definition shortest (g : Csr) (s : Z) (j : nat) (v : Z) : Prop :=
  path g s j v /\ forall j', path g s j' v -> (j <= j')%nat.

(** *** The label array under a level of edge relaxations *)

(** [CondEdge] on the label array alone. *)
Definition relax (L : list Z) (s d : Z) : bool * list Z :=
  let new_label := wrap (Ld 0 L s + 1) in
  let old_label := Ld 0 L d in
  (new_label <? old_label, St (Z.min old_label new_label) L d).

Fixpoint lrun (es : list (Z * Z)) (L : list Z) : list Z * list Z :=
  match es with
  | [] => ([], L)
  | (s, d) :: rest =>
      let (ok, L1) := relax L s d in
      let (out, L2) := lrun rest L1 in
      (if ok then d :: out else out, L2)
  end.

Definition edges_of (g : Csr) (fr : list Z) : list (Z * Z) :=
  flat_map (fun s => map (pair s) (neighbors g s)) fr.

Fixpoint count_inf (L : list Z) : nat :=
  match L with
  | [] => O
  | x :: r => if Z.eq_dec x INF then S (count_inf r) else count_inf r
  end.

Lemma lrun_app a b L :
  lrun (a ++ b) L =
  let (o1, L1) := lrun a L in let (o2, L2) := lrun b L1 in (o1 ++ o2, L2).
Proof.
  revert L. induction a as [|[s d] a IH]; intros L; cbn [app lrun].
  - destruct (lrun b L); reflexivity.
  - destruct (relax L s d) as [ok L1]. rewrite IH.
    destruct (lrun a L1) as [o1 L2]. destruct (lrun b L2) as [o2 L3].
    destruct ok; reflexivity.
Qed.

Lemma count_inf_replicate n : count_inf (replicate n INF) = n.
Proof.
  induction n; simpl; [reflexivity|].
  destruct (Z.eq_dec INF INF); congruence.
Qed.

Lemma count_inf_insert L i v :
  L !! i = Some INF -> v <> INF ->
  S (count_inf (<[i:=v]> L)) = count_inf L.
Proof.
  revert i. induction L as [|x L IH]; intros i Hi Hv; [discriminate|].
  destruct i as [|i]; simpl in *.
  - inversion Hi; subst x.
    destruct (Z.eq_dec v INF); [contradiction|].
    destruct (Z.eq_dec INF INF); congruence.
  - destruct (Z.eq_dec x INF); rewrite <- (IH i Hi Hv); reflexivity.
Qed.

Lemma count_inf_St L i v :
  Ld 0 L i = INF -> v <> INF -> S (count_inf (St v L i)) = count_inf L.
Proof.
  unfold Ld, St. intros H Hv.
  destruct (Z.leb_spec 0 i); [|discriminate].
  apply count_inf_insert; [|assumption].
  destruct (L !! Z.to_nat i); simpl in H; [congruence | discriminate].
Qed.

Lemma Ld_INF_in_range L v : Ld 0 L v = INF -> 0 <= v < Z.of_nat (length L).
Proof.
  unfold Ld. destruct (Z.leb_spec 0 v); [|discriminate].
  destruct (L !! Z.to_nat v) eqn:E; simpl; [|discriminate].
  intros _. apply lookup_lt_Some in E. lia.
Qed.

(** One level: every source of [es] carries label [k]; the run claims
    exactly the unclaimed destinations and labels them [k + 1]. *)
Lemma lrun_level k es : forall L out L',
  0 <= k -> k + 1 < INF ->
  (forall s d, In (s, d) es ->
     0 <= s < Z.of_nat (length L) /\ 0 <= d < Z.of_nat (length L) /\ Ld 0 L s = k) ->
  (forall v, 0 <= v < Z.of_nat (length L) -> Ld 0 L v = INF \/ Ld 0 L v <= k + 1) ->
  lrun es L = (out, L') ->
  length L' = length L /\
  (forall v, Ld 0 L v = INF -> In v (map snd es) -> Ld 0 L' v = k + 1) /\
  (forall v, ~ (Ld 0 L v = INF /\ In v (map snd es)) -> Ld 0 L' v = Ld 0 L v) /\
  (forall v, In v out <-> (Ld 0 L v = INF /\ In v (map snd es))) /\
  (length out + count_inf L' = count_inf L)%nat.
Proof.
  induction es as [|[s d] es IH]; intros L out L' Hk Hk1 Hes Hlab Hrun;
    cbn [lrun] in Hrun.
  - inversion Hrun; subst. simpl. repeat split; try tauto; try lia.
  - destruct (Hes s d (or_introl eq_refl)) as (Hs & Hd & Hsk).
    unfold relax in Hrun. rewrite Hsk in Hrun.
    assert (Hw : wrap (k + 1) = k + 1)
      by (apply wrap_small; unfold INF, MaxValue, INT_MIN, INT_MAX in *; lia).
    rewrite Hw in Hrun.
    destruct (lrun es (St (Z.min (Ld 0 L d) (k + 1)) L d)) as [o L2] eqn:Hrec.
    inversion Hrun; subst out L'; clear Hrun.
    destruct (Hlab d Hd) as [Hinf | Hle].
    + (* d is unclaimed: the edge claims it *)
      rewrite Hinf in *.
      assert (Hlt : (k + 1 <? INF) = true) by (apply Z.ltb_lt; lia).
      rewrite Hlt. rewrite Z.min_r in Hrec by lia.
      assert (Hsd : forall s' d', In (s', d') es -> s' <> d).
      { intros s' d' Hin ->. destruct (Hes d d' (or_intror Hin)) as (_ & _ & E). lia. }
      assert (P1 : forall s' d', In (s', d') es ->
                0 <= s' < Z.of_nat (length (St (k + 1) L d)) /\
                0 <= d' < Z.of_nat (length (St (k + 1) L d)) /\
                Ld 0 (St (k + 1) L d) s' = k).
      { intros s' d' Hin. rewrite St_length.
        destruct (Hes s' d' (or_intror Hin)) as (A & B & C).
        repeat split; try lia. rewrite Ld_St_ne; [assumption|].
        intros E; symmetry in E; revert E. eapply Hsd; eauto. }
      assert (P2 : forall v, 0 <= v < Z.of_nat (length (St (k + 1) L d)) ->
                Ld 0 (St (k + 1) L d) v = INF \/ Ld 0 (St (k + 1) L d) v <= k + 1).
      { intros v Hv. rewrite St_length in Hv.
        destruct (Z.eq_dec v d) as [->|Hne].
        - right. rewrite Ld_St_eq; lia.
        - rewrite Ld_St_ne by congruence. auto. }
      destruct (IH _ _ _ Hk Hk1 P1 P2 Hrec) as (Hlen & Hnew & Hold & Hout & Hcnt).
      rewrite St_length in Hlen.
      assert (Hd2 : Ld 0 L2 d = k + 1).
      { rewrite Hold; [apply Ld_St_eq; lia|].
        intros [E _]. rewrite Ld_St_eq in E; lia. }
      split; [assumption|]. split; [|split; [|split]].
      * intros v Hv Hin. simpl in Hin.
        destruct (Z.eq_dec v d) as [->|Hne]; [assumption|].
        destruct Hin as [E|Hin]; [congruence|].
        apply Hnew; [rewrite Ld_St_ne by congruence; assumption | assumption].
      * intros v Hv.
        destruct (Z.eq_dec v d) as [->|Hne].
        { exfalso. apply Hv. simpl. auto. }
        rewrite Hold; [apply Ld_St_ne; congruence|].
        rewrite Ld_St_ne by congruence. intros [A B]. apply Hv. simpl. auto.
      * intros v. simpl. rewrite Hout. split.
        { intros [<-|[A B]]; [auto|].
          destruct (Z.eq_dec v d) as [->|Hne]; [auto|].
          rewrite Ld_St_ne in A by congruence. auto. }
        { intros [A [B|B]]; [auto|].
          destruct (Z.eq_dec d v) as [E|Hne]; [auto|].
          right. rewrite Ld_St_ne by congruence. auto. }
      * simpl. rewrite <- (count_inf_St L d (k + 1)); [lia | assumption | lia].
    + (* d already carries a label: nothing changes *)
      assert (Hnlt : (k + 1 <? Ld 0 L d) = false) by (apply Z.ltb_ge; lia).
      rewrite Hnlt. rewrite Z.min_l in Hrec by lia.
      rewrite St_same in Hrec by assumption.
      assert (P1 : forall s' d', In (s', d') es ->
                0 <= s' < Z.of_nat (length L) /\
                0 <= d' < Z.of_nat (length L) /\ Ld 0 L s' = k).
      { intros s' d' Hin. apply Hes. right. assumption. }
      destruct (IH _ _ _ Hk Hk1 P1 Hlab Hrec) as (Hlen & Hnew & Hold & Hout & Hcnt).
      split; [assumption|]. split; [|split; [|split]].
      * intros v Hv Hin. simpl in Hin. destruct Hin as [E|Hin].
        { subst v. unfold INF, MaxValue, INT_MAX in *. lia. }
        auto.
      * intros v Hv. apply Hold. intros [A B]. apply Hv. simpl. auto.
      * intros v. rewrite Hout. simpl. split.
        { intros [A B]. auto. }
        { intros [A [B|B]]; [|auto].
          subst v. unfold INF, MaxValue, INT_MAX in *. lia. }
      * assumption.
Qed.

End bfs_proof.

(* ===================================================================== *)
(** ** Theorems: BFSProblem, Reset and Extract                             *)
(* ===================================================================== *)

Section BFSProblemFacts.
Import util oprtr bfs.

(** The value [Reset] fills [labels] with. *)
Definition sentinel (cfg : Config) : Z :=
  if ENABLE_IDEMPOTENCE cfg then -1 else MaxValue - 1.

Lemma rt_call_ok c p p' :
  try (rt_call c) p = (inr tt, p') -> exists r, p' = set_rt r p.
Proof.
  intros H. apply try_inr in H as (e & H & _). unfold rt_call in H.
  destruct (c (rt p)) as [e' r]. inversion H. eauto.
Qed.

Lemma allocate_ok getf setf size p p' :
  allocate getf setf size p = (inr tt, p') ->
  exists r,
    p' = set_rt r (set_slice
           (setf (mkArray1D (h_pointer (getf (data_slice p)))
                    (Some (replicate (Z.to_nat size) 0))) (data_slice p)) p).
Proof.
  intros H. unfold allocate in H. apply try_inr in H as (e & H & Hf).
  unfold Allocate_DEVICE, cudaMalloc in H.
  destruct (call (rt p)) as [e' r]. destruct (failed e') eqn:E.
  - inversion H; subst. congruence.
  - inversion H; subst. eauto.
Qed.

Lemma sound_allocate getf setf size : sound (allocate getf setf size).
Proof. apply sound_try. Qed.

Lemma sound_launch getf setf k : sound (launch getf setf k).
Proof. apply sound_modify. Qed.

Lemma sound_when b m : sound m -> sound (when b m).
Proof. destruct b; [auto | intros _; apply sound_ret]. Qed.

Lemma sound_move getf setf : sound (move_to_host getf setf).
Proof. apply sound_try. Qed.

Hint Resolve sound_allocate sound_launch sound_when sound_move : dev.

Lemma sound_DataSlice_Reset cfg : sound (DataSlice_Reset cfg).
Proof. unfold DataSlice_Reset. auto 20 with dev. Qed.

(** Take a successful run apart, call by call. *)
Ltac minv :=
  repeat match goal with
         | H : bind _ _ _ = (inr _, _) |- _ =>
             apply bind_inr in H as (? & ? & ? & H)
         | H : get _ = (inr _, _) |- _ => inversion H; subst; clear H
         | H : ret _ _ = (inr _, _) |- _ => inversion H; subst; clear H
         | H : modify _ _ = (inr _, _) |- _ => inversion H; subst; clear H
         | H : launch _ _ _ _ = (inr _, _) |- _ => inversion H; subst; clear H
         | H : try (rt_call _) _ = (inr _, _) |- _ =>
             let u := fresh "u" in
             match type of H with _ = (inr ?x, _) => destruct x end;
             apply rt_call_ok in H as (? & ->)
         | H : allocate _ _ _ _ = (inr _, _) |- _ =>
             match type of H with _ = (inr ?x, _) => destruct x end;
             apply allocate_ok in H as (? & ->)
         end.

(** What a successful [Reset] leaves on the device. *)
Lemma Reset_device cfg p p' :
  0 <= gs_nodes p ->
  Reset cfg p = (cudaSuccess, p') ->
  gs_nodes p' = gs_nodes p /\
  d_pointer (labels (data_slice p')) =
    Some (replicate (Z.to_nat (gs_nodes p)) (sentinel cfg)) /\
  (MARK_PREDECESSORS cfg = true ->
   d_pointer (preds (data_slice p')) =
     Some (replicate (Z.to_nat (gs_nodes p)) (-2))) /\
  d_pointer (original_vertex (data_slice p')) = gs_original_vertex p.
Proof.
  intros Hn H.
  assert (Hm : forall v, MemsetKernel (replicate (Z.to_nat (gs_nodes p)) 0) v (gs_nodes p)
                         = replicate (Z.to_nat (gs_nodes p)) v).
  { intros v. rewrite MemsetKernel_all by (rewrite length_replicate; lia).
    rewrite length_replicate. reflexivity. }
  unfold Reset in H. apply run_success in H;
    [|pose proof (sound_DataSlice_Reset cfg); auto 20 with dev].
  unfold DataSlice_Reset in H.
  destruct cfg as [mp idem]. unfold sentinel. cbn [MARK_PREDECESSORS ENABLE_IDEMPOTENCE] in *.
  destruct mp, idem; cbn [when] in H; minv; cbn;
    rewrite ?Hm; repeat split; try reflexivity; intros; try discriminate.
Qed.

End BFSProblemFacts.

(* ===================================================================== *)
(** ** Theorems: the BFS run                                               *)
(* ===================================================================== *)

Section BFSRun.
Import util oprtr bfs bfs_proof.

(** *** The functor acts on the label array as [relax] *)

Lemma expand_labels nbrs : forall s e_in e ds L out ds',
  d_pointer (labels ds) = Some L ->
  expand (BFSFunctor cfg0) s e_in e nbrs ds = (out, ds') ->
  exists L', lrun (map (pair s) nbrs) L = (out, L') /\
             d_pointer (labels ds') = Some L'.
Proof.
  induction nbrs as [|d nbrs IH]; intros s e_in e ds L out ds' HL H.
  - inversion H; subst. exists L. split; [reflexivity | assumption].
  - cbn [expand map lrun] in *.
    cbn [oprtr.CondEdge oprtr.ApplyEdge BFSFunctor] in H.
    unfold bfs.CondEdge, bfs.ApplyEdge in H.
    cbn [ENABLE_IDEMPOTENCE MARK_PREDECESSORS cfg0] in H.
    unfold atomicMin, dev in H. rewrite HL in H.
    change (default [] (Some L)) with L in H.
    unfold relax.
    set (nl := wrap (Ld 0 L s + 1)) in *.
    set (L1 := St (Z.min (Ld 0 L d) nl) L d) in *.
    destruct (nl <? Ld 0 L d).
    + match type of H with
      | context [expand _ s e_in (e + 1) nbrs ?ds2] =>
          destruct (expand (BFSFunctor cfg0) s e_in (e + 1) nbrs ds2)
            as [o ds3] eqn:E;
          apply (IH _ _ _ _ L1) in E; [|cbn; rewrite HL; reflexivity]
      end.
      destruct E as (L' & -> & HL'). inversion H; subst. eauto.
    + match type of H with
      | expand _ s e_in (e + 1) nbrs ?ds2 = _ =>
          apply (IH _ _ _ _ L1) in H; [|cbn; rewrite HL; reflexivity]
      end.
      destruct H as (L' & -> & HL'). eauto.
Qed.

Lemma advance_labels g fr : forall e_in ds L out ds',
  d_pointer (labels ds) = Some L ->
  advance_from (BFSFunctor cfg0) g e_in fr ds = (out, ds') ->
  exists L', lrun (edges_of g fr) L = (out, L') /\
             d_pointer (labels ds') = Some L'.
Proof.
  induction fr as [|s fr IH]; intros e_in ds L out ds' HL H.
  - inversion H; subst. exists L. split; [reflexivity | assumption].
  - cbn [advance_from] in H. unfold edges_of. cbn [flat_map].
    destruct (expand (BFSFunctor cfg0) s e_in (Ld 0 (row_offsets g) s) (neighbors g s) ds)
      as [o1 ds1] eqn:E1.
    destruct (advance_from (BFSFunctor cfg0) g (e_in + 1) fr ds1) as [o2 ds2] eqn:E2.
    inversion H; subst.
    destruct (expand_labels _ _ _ _ _ _ _ _ HL E1) as (L1 & R1 & HL1).
    destruct (IH _ _ _ _ _ HL1 E2) as (L2 & R2 & HL2).
    exists L2. split; [|assumption].
    rewrite lrun_app, R1. fold (edges_of g fr). rewrite R2. reflexivity.
Qed.

Lemma filter_keeps v fr : forall nid ds,
  Forall (fun x => x <> -1) fr ->
  filter_from (BFSFunctor cfg0) nid v fr ds = (fr, ds).
Proof.
  induction fr as [|x fr IH]; intros nid ds Hfr; [reflexivity|].
  inversion Hfr; subst. cbn [filter_from oprtr.CondFilter oprtr.ApplyFilter BFSFunctor].
  unfold bfs.CondFilter, bfs.ApplyFilter. cbn.
  destruct (Z.eqb_spec x (-1)); [contradiction|]. cbn.
  rewrite IH by assumption. reflexivity.
Qed.

(** *** Paths *)

Lemma neighbors_in_graph g u v :
  In v (neighbors g u) -> In v (column_indices g).
Proof.
  unfold neighbors. rewrite <- !list_elem_of_In.
  intros H. apply elem_of_take in H as (i & H & _).
  rewrite lookup_drop in H. eapply list_elem_of_lookup_2; eauto.
Qed.

Lemma edge_in_range g u v :
  well_formed g -> edge g u v -> 0 <= v < nodes g.
Proof.
  intros Hg [_ H]. apply neighbors_in_graph in H.
  unfold well_formed in Hg. rewrite Forall_forall in Hg.
  apply Hg. apply list_elem_of_In. assumption.
Qed.

Lemma path_in_range g s j v :
  well_formed g -> path g s j v -> 0 <= v < nodes g.
Proof.
  intros Hg H. destruct H; [assumption|]. eapply edge_in_range; eauto.
Qed.

Lemma in_edges_of g fr s d :
  In (s, d) (edges_of g fr) <-> In s fr /\ In d (neighbors g s).
Proof.
  unfold edges_of. rewrite in_flat_map. split.
  - intros (x & Hx & H). apply in_map_iff in H as (y & E & Hy).
    inversion E; subst. auto.
  - intros [A B]. exists s. split; [assumption|].
    apply in_map_iff. eauto.
Qed.

Lemma in_dsts_edges_of g fr d :
  In d (map snd (edges_of g fr)) <-> exists s, In s fr /\ In d (neighbors g s).
Proof.
  rewrite in_map_iff. split.
  - intros ([s d'] & E & H). cbn in E. subst d'.
    apply in_edges_of in H. eauto.
  - intros (s & A & B). exists (s, d). split; [reflexivity|].
    apply in_edges_of. auto.
Qed.

End BFSRun.

Section BFSLevels.
Import util oprtr bfs bfs_proof.

Variable g : Csr.
Variable src : Z.
Hypothesis Hg : well_formed g.
Hypothesis Hsrc : 0 <= src < nodes g.
Hypothesis Hsize : nodes g < INF.

(** The state between two iterations: [k] iterations done, label array
    [L], frontier [F]. *)
Record Inv (k : Z) (L F : list Z) : Prop := mkInv {
  inv_k : 0 <= k < INF;
  inv_len : length L = Z.to_nat (nodes g);
  inv_range : forall v, 0 <= v < nodes g -> Ld 0 L v = INF \/ 0 <= Ld 0 L v <= k;
  inv_sound : forall v, 0 <= v < nodes g -> Ld 0 L v <> INF ->
                        path g src (Z.to_nat (Ld 0 L v)) v;
  inv_complete : forall v j, path g src j v -> Z.of_nat j <= k ->
                             0 <= Ld 0 L v <= Z.of_nat j;
  inv_frontier : forall v, In v F <-> (0 <= v < nodes g /\ Ld 0 L v = k);
  inv_count : F <> [] -> k + Z.of_nat (count_inf L) <= nodes g - 1
}.

Lemma INF_pos : 0 < INF.
Proof. reflexivity. Qed.

Lemma Inv_seed :
  Inv 0 (St 0 (replicate (Z.to_nat (nodes g)) INF) src) [src].
Proof.
  pose proof INF_pos as HI.
  assert (Hl : Z.of_nat (length (replicate (Z.to_nat (nodes g)) INF)) = nodes g)
    by (rewrite length_replicate; lia).
  assert (Hv : forall v, 0 <= v < nodes g -> v <> src ->
             Ld 0 (St 0 (replicate (Z.to_nat (nodes g)) INF) src) v = INF).
  { intros v Hv Hne. rewrite Ld_St_ne by congruence.
    apply Ld_replicate. lia. }
  assert (Hs : Ld 0 (St 0 (replicate (Z.to_nat (nodes g)) INF) src) src = 0)
    by (apply Ld_St_eq; lia).
  constructor.
  - lia.
  - rewrite St_length, length_replicate. reflexivity.
  - intros v Hin. destruct (Z.eq_dec v src) as [->|Hne]; [right; lia | left; auto].
  - intros v Hin Hne. destruct (Z.eq_dec v src) as [->|Hne'].
    + rewrite Hs. apply path_here. assumption.
    + exfalso. auto.
  - intros v j Hp Hj. destruct Hp; [rewrite Hs; lia | lia].
  - intros v. cbn. split.
    + intros [<-|[]]. auto.
    + intros [Hin E]. destruct (Z.eq_dec v src) as [->|Hne]; [auto|].
      rewrite Hv in E by assumption. lia.
  - intros _.
    assert (S (count_inf (St 0 (replicate (Z.to_nat (nodes g)) INF) src))
            = Z.to_nat (nodes g)).
    { rewrite (count_inf_St _ src 0);
        [apply count_inf_replicate | apply Ld_replicate; lia | lia]. }
    lia.
Qed.

Lemma claimed_dec (L : list Z) v ds :
  (Ld 0 L v = INF /\ In v ds) \/ ~ (Ld 0 L v = INF /\ In v ds).
Proof.
  destruct (Z.eq_dec (Ld 0 L v) INF); [|tauto].
  destruct (in_dec Z.eq_dec v ds); tauto.
Qed.

(** One level of relaxations takes the invariant from [k] to [k + 1]. *)
Lemma Inv_step k L F out L' :
  Inv k L F -> F <> [] ->
  lrun (edges_of g F) L = (out, L') ->
  Inv (k + 1) L' out.
Proof.
  intros [Hk Hlen Hrange Hsound Hcomplete Hfront Hcount] HF Hrun.
  specialize (Hcount HF).
  assert (Hk1 : k + 1 < INF) by lia.
  assert (HlenZ : Z.of_nat (length L) = nodes g) by lia.
  assert (Hedges : forall s d, In (s, d) (edges_of g F) ->
            0 <= s < Z.of_nat (length L) /\ 0 <= d < Z.of_nat (length L) /\ Ld 0 L s = k).
  { intros s d Hin. apply in_edges_of in Hin as [Hs Hd].
    apply Hfront in Hs as [Hs Hl]. rewrite HlenZ.
    assert (0 <= d < nodes g)
      by (apply (edge_in_range g s d Hg); split; assumption).
    repeat split; try lia; assumption. }
  assert (Hlab : forall v, 0 <= v < Z.of_nat (length L) ->
            Ld 0 L v = INF \/ Ld 0 L v <= k + 1).
  { intros v Hv. rewrite HlenZ in Hv. destruct (Hrange v Hv); [auto | right; lia]. }
  destruct (lrun_level k _ _ _ _ (proj1 Hk) Hk1 Hedges Hlab Hrun)
    as (Hlen' & Hnew & Hold & Hout & Hcnt).
  assert (Hdst : forall v, In v (map snd (edges_of g F)) ->
            exists s, 0 <= s < nodes g /\ Ld 0 L s = k /\ edge g s v).
  { intros v Hin. apply in_dsts_edges_of in Hin as (s & Hs & Hd).
    apply Hfront in Hs as [Hs Hl]. exists s. repeat split; try lia; assumption. }
  constructor.
  - lia.
  - congruence.
  - intros v Hv.
    destruct (claimed_dec L v (map snd (edges_of g F))) as [[A B]|N].
    + right. rewrite (Hnew v A B). lia.
    + rewrite (Hold v N). destruct (Hrange v Hv); [auto | right; lia].
  - intros v Hv Hne.
    destruct (claimed_dec L v (map snd (edges_of g F))) as [[A B]|N].
    + rewrite (Hnew v A B).
      destruct (Hdst v B) as (s & Hs & Hl & He).
      replace (Z.to_nat (k + 1)) with (S (Z.to_nat k)) by lia.
      apply path_step with s; [|assumption].
      rewrite <- Hl. apply Hsound; [assumption | lia].
    + rewrite (Hold v N) in *. auto.
  - intros v j Hp Hj.
    assert (Hv : 0 <= v < nodes g) by (eapply path_in_range; eauto).
    destruct (Z_le_dec (Z.of_nat j) k) as [Hjk|Hjk].
    { destruct (Hcomplete v j Hp Hjk) as [A B].
      rewrite Hold; [lia | intros [E _]; lia]. }
    destruct Hp as [|j u v Hp He]; [lia|].
    assert (Hjk' : Z.of_nat j = k) by lia.
    destruct (Hcomplete u j Hp ltac:(lia)) as [A B].
    destruct (claimed_dec L v (map snd (edges_of g F))) as [[C D]|N].
    { rewrite (Hnew v C D). lia. }
    rewrite (Hold v N).
    destruct (Z.eq_dec (Ld 0 L u) k) as [Hu|Hu].
    + (* u is in the frontier: v is a destination, hence already labelled *)
      destruct (Hrange v Hv) as [E|E]; [|lia].
      exfalso. apply N. split; [assumption|].
      apply in_dsts_edges_of. exists u. split; [|apply He].
      apply Hfront. split; [apply He | assumption].
    + (* u was labelled earlier: so was v *)
      assert (Hpu : path g src (Z.to_nat (Ld 0 L u)) u)
        by (apply Hsound; [apply He | lia]).
      pose proof (path_step _ _ _ _ _ Hpu He) as Hpv.
      destruct (Hcomplete v _ Hpv ltac:(lia)). lia.
  - intros v. rewrite Hout. split.
    + intros [A B]. destruct (Hdst v B) as (s & Hs & Hl & He).
      split; [eapply edge_in_range; eauto | auto].
    + intros [Hv E].
      destruct (claimed_dec L v (map snd (edges_of g F))) as [C|N]; [assumption|].
      rewrite (Hold v N) in E. destruct (Hrange v Hv); lia.
  - intros Hne. destruct out; [congruence|]. cbn [length] in Hcnt. lia.
Qed.

(** With an empty frontier the labels are final: every walk from the
    source ends at a vertex labelled no more than its length. *)
Lemma Inv_closed k L :
  Inv k L [] ->
  forall j v, path g src j v -> 0 <= Ld 0 L v <= Z.of_nat j /\ Ld 0 L v < k.
Proof.
  intros [Hk Hlen Hrange Hsound Hcomplete Hfront Hcount] j v Hp.
  assert (Hnk : forall v, 0 <= v < nodes g -> Ld 0 L v <> k).
  { intros w Hw E. apply (proj2 (Hfront w)). auto. }
  induction Hp as [Hs|j u v Hp IH He].
  - destruct (Hcomplete src O (path_here g src Hs) ltac:(lia)).
    specialize (Hnk src Hs). lia.
  - assert (Hv : 0 <= v < nodes g) by (eapply edge_in_range; eauto).
    assert (Hpu : path g src (Z.to_nat (Ld 0 L u)) u)
      by (apply Hsound; [apply He | lia]).
    pose proof (path_step _ _ _ _ _ Hpu He) as Hpv.
    destruct (Hcomplete v _ Hpv ltac:(lia)).
    specialize (Hnk v Hv). lia.
Qed.

Lemma Inv_shortest k L j v :
  Inv k L [] -> shortest g src j v -> Ld 0 L v = Z.of_nat j.
Proof.
  intros HI [Hp Hmin].
  destruct (Inv_closed k L HI j v Hp) as [[A B] C].
  destruct HI as [Hk Hlen Hrange Hsound Hcomplete Hfront Hcount].
  assert (Hv : 0 <= v < nodes g) by (eapply path_in_range; eauto).
  specialize (Hmin _ (Hsound v Hv ltac:(lia))). lia.
Qed.

Lemma Inv_unreachable k L v :
  Inv k L [] -> 0 <= v < nodes g -> (forall j, ~ path g src j v) ->
  Ld 0 L v = INF.
Proof.
  intros [Hk Hlen Hrange Hsound Hcomplete Hfront Hcount] Hv Hno.
  destruct (Z.eq_dec (Ld 0 L v) INF) as [E|E]; [assumption|].
  exfalso. eapply Hno. apply Hsound; eassumption.
Qed.

End BFSLevels.


Section BFSEnact.
Import util oprtr bfs bfs_proof.

Variable g : Csr.
Variable src : Z.
Hypothesis Hg : well_formed g.
Hypothesis Hsrc : 0 <= src < nodes g.
Hypothesis Hsize : nodes g < INF.

(** One iteration of the enactor is one level of relaxations. *)
Lemma iterate_level st L :
  d_pointer (labels (slice st)) = Some L ->
  Inv g src (iteration st) L (frontier st) ->
  frontier st <> [] ->
  exists L',
    d_pointer (labels (slice (iterate cfg0 g st))) = Some L' /\
    iteration (iterate cfg0 g st) = iteration st + 1 /\
    Inv g src (iteration st + 1) L' (frontier (iterate cfg0 g st)).
Proof.
  intros HL HI HF. unfold iterate, Advance, Filter.
  destruct (advance_from (BFSFunctor cfg0) g 0 (frontier st) (slice st))
    as [q1 ds1] eqn:E.
  destruct (advance_labels _ _ _ _ _ _ _ HL E) as (L' & Hrun & HL').
  assert (HI' : Inv g src (iteration st + 1) L' q1)
    by (eapply Inv_step; eauto).
  rewrite filter_keeps.
  - cbn. eauto.
  - apply Forall_forall. intros x Hx. apply list_elem_of_In in Hx.
    apply (inv_frontier _ _ _ _ _ HI') in Hx. lia.
Qed.

(** The loop ends, with an empty frontier, within [nodes] iterations. *)
Lemma iterations_end max_iteration fuel : forall st L,
  d_pointer (labels (slice st)) = Some L ->
  Inv g src (iteration st) L (frontier st) ->
  frontier st <> [] ->
  nodes g <= iteration st + 1 + Z.of_nat fuel ->
  nodes g <= max_iteration ->
  exists st' L',
    iterations fuel cfg0 g max_iteration st = Some st' /\
    frontier st' = [] /\
    d_pointer (labels (slice st')) = Some L' /\
    Inv g src (iteration st') L' [].
Proof.
  induction fuel as [|fuel IH]; intros st L HL HI HF Hfuel Hmax;
    cbn [iterations];
    destruct (iterate_level st L HL HI HF) as (L' & HL' & Hit & HI');
    unfold done;
    destruct (frontier (iterate cfg0 g st)) as [|x q] eqn:Efr.
  - cbn. exists (iterate cfg0 g st), L'. rewrite Efr, Hit. auto.
  - exfalso. pose proof (inv_count _ _ _ _ _ HI' ltac:(discriminate)). lia.
  - cbn. exists (iterate cfg0 g st), L'. rewrite Efr, Hit. auto.
  - pose proof (inv_count _ _ _ _ _ HI' ltac:(discriminate)) as Hc.
    replace (Z.of_nat (length (x :: q)) =? 0) with false
      by (symmetry; apply Z.eqb_neq; cbn [length]; lia).
    replace (max_iteration <=? iteration (iterate cfg0 g st)) with false
      by (symmetry; apply Z.leb_gt; lia).
    cbn [orb].
    apply (IH _ L'); try assumption.
    + rewrite Hit, Efr. assumption.
    + rewrite Efr. discriminate.
    + lia.
Qed.

End BFSEnact.

Section BFSClaim.
Import util oprtr bfs bfs_proof.

(** The graph of the scenario: nodes {0,1,2,3}, edges (0,1), (1,2), (2,3). *)
Definition path4 : Csr := mkCsr 4 3 [0; 1; 2; 3; 3] [1; 2; 3].

(** C1: after [Reset], a BFS run from [src] driven by [BFSFunctor] (labels
    claimed with [atomicMin], predecessors marked) stops with an empty
    frontier; every vertex reachable from [src] then carries the length of
    a shortest path from [src] as its label, and every other vertex still
    carries the value [Reset] wrote.  On the path graph 0 -> 1 -> 2 -> 3
    with source 0 the extracted labels are [0,1,2,3] and the extracted
    predecessors [-1,0,1,2]. *)
Theorem bfs_labels_are_shortest_paths :
  (forall (g : Csr) (src max_iteration : Z) (p p' : BFSProblem),
      well_formed g ->
      0 <= src < nodes g ->
      nodes g < MaxValue - 1 ->
      nodes g <= max_iteration ->
      gs_nodes p = nodes g ->
      Reset cfg0 p = (cudaSuccess, p') ->
      exists st,
        Enact cfg0 g src max_iteration (data_slice p') = Some st /\
        frontier st = [] /\
        (forall v j, shortest g src j v ->
                     Ld 0 (dev (labels (slice st))) v = Z.of_nat j) /\
        (forall v, 0 <= v < nodes g -> (forall j, ~ path g src j v) ->
                   Ld 0 (dev (labels (slice st))) v = MaxValue - 1)) /\
  RunBFS cfg0 path4 0 4 = Some (cudaSuccess, [0; 1; 2; 3], [-1; 0; 1; 2]).
Proof.
  split.
  - intros g src max_iteration p p' Hg Hsrc Hsize Hmax Hn HR.
    destruct (Reset_device cfg0 p p' ltac:(lia) HR) as (_ & HL & _ & _).
    rewrite Hn in HL. change (sentinel cfg0) with INF in HL.
    assert (HI : Inv g src 0 (St 0 (replicate (Z.to_nat (nodes g)) INF) src) [src])
      by (apply Inv_seed; assumption).
    unfold Enact.
    assert (Hend : exists st L',
               iterations (Z.to_nat max_iteration) cfg0 g max_iteration
                 (seed cfg0 src (data_slice p')) = Some st /\
               frontier st = [] /\
               d_pointer (labels (slice st)) = Some L' /\
               Inv g src (iteration st) L' []).
    { eapply iterations_end with
        (L := St 0 (replicate (Z.to_nat (nodes g)) INF) src).
      - assumption.
      - assumption.
      - assumption.
      - cbn. rewrite HL. reflexivity.
      - exact HI.
      - discriminate.
      - cbn. lia.
      - assumption. }
    destruct Hend as (st & L' & Hrun & Hfr & HL' & HI').
    exists st. split; [assumption|]. split; [assumption|].
    unfold dev. rewrite HL'. change (default [] (Some L')) with L'. split.
    + intros v j Hs. eapply Inv_shortest; eauto.
    + intros v Hv Hno. eapply Inv_unreachable; eauto.
  - vm_compute. reflexivity.
Qed.

(** The theorem at the scenario's graph. *)
Lemma bfs_labels_are_shortest_paths_witness :
  exists st,
    Enact cfg0 path4 0 4
      (data_slice (snd (Reset cfg0 (snd (Init cfg0 (mkBFSProblem healthy 4 None DataSlice_empty)))))) = Some st /\
    frontier st = [] /\
    (forall v j, shortest path4 0 j v ->
                 Ld 0 (dev (labels (slice st))) v = Z.of_nat j) /\
    (forall v, 0 <= v < nodes path4 -> (forall j, ~ path path4 0 j v) ->
               Ld 0 (dev (labels (slice st))) v = MaxValue - 1).
Proof.
  apply (proj1 bfs_labels_are_shortest_paths path4 0 4
           (snd (Init cfg0 (mkBFSProblem healthy 4 None DataSlice_empty)))).
  - unfold well_formed, path4. cbn. repeat constructor; lia.
  - cbn. lia.
  - cbn. reflexivity.
  - cbn. lia.
  - reflexivity.
  - vm_compute. reflexivity.
Defined.

End BFSClaim.

(* ===================================================================== *)
(** ** Theorems: what Reset writes and Extract returns (BFS)               *)
(* ===================================================================== *)

Section BFSResetExtract.
Import util oprtr bfs.

Lemma move_to_host_ok getf setf p p' h d :
  h_pointer (getf (data_slice p)) = Some h ->
  d_pointer (getf (data_slice p)) = Some d ->
  move_to_host getf setf p = (inr tt, p') ->
  exists r,
    p' = set_rt r (set_slice
           (setf (mkArray1D (Some (copy_cells h d (Z.of_nat (length d)))) (Some d))
              (data_slice p)) p).
Proof.
  intros Hh Hd H. unfold move_to_host in H. apply try_inr in H as (e & H & Hf).
  unfold Move_DEVICE_HOST, cudaMemcpy in H. rewrite Hh, Hd in H.
  destruct (call (rt p)) as [e' r]. destruct (failed e') eqn:E.
  - inversion H; subst. congruence.
  - inversion H; subst. eauto.
Qed.

Lemma copy_cells_all {T} (h d : list T) :
  copy_cells h d (Z.of_nat (length d)) = d ++ drop (length d) h.
Proof.
  unfold copy_cells. rewrite Nat2Z.id, firstn_all. reflexivity.
Qed.

(** What [Extract] hands back when it succeeds: the device arrays, copied
    over the front of the caller's buffers. *)
Lemma Extract_device cfg h_labels h_preds p p' L :
  d_pointer (labels (data_slice p)) = Some L ->
  Extract cfg h_labels h_preds p = (cudaSuccess, p') ->
  extracted_labels h_labels p' = L ++ drop (length L) h_labels /\
  (forall P, MARK_PREDECESSORS cfg = true ->
             d_pointer (preds (data_slice p)) = Some P ->
             extracted_preds cfg h_preds p' = P ++ drop (length P) h_preds).
Proof.
  intros HL H. unfold Extract in H.
  apply run_success in H; [|destruct cfg as [[] ?]; cbn [when MARK_PREDECESSORS];
                             auto 20 using sound_move, sound_try, sound_modify, sound_bind, sound_ret].
  apply bind_inr in H as ([] & p1 & H1 & H).
  apply rt_call_ok in H1 as (r1 & ->).
  apply bind_inr in H as ([] & p2 & H2 & H). inversion H2; subst p2; clear H2.
  apply bind_inr in H as ([] & p3 & H3 & H).
  eapply move_to_host_ok in H3; [|reflexivity|exact HL].
  destruct H3 as (r3 & ->).
  unfold extracted_labels, extracted_preds.
  destruct cfg as [mp idem]. cbn [MARK_PREDECESSORS] in *.
  destruct mp; cbn [when] in H.
  - apply bind_inr in H as ([] & p4 & H4 & H). inversion H4; subst p4; clear H4.
    split.
    + destruct (d_pointer (preds (data_slice p))) as [P|] eqn:EP.
      * eapply move_to_host_ok in H; [|reflexivity|cbn; exact EP].
        destruct H as (r5 & ->). cbn. apply copy_cells_all.
      * unfold move_to_host in H. apply try_inr in H as (e & H & _).
        unfold Move_DEVICE_HOST in H. cbn in H. rewrite EP in H.
        destruct (call r3) as [e' r']. inversion H; subst. cbn.
        apply copy_cells_all.
    + intros P _ EP.
      eapply move_to_host_ok in H; [|reflexivity|cbn; exact EP].
      destruct H as (r5 & ->). cbn. apply copy_cells_all.
  - inversion H; subst. cbn. split; [apply copy_cells_all|].
    intros; discriminate.
Qed.

(** C6, as the code has it: after a successful [Reset] every entry of
    [labels] is -1 when [ENABLE_IDEMPOTENCE] is set and the maximum VertexId
    minus one otherwise; with [MARK_PREDECESSORS] every entry of [preds] is
    -2. *)
Theorem Reset_fills_labels_and_preds cfg p p' :
  0 <= gs_nodes p ->
  Reset cfg p = (cudaSuccess, p') ->
  dev (labels (data_slice p')) =
    replicate (Z.to_nat (gs_nodes p))
      (if ENABLE_IDEMPOTENCE cfg then -1 else MaxValue - 1) /\
  (MARK_PREDECESSORS cfg = true ->
   dev (preds (data_slice p')) = replicate (Z.to_nat (gs_nodes p)) (-2)).
Proof.
  intros Hn H. destruct (Reset_device cfg p p' Hn H) as (_ & HL & HP & _).
  unfold dev. rewrite HL. split; [reflexivity|].
  intros Hm. rewrite (HP Hm). reflexivity.
Qed.

Lemma Reset_fills_labels_and_preds_witness :
  dev (labels (data_slice
    (snd (Reset (mkConfig true false) (mkBFSProblem healthy 3 None DataSlice_empty)))))
    = [2147483646; 2147483646; 2147483646] /\
  dev (preds (data_slice
    (snd (Reset (mkConfig true false) (mkBFSProblem healthy 3 None DataSlice_empty)))))
    = [-2; -2; -2].
Proof.
  destruct (Reset_fills_labels_and_preds (mkConfig true false)
              (mkBFSProblem healthy 3 None DataSlice_empty)
              (snd (Reset (mkConfig true false)
                      (mkBFSProblem healthy 3 None DataSlice_empty))))
    as [HL HP].
  - cbn. lia.
  - vm_compute. reflexivity.
  - split; [exact HL | apply HP; reflexivity].
Defined.

(** C6 as stated fails: without idempotence the labels are not the maximum
    VertexId value. *)
Lemma Reset_label_is_not_MaxValue :
  let p' := snd (Reset (mkConfig true false)
                   (mkBFSProblem healthy 1 None DataSlice_empty)) in
  fst (Reset (mkConfig true false) (mkBFSProblem healthy 1 None DataSlice_empty))
    = cudaSuccess /\
  dev (labels (data_slice p')) = [MaxValue - 1] /\
  dev (labels (data_slice p')) <> [MaxValue].
Proof. vm_compute. repeat split; discriminate. Qed.

(** C5, as the code has it: [Extract] right after [Reset] returns exactly
    what [Reset] wrote: every label, the source's included, is the initial
    value, and with [MARK_PREDECESSORS] every predecessor is -2.  Cells of
    the caller's buffers beyond [nodes] keep their contents. *)
Theorem Extract_after_Reset cfg p p1 p2 h_labels h_preds :
  0 <= gs_nodes p ->
  Reset cfg p = (cudaSuccess, p1) ->
  Extract cfg h_labels h_preds p1 = (cudaSuccess, p2) ->
  extracted_labels h_labels p2 =
    replicate (Z.to_nat (gs_nodes p))
      (if ENABLE_IDEMPOTENCE cfg then -1 else MaxValue - 1)
    ++ drop (Z.to_nat (gs_nodes p)) h_labels /\
  (MARK_PREDECESSORS cfg = true ->
   extracted_preds cfg h_preds p2 =
     replicate (Z.to_nat (gs_nodes p)) (-2)
     ++ drop (Z.to_nat (gs_nodes p)) h_preds).
Proof.
  intros Hn HR HE.
  destruct (Reset_device cfg p p1 Hn HR) as (_ & HL & HP & _).
  destruct (Extract_device cfg h_labels h_preds p1 p2 _ HL HE) as [E1 E2].
  rewrite length_replicate in E1. split; [exact E1|].
  intros Hm. rewrite (E2 _ Hm (HP Hm)), length_replicate. reflexivity.
Qed.

Lemma Extract_after_Reset_witness :
  let p := mkBFSProblem healthy 4 None DataSlice_empty in
  let p1 := snd (Reset (mkConfig true false) p) in
  let p2 := snd (Extract (mkConfig true false) [7; 7; 7; 7] [7; 7; 7; 7] p1) in
  extracted_labels [7; 7; 7; 7] p2 =
    [2147483646; 2147483646; 2147483646; 2147483646] /\
  extracted_preds (mkConfig true false) [7; 7; 7; 7] p2 = [-2; -2; -2; -2].
Proof.
  intros p p1 p2.
  destruct (Extract_after_Reset (mkConfig true false) p p1 p2 [7; 7; 7; 7] [7; 7; 7; 7])
    as [HL HP].
  - cbn. lia.
  - vm_compute. reflexivity.
  - vm_compute. reflexivity.
  - split; [exact HL | apply HP; reflexivity].
Defined.

(** C5 as stated fails: [Reset] takes no source, so the label extracted
    for the source (vertex 0 of the scenario) is the initial value, not 0. *)
Lemma Extract_after_Reset_source_label_not_zero :
  let p1 := snd (Reset (mkConfig true false)
                   (mkBFSProblem healthy 4 None DataSlice_empty)) in
  let r := Extract (mkConfig true false) [0; 0; 0; 0] [0; 0; 0; 0] p1 in
  fst r = cudaSuccess /\
  Ld 0 (extracted_labels [0; 0; 0; 0] (snd r)) 0 = MaxValue - 1 /\
  Ld 0 (extracted_labels [0; 0; 0; 0] (snd r)) 0 <> 0.
Proof. vm_compute. repeat split; discriminate. Qed.

End BFSResetExtract.

(* ===================================================================== *)
(** ** Theorems: SALSAEnactor                                              *)
(* ===================================================================== *)

Section SalsaFacts.
Import util salsa.

Lemma MemsetKernel_prefix {T} (d : list T) v n :
  0 <= n <= Z.of_nat (length d) ->
  MemsetKernel d v n = replicate (Z.to_nat n) v ++ drop (Z.to_nat n) d.
Proof.
  intros Hn. unfold MemsetKernel. apply list_eq. intros i.
  rewrite list_lookup_imap.
  destruct (Z.ltb_spec (Z.of_nat i) n) as [Hi|Hi].
  - rewrite lookup_app_l by (rewrite length_replicate; lia).
    rewrite lookup_replicate_2 by lia.
    destruct (lookup_lt_is_Some_2 d i) as [x ->]; [lia | reflexivity].
  - rewrite lookup_app_r by (rewrite length_replicate; lia).
    rewrite length_replicate, lookup_drop.
    replace (Z.to_nat n + (i - Z.to_nat n))%nat with i by lia.
    destruct (d !! i); reflexivity.
Qed.

Lemma MemsetCopyVectorKernel_prefix {T} (dst src : list T) n :
  0 <= n <= Z.of_nat (length dst) -> n <= Z.of_nat (length src) ->
  MemsetCopyVectorKernel dst src n = take (Z.to_nat n) src ++ drop (Z.to_nat n) dst.
Proof.
  intros Hn Hs. unfold MemsetCopyVectorKernel. apply list_eq. intros i.
  rewrite list_lookup_imap.
  assert (Hl : length (take (Z.to_nat n) src) = Z.to_nat n)
    by (rewrite length_take; lia).
  destruct (Z.ltb_spec (Z.of_nat i) n) as [Hi|Hi].
  - rewrite lookup_app_l by lia. rewrite lookup_take_lt by lia.
    destruct (lookup_lt_is_Some_2 dst i) as [x ->]; [lia|].
    destruct (lookup_lt_is_Some_2 src i) as [y ->]; [lia|]. reflexivity.
  - rewrite lookup_app_r by lia. rewrite Hl, lookup_drop.
    replace (Z.to_nat n + (i - Z.to_nat n))%nat with i by lia.
    destruct (dst !! i); reflexivity.
Qed.

(** C10: [NormalizeRank] normalises nothing.  It copies the first [nodes]
    entries of the selected [rank_next] (hub pair when [hub_or_auth = 0],
    authority pair otherwise) into the matching [rank_curr], sets those
    entries of [rank_next] to 0.0, and leaves the other pair as it is. *)
Theorem NormalizeRank_copies_then_zeroes (problem : DataSlice) (hub_or_auth nodes : Z) :
  0 <= nodes ->
  (hub_or_auth = 0 ->
   nodes <= Z.of_nat (length (d_hrank_curr problem)) ->
   nodes <= Z.of_nat (length (d_hrank_next problem)) ->
   NormalizeRank problem hub_or_auth nodes =
     mkDataSlice
       (take (Z.to_nat nodes) (d_hrank_next problem)
          ++ drop (Z.to_nat nodes) (d_hrank_curr problem))
       (replicate (Z.to_nat nodes) 0%float
          ++ drop (Z.to_nat nodes) (d_hrank_next problem))
       (d_arank_curr problem) (d_arank_next problem)) /\
  (hub_or_auth <> 0 ->
   nodes <= Z.of_nat (length (d_arank_curr problem)) ->
   nodes <= Z.of_nat (length (d_arank_next problem)) ->
   NormalizeRank problem hub_or_auth nodes =
     mkDataSlice
       (d_hrank_curr problem) (d_hrank_next problem)
       (take (Z.to_nat nodes) (d_arank_next problem)
          ++ drop (Z.to_nat nodes) (d_arank_curr problem))
       (replicate (Z.to_nat nodes) 0%float
          ++ drop (Z.to_nat nodes) (d_arank_next problem))).
Proof.
  intros Hn. unfold NormalizeRank. split; intros Hh Hc Hx.
  - subst hub_or_auth. cbn [Z.eqb].
    rewrite MemsetCopyVectorKernel_prefix, MemsetKernel_prefix by lia. reflexivity.
  - destruct (Z.eqb_spec hub_or_auth 0); [contradiction|].
    rewrite MemsetCopyVectorKernel_prefix, MemsetKernel_prefix by lia. reflexivity.
Qed.

Lemma NormalizeRank_copies_then_zeroes_witness :
  NormalizeRank (mkDataSlice [1; 2; 3] [4; 5; 6] [7; 8; 9] [10; 11; 12])%float 0 2
  = (mkDataSlice [4; 5; 3] [0; 0; 6] [7; 8; 9] [10; 11; 12])%float.
Proof.
  apply (proj1 (NormalizeRank_copies_then_zeroes
                  (mkDataSlice [1; 2; 3] [4; 5; 6] [7; 8; 9] [10; 11; 12])%float
                  0 2 ltac:(lia))).
  - reflexivity.
  - cbn. lia.
  - cbn. lia.
Defined.

(** *** The status of a run is decided by the host alone *)

(** What the host side of the enactor consists of: everything but what the
    kernels are handed. *)
Definition host (s : Enactor) : Runtime * Z * Z * (Z * Z) * Z :=
  (rt s, gs_nodes s, gs_edges s, frontier_elements s, iteration s).

(** The outcome of a step, seen from the host. *)
Definition host_outcome (r : (cudaError_t * Enactor) + Enactor)
  : (cudaError_t * (Runtime * Z * Z * (Z * Z) * Z)) + (Runtime * Z * Z * (Z * Z) * Z) :=
  match r with
  | inl (e, s) => inl (e, host s)
  | inr s => inr (host s)
  end.

Ltac host_steps :=
  repeat match goal with
         | |- context [call ?r] =>
             let e := fresh "e" in
             let r' := fresh "r" in
             destruct (call r) as [e r']; cbn
         | |- context [failed ?e] => destruct (failed e); cbn
         | |- context [if ?b then _ else _] => is_var b; destruct b; cbn
         end.

Lemma loop_body_host K K' DEBUG INSTRUMENT s s' :
  host s = host s' ->
  host_outcome (loop_body K DEBUG INSTRUMENT s)
  = host_outcome (loop_body K' DEBUG INSTRUMENT s').
Proof.
  destruct s as [r n m fe it sc d], s' as [r' n' m' fe' it' sc' d'].
  unfold host. cbn. intros H. inversion H; subst; clear H.
  unfold loop_body, SetQueueLength, GetQueueLength, debug_sync, rt_call, launch,
    cudaThreadSynchronize, GRError, host_outcome, host.
  cbn. host_steps; reflexivity.
Qed.

Lemma prologue_host K K' DEBUG LB s s' :
  host s = host s' ->
  host_outcome (prologue K DEBUG LB s) = host_outcome (prologue K' DEBUG LB s').
Proof.
  destruct s as [r n m fe it sc d], s' as [r' n' m' fe' it' sc' d'].
  unfold host. cbn. intros H. inversion H; subst; clear H.
  unfold prologue, SetQueueLength, debug_sync, rt_call, launch, cudaMalloc,
    cudaThreadSynchronize, GRError, host_outcome, host.
  cbn. host_steps; reflexivity.
Qed.

Lemma loop_body_outcome K DEBUG INSTRUMENT s :
  match loop_body K DEBUG INSTRUMENT s with
  | inl (e, _) => failed e = true
  | inr s' => iteration s' = iteration s + 1
  end.
Proof.
  destruct s as [r n m fe it sc d].
  unfold loop_body, SetQueueLength, GetQueueLength, debug_sync, rt_call, launch,
    cudaThreadSynchronize, GRError.
  cbn.
  repeat match goal with
         | |- context [call ?r] =>
             let e := fresh "e" in
             let r' := fresh "r" in
             destruct (call r) as [e r']; cbn
         | |- context [failed ?e] =>
             let E := fresh "E" in destruct (failed e) eqn:E; cbn
         | |- context [if ?b then _ else _] => is_var b; destruct b; cbn
         end; auto.
Qed.

Lemma prologue_outcome K DEBUG LB s :
  match prologue K DEBUG LB s with
  | inl (e, _) => failed e = true
  | inr s' => iteration s' = 0
  end.
Proof.
  destruct s as [r n m fe it sc d].
  unfold prologue, SetQueueLength, debug_sync, rt_call, launch, cudaMalloc,
    cudaThreadSynchronize, GRError.
  cbn.
  repeat match goal with
         | |- context [call ?r] =>
             let e := fresh "e" in
             let r' := fresh "r" in
             destruct (call r) as [e r']; cbn
         | |- context [failed ?e] =>
             let E := fresh "E" in destruct (failed e) eqn:E; cbn
         | |- context [if ?b then _ else _] => is_var b; destruct b; cbn
         end; auto.
Qed.

Lemma failed_not_success e : failed e = true -> e <> cudaSuccess.
Proof. unfold failed, cudaSuccess. intros H ->. discriminate. Qed.

(** The loop is left within [max_iteration - iteration] turns (one at
    least); when it is left without a failure the counter is
    [max_iteration], or one more than at entry if that is larger. *)
Lemma loop_ends K DEBUG INSTRUMENT max_iteration fuel : forall s,
  (1 <= fuel)%nat ->
  max_iteration - iteration s <= Z.of_nat fuel ->
  exists retval s',
    loop fuel K DEBUG INSTRUMENT max_iteration s = Some (retval, s') /\
    (retval = cudaSuccess ->
     iteration s' = Z.max (iteration s + 1) max_iteration).
Proof.
  induction fuel as [|fuel IH]; intros s H1 Hf; [lia|].
  cbn [loop]. pose proof (loop_body_outcome K DEBUG INSTRUMENT s) as Hb.
  destruct (loop_body K DEBUG INSTRUMENT s) as [[e s']|s'].
  - exists e, s'. split; [reflexivity|].
    intros ->. apply failed_not_success in Hb. contradiction.
  - unfold termination_check.
    destruct (Z.leb_spec max_iteration (iteration s')) as [Hle|Hgt].
    + exists cudaSuccess, s'. split; [reflexivity|]. intros _. lia.
    + destruct (IH s') as (e & s'' & Hl & Hit); [lia | lia |].
      exists e, s''. split; [assumption|]. intros He. rewrite (Hit He). lia.
Qed.

Lemma EnactSALSA_ends K DEBUG INSTRUMENT LB max_iteration s :
  exists retval s',
    EnactSALSA K DEBUG INSTRUMENT LB max_iteration s = Some (retval, s') /\
    (retval = cudaSuccess -> iteration s' = Z.max 1 max_iteration).
Proof.
  unfold EnactSALSA. pose proof (prologue_outcome K DEBUG LB s) as Hp.
  destruct (prologue K DEBUG LB s) as [[e s']|s'].
  - exists e, s'. split; [reflexivity|].
    intros ->. apply failed_not_success in Hp. contradiction.
  - destruct (loop_ends K DEBUG INSTRUMENT max_iteration (S (Z.to_nat max_iteration)) s')
      as (e & s'' & Hl & Hit); [lia | lia |].
    exists e, s''. split; [assumption|]. intros He. rewrite (Hit He), Hp. lia.
Qed.

(** An enactor about to run on a graph of [n] vertices and [m] edges, with
    a runtime that answers [script]. *)
Definition enactor0 (script : list cudaError_t) (n m : Z) : Enactor :=
  mkEnactor (mkRuntime script 0) n m (n, m) 0 None
    (mkDevice (mkFrontierAttribute 0 0 0 false) 0
       (replicate (Z.to_nat (Z.max n m)) 0, replicate (Z.to_nat (Z.max n m)) 0)
       (mkDataSlice (replicate (Z.to_nat n) 1%float) (replicate (Z.to_nat n) 0%float)
          (replicate (Z.to_nat n) 1%float) (replicate (Z.to_nat n) 0%float))).

(** A kernel that leaves everything as it is. *)
Definition K_idle : Kernel := fun _ _ _ d => d.

(** A kernel that accepts one element more than its output queue holds and
    says so in the queue length. *)
Definition K_overflow : Kernel :=
  fun _ _ max_out_queue d => set_work_progress (max_out_queue + 1) d.

(** C4, as the code has it: for [max_iteration >= 1] a run of [EnactSALSA]
    ends, and when it ends without a failed call the iteration counter equals
    [max_iteration], whatever the kernels did to the frontier: the loop's
    exit test is [iteration >= max_iteration] alone. *)
Theorem EnactSALSA_stops_at_max_iteration K DEBUG INSTRUMENT LB max_iteration s :
  1 <= max_iteration ->
  exists retval s',
    EnactSALSA K DEBUG INSTRUMENT LB max_iteration s = Some (retval, s') /\
    (retval = cudaSuccess ->
     iteration s' = max_iteration /\ termination_check max_iteration s' = true).
Proof.
  intros Hm.
  destruct (EnactSALSA_ends K DEBUG INSTRUMENT LB max_iteration s)
    as (e & s' & He & Hit).
  exists e, s'. split; [assumption|]. intros Hs. specialize (Hit Hs).
  unfold termination_check. split; [lia | apply Z.leb_le; lia].
Qed.

Lemma EnactSALSA_stops_at_max_iteration_witness :
  exists retval s',
    EnactSALSA K_idle false false true 3 (enactor0 [] 2 2) = Some (retval, s') /\
    (retval = cudaSuccess ->
     iteration s' = 3 /\ termination_check 3 s' = true).
Proof.
  apply (EnactSALSA_stops_at_max_iteration K_idle false false true 3 (enactor0 [] 2 2)).
  lia.
Defined.

(** C4 as stated fails: on a graph without edges the frontier is empty after
    the first turn of the loop, where the check of the spec would stop; the
    loop goes on until [max_iteration]. *)
Lemma EnactSALSA_iterates_on_empty_frontier :
  match prologue K_idle false true (enactor0 [] 2 0) with
  | inr s =>
      match loop_body K_idle false false s with
      | inr s1 =>
          queue_length (frontier_attribute (device s1)) = 0 /\
          termination_check_spec 3 s1 = true /\
          termination_check 3 s1 = false
      | inl _ => False
      end
  | inl _ => False
  end /\
  option_map (fun r => (fst r, iteration (snd r)))
    (EnactSALSA K_idle false false true 3 (enactor0 [] 2 0))
  = Some (cudaSuccess, 3).
Proof. vm_compute. repeat split. Qed.

(** C2 on the code: the advance accepted [max_out_queue + 1] elements, and
    [EnactSALSA] returns [cudaSuccess] ("Check overflow ignored here"). *)
Theorem EnactSALSA_ignores_overflow :
  match EnactSALSA K_overflow false false true 1 (enactor0 [] 3 4) with
  | Some (retval, s') =>
      retval = cudaSuccess /\
      work_progress (device s') = gs_edges s' + 1
  | None => False
  end.
Proof. vm_compute. split; reflexivity. Qed.

End SalsaFacts.

(* ===================================================================== *)
(** ** Theorems: PRFunctor                                                 *)
(* ===================================================================== *)

Section PageRankFilter.
Import util pr.

Lemma SFcompare_antisym x y :
  SFcompare y x = option_map CompOpp (SFcompare x y).
Proof.
  destruct x as [s1| s1 | | s1 m1 e1], y as [s2| s2 | | s2 m2 e2]; cbn;
    try reflexivity;
    try (destruct s1; reflexivity); try (destruct s2; reflexivity);
    try (destruct s1, s2; reflexivity).
  destruct s1, s2; cbv [SFcompare option_map]; try reflexivity;
    rewrite (Z.compare_antisym e1 e2); destruct (e1 ?= e2); cbn [CompOpp];
    try reflexivity;
    change Eq with (CompOpp Eq) at 1; rewrite <- Pos.compare_cont_antisym;
    destruct (Pos.compare_cont Eq m1 m2); reflexivity.
Qed.

Lemma SFcompare_None x y :
  SFcompare x y = None <-> x = S754_nan \/ y = S754_nan.
Proof.
  destruct x as [s1| s1 | | s1 m1 e1], y as [s2| s2 | | s2 m2 e2]; cbn;
    split; intros H; try discriminate; auto;
    try (destruct H; discriminate).
Qed.

Lemma SFcompare_refl x : x <> S754_nan -> SFcompare x x = Some Eq.
Proof.
  destruct x as [s| s | | s m e]; cbn; intros H; try reflexivity; try congruence.
  - destruct s; reflexivity.
  - destruct s; rewrite Z.compare_refl;
      change (Pos.compare_cont Eq m m) with (Pos.compare m m);
      rewrite Pos.compare_refl; reflexivity.
Qed.

Lemma is_nan_spec x : is_nan x = true <-> Prim2SF x = S754_nan.
Proof.
  unfold is_nan. rewrite FloatAxioms.eqb_spec. unfold SFeqb. split.
  - intros H. destruct (Prim2SF x) eqn:E; try reflexivity;
      rewrite SFcompare_refl in H by discriminate; discriminate.
  - intros ->. reflexivity.
Qed.

(** [t <= d] fails exactly when [d < t] or the two are unordered. *)
Lemma leb_false_iff t d :
  (t <=? d)%float = false <->
  ((d <? t)%float = true \/ is_nan d = true \/ is_nan t = true).
Proof.
  rewrite FloatAxioms.leb_spec, FloatAxioms.ltb_spec, !is_nan_spec.
  unfold SFleb, SFltb.
  rewrite (SFcompare_antisym (Prim2SF t) (Prim2SF d)).
  pose proof (SFcompare_None (Prim2SF t) (Prim2SF d)) as HN.
  destruct (SFcompare (Prim2SF t) (Prim2SF d)) as [[]|]; cbn; split; intros H;
    auto; try discriminate.
  - destruct H as [H|[H|H]]; [discriminate| |];
      (assert (X : Prim2SF t = S754_nan \/ Prim2SF d = S754_nan) by auto;
       apply HN in X; discriminate).
  - destruct H as [H|[H|H]]; [discriminate| |];
      (assert (X : Prim2SF t = S754_nan \/ Prim2SF d = S754_nan) by auto;
       apply HN in X; discriminate).
  - right. destruct (proj1 HN eq_refl); auto.
Qed.

(** The rank of [node] after damping, and its distance to the current rank,
    as [CondFilter] computes them. *)
Definition damped (node : Z) (problem : DataSlice) : list Value :=
  let delta := Ld 0%float (d_delta problem) 0 in
  St ((1 - delta) + delta * Ld 0 (d_rank_next problem) node)%float
     (d_rank_next problem) node.

Definition diff_of (node : Z) (problem : DataSlice) : Value :=
  abs (Ld 0 (damped node problem) node - Ld 0 (d_rank_curr problem) node)%float.

(** C3, as the code has it: [CondFilter] stores the damped rank
    [(1 - delta) + delta * rank_next[node]] in [rank_next[node]], touches
    nothing else, and keeps the vertex exactly when
    [|rank_next[node] - rank_curr[node]| >= threshold]; it drops the vertex
    exactly when that distance is below the threshold or the comparison is
    unordered (a NaN distance or threshold). *)
Theorem CondFilter_damps_then_compares (node : Z) (problem : DataSlice)
    (v : Value) (nid : Z) :
  snd (CondFilter node problem v nid) = set_rank_next (damped node problem) problem /\
  (fst (CondFilter node problem v nid) = true <->
   (Ld 0 (d_threshold problem) 0 <=? diff_of node problem)%float = true) /\
  (fst (CondFilter node problem v nid) = false <->
   ((diff_of node problem <? Ld 0 (d_threshold problem) 0)%float = true \/
    is_nan (diff_of node problem) = true \/
    is_nan (Ld 0%float (d_threshold problem) 0) = true)).
Proof.
  unfold CondFilter, diff_of, damped. cbn [fst snd d_rank_next d_rank_curr
    d_threshold set_rank_next].
  split; [reflexivity|]. split; [reflexivity|].
  apply leb_false_iff.
Qed.

(** C3 as stated fails: with both ranks at infinity the distance is NaN;
    the vertex is dropped although the distance is not below the threshold. *)
Lemma CondFilter_drops_without_diff_below_threshold :
  let problem :=
    mkDataSlice [infinity] [infinity] [1] [0.5%float] [0.25%float] in
  fst (CondFilter 0 problem 0%float 0) = false /\
  (diff_of 0 problem <? Ld 0 (d_threshold problem) 0)%float = false.
Proof. vm_compute. split; reflexivity. Qed.

End PageRankFilter.

(* ===================================================================== *)
(** ** Theorems: HITSProblem and BCProblem                                 *)
(* ===================================================================== *)

Section RawPointerProblems.
Import util problem.

(** A HITS problem on a three-vertex graph, after Init and Reset. *)
Definition hits3 : hits.HITSProblem :=
  snd (hits.Reset 1 0.5%float
         (snd (hits.Init 1 3 3
                 (mkProblem healthy 0 0 0 [0; 1; 2; 3] [0; 0; 1; 3] [0; 0; 0]
                    hits.new_DataSlice false)))).

(** A BC problem on the same graph, after Init and Reset. *)
Definition bc3 : bc.BCProblem :=
  snd (bc.Reset 1
         (snd (bc.Init 1 3 3
                 (mkProblem healthy 0 0 0 [0; 1; 2; 3] [] [0; 0; 0]
                    bc.new_DataSlice false)))).

(** C7 on the code: [cudaSetDevice] fails inside [Extract]; the status of
    the failure is tested but not stored, and both [HITSProblem::Extract] and
    [BCProblem::Extract] return [cudaSuccess] with nothing copied. *)
Theorem Extract_returns_success_after_failed_SetDevice :
  (let r := hits.Extract [9; 9; 9]%float [9; 9; 9]%float
              (set_rt (mkRuntime [cudaErrorInvalidDevice] 0) hits3) in
   fst (fst (fst r)) = cudaSuccess /\
   snd (fst (fst r)) = [9; 9; 9]%float /\
   snd (fst r) = [9; 9; 9]%float) /\
  (let r := bc.Extract (Some [9; 9; 9]%float) [9; 9; 9]%float None
              (set_rt (mkRuntime [cudaErrorInvalidDevice] 0) bc3) in
   fst (fst (fst (fst r))) = cudaSuccess /\
   snd (fst (fst r)) = [9; 9; 9]%float).
Proof. vm_compute. repeat split; reflexivity. Qed.

End RawPointerProblems.

Section BFSAllocation.
Import util oprtr bfs.

(** C8 on the code: on a [BFSProblem] whose arrays [Init] has allocated,
    each [Reset] allocates [labels] and [preds] again (the NULL tests before
    the two [Allocate] calls are commented out). *)
Theorem BFS_Reset_allocates_on_every_call :
  let cfg := mkConfig true false in
  let p1 := snd (Init cfg (mkBFSProblem healthy 4 None DataSlice_empty)) in
  let p2 := snd (Reset cfg p1) in
  let p3 := snd (Reset cfg p2) in
  fst (Init cfg (mkBFSProblem healthy 4 None DataSlice_empty)) = cudaSuccess /\
  d_pointer (labels (data_slice p1)) <> None /\
  d_pointer (preds (data_slice p1)) <> None /\
  mallocs (rt p1) = 3%nat /\
  mallocs (rt p2) = 5%nat /\
  mallocs (rt p3) = 7%nat.
Proof. vm_compute. repeat split; discriminate. Qed.

End BFSAllocation.

(* ===================================================================== *)
(** ** Theorems: the steps of the raw-pointer problems                     *)
(* ===================================================================== *)

Section ProblemSteps.
Import util problem.
Context {DS : Type}.
Implicit Types p : Problem DS.

Lemma rt_call_inr (c : Runtime -> cudaError_t * Runtime) p p' :
  try (rt_call c) p = (inr tt, p') -> exists r, p' = set_rt r p.
Proof.
  intros H. apply try_inr in H as (e & H & _). unfold rt_call in H.
  destruct (c (rt p)) as [e' r]. inversion H. eauto.
Qed.

Lemma rt_call_counted (c : Runtime -> cudaError_t * Runtime) p p' :
  (forall r, mallocs (snd (c r)) = mallocs r) ->
  try (rt_call c) p = (inr tt, p') ->
  exists r, mallocs r = mallocs (rt p) /\ p' = set_rt r p.
Proof.
  intros Hc H. apply try_inr in H as (e & H & _). unfold rt_call in H.
  specialize (Hc (rt p)). destruct (c (rt p)) as [e' r]. inversion H. eauto.
Qed.

Lemma GRError_call_mallocs r :
  mallocs (snd (let (e, r') := call r in (GRError e, r'))) = mallocs r.
Proof. pose proof (call_mallocs r). destruct (call r). assumption. Qed.

Lemma malloc_struct_inr p p' :
  try (fun p : Problem DS =>
         match cudaMalloc tt 1 (rt p) with
         | (e, Some _, r) => (GRError e, set_rt r (set_d_data_slice true p))
         | (e, None, r) => (GRError e, set_rt r p)
         end) p = (inr tt, p') ->
  exists r,
    mallocs r = S (mallocs (rt p)) /\ p' = set_rt r (set_d_data_slice true p).
Proof.
  intros H. apply try_inr in H as (e & H & Hf).
  unfold cudaMalloc, GRError in H.
  pose proof (call_mallocs (rt p)) as Hm.
  destruct (call (rt p)) as [e' r]. cbn in Hm. destruct (failed e') eqn:E.
  - inversion H; subst. congruence.
  - inversion H; subst. eexists. split; [|reflexivity]. cbn. congruence.
Qed.

Lemma malloc_member_inr {T} (f : field DS T) fill n p p' :
  malloc_member f fill n p = (inr tt, p') ->
  exists r,
    mallocs r = S (mallocs (rt p)) /\
    p' = set_rt r (set_slice (fset f (Some (replicate (Z.to_nat n) fill)) (data_slice p)) p).
Proof.
  intros H. unfold malloc_member in H. apply try_inr in H as (e & H & Hf).
  unfold cudaMalloc, GRError in H.
  pose proof (call_mallocs (rt p)) as Hm.
  destruct (call (rt p)) as [e' r]. cbn in Hm. destruct (failed e') eqn:E.
  - inversion H; subst. congruence.
  - inversion H; subst. eexists. split; [|reflexivity]. cbn. congruence.
Qed.

Lemma malloc_if_null_inr {T} (f : field DS T) fill n p p' :
  malloc_if_null f fill n p = (inr tt, p') ->
  (is_Some (fget f (data_slice p)) /\ p' = p) \/
  (fget f (data_slice p) = None /\
   exists r,
     mallocs r = S (mallocs (rt p)) /\
     p' = set_rt r (set_slice (fset f (Some (replicate (Z.to_nat n) fill)) (data_slice p)) p)).
Proof.
  unfold malloc_if_null, bind, get. destruct (fget f (data_slice p)) eqn:E; intros H.
  - left. inversion H. split; [eauto | reflexivity].
  - right. split; [reflexivity|]. apply malloc_member_inr. assumption.
Qed.

Lemma memcpy_cell_inr {T} (f : field DS T) i (v : T) p p' :
  memcpy_cell f i v p = (inr tt, p') ->
  exists r,
    mallocs r = mallocs (rt p) /\
    p' = set_rt r (set_slice
           (fset f ((fun a => St v a i) <$> fget f (data_slice p)) (data_slice p)) p).
Proof.
  intros H. unfold memcpy_cell in H. apply try_inr in H as (e & H & Hf).
  pose proof (call_mallocs (rt p)) as Hm.
  destruct (call (rt p)) as [e' r]. cbn in Hm. unfold GRError in H.
  destruct (failed e') eqn:E; inversion H; subst; [congruence|]. eauto.
Qed.

Lemma memcpy_struct_inr p p' :
  memcpy_struct p = (inr tt, p') ->
  exists r, mallocs r = mallocs (rt p) /\ p' = set_rt r p.
Proof.
  intros H. unfold memcpy_struct in H. apply try_inr in H as (e & H & Hf).
  pose proof (call_mallocs (rt p)) as Hm.
  destruct (call (rt p)) as [e' r]. cbn in Hm. inversion H; subst. eauto.
Qed.

Lemma sound_unchecked c : sound (unchecked (DS := DS) c).
Proof. apply sound_modify. Qed.

Lemma sound_malloc_member {T} (f : field DS T) fill n : sound (malloc_member f fill n).
Proof. apply sound_try. Qed.

Lemma sound_malloc_if_null {T} (f : field DS T) fill n : sound (malloc_if_null f fill n).
Proof.
  unfold malloc_if_null. apply sound_bind; [apply sound_get|].
  intros p. destruct (fget f (data_slice p)); [apply sound_ret | apply sound_try].
Qed.

Lemma sound_kernel {T} (f : field DS T) k : sound (kernel f k).
Proof. apply sound_modify. Qed.

Lemma sound_memcpy_cell {T} (f : field DS T) i v : sound (memcpy_cell f i v).
Proof. apply sound_try. Qed.

Lemma sound_memcpy_struct : sound (memcpy_struct (DS := DS)).
Proof. apply sound_try. Qed.

(** *** What no step does: allocate without need *)

(** [keeps A] : the allocation count and the property [A] of the data slice
    survive a step, on every exit. *)
Definition keeps (m0 : nat) (A : DS -> Prop) p : Prop :=
  mallocs (rt p) = m0 /\ A (data_slice p).

Lemma keeps_unchecked m0 A :
  preserves (keeps m0 A) (unchecked (DS := DS) call).
Proof.
  apply preserves_modify. intros p [Hm HA]. split; [|exact HA].
  cbn. rewrite call_mallocs. exact Hm.
Qed.

Lemma keeps_rt_call m0 A (c : Runtime -> cudaError_t * Runtime) :
  (forall r, mallocs (snd (c r)) = mallocs r) ->
  preserves (keeps m0 A) (try (rt_call c)).
Proof.
  intros Hc. apply preserves_try. intros p [Hm HA]. unfold rt_call.
  specialize (Hc (rt p)). destruct (c (rt p)) as [e r].
  cbn in *. split; cbn; [congruence | exact HA].
Qed.

Lemma keeps_malloc_if_null {T} m0 (A : DS -> Prop) (f : field DS T) fill n :
  (forall ds, A ds -> is_Some (fget f ds)) ->
  preserves (keeps m0 A) (malloc_if_null f fill n).
Proof.
  intros Hf p r p' [Hm HA] H. unfold malloc_if_null, bind, get in H.
  destruct (Hf _ HA) as [a Ha]. rewrite Ha in H. inversion H; subst.
  split; [reflexivity | assumption].
Qed.

Lemma keeps_kernel {T} m0 (A : DS -> Prop) (f : field DS T) k :
  (forall ds a, A ds -> A (fset f (Some a) ds)) ->
  (forall ds, A ds -> is_Some (fget f ds)) ->
  preserves (keeps m0 A) (kernel f k).
Proof.
  intros Hs Hf. apply preserves_modify. intros p [Hm HA].
  split; [exact Hm|]. cbn.
  destruct (Hf _ HA) as [a Ha]. rewrite Ha. cbn. apply Hs. exact HA.
Qed.

Lemma keeps_memcpy_cell {T} m0 (A : DS -> Prop) (f : field DS T) i v :
  (forall ds a, A ds -> A (fset f (Some a) ds)) ->
  (forall ds, A ds -> is_Some (fget f ds)) ->
  preserves (keeps m0 A) (memcpy_cell f i v).
Proof.
  intros Hs Hf. apply preserves_try. intros p [Hm HA].
  pose proof (call_mallocs (rt p)) as Hc.
  destruct (call (rt p)) as [e r]. cbn in Hc.
  unfold GRError.
  destruct (failed e); cbn; (split; cbn; [congruence|]); [exact HA|].
  destruct (Hf _ HA) as [a Ha]. rewrite Ha. cbn. apply Hs. exact HA.
Qed.

Lemma keeps_memcpy_struct m0 A :
  preserves (keeps m0 A) (memcpy_struct (DS := DS)).
Proof.
  apply preserves_try. intros p [Hm HA].
  pose proof (call_mallocs (rt p)) as Hc.
  destruct (call (rt p)) as [e r]. cbn in *.
  split; cbn; [congruence | exact HA].
Qed.

Lemma keeps_modify_slice m0 (A : DS -> Prop) (g : DS -> DS) :
  (forall ds, A ds -> A (g ds)) ->
  preserves (keeps m0 A) (modify (fun p => set_slice (g (data_slice p)) p)).
Proof.
  intros Hg. apply preserves_modify. intros p [Hm HA]. split; [exact Hm|].
  cbn. auto.
Qed.

Lemma keeps_set_keys0 m0 A (g : Problem DS -> list Z) :
  preserves (keeps m0 A) (modify (fun p => set_keys0 (g p) p)).
Proof. apply preserves_modify. intros p [Hm HA]. split; assumption. Qed.

End ProblemSteps.

(* ===================================================================== *)
(** ** Theorems: HITSProblem, allocation                                   *)
(* ===================================================================== *)

Section HITSAllocation.
Import util problem hits.

(** Every array of the data slice is allocated. *)
Definition allocated (ds : DataSlice) : Prop :=
  is_Some (d_hrank_curr ds) /\ is_Some (d_arank_curr ds) /\
  is_Some (d_hrank_next ds) /\ is_Some (d_arank_next ds) /\
  is_Some (d_in_degrees ds) /\ is_Some (d_out_degrees ds) /\
  is_Some (d_delta ds) /\ is_Some (d_src_node ds).

Ltac field_facts :=
  unfold allocated;
  first [ intros [] ? (?&?&?&?&?&?&?&?); cbn in *; repeat split; eauto
        | intros [] (?&?&?&?&?&?&?&?); cbn in *; repeat split; eauto ].

Ltac keep_going :=
  repeat first
    [ apply keeps_unchecked
    | apply preserves_get
    | apply keeps_rt_call;
        [intros r; unfold cudaSetDevice, cudaGetDevice;
         pose proof (call_mallocs r); destruct (call r); assumption]
    | apply keeps_malloc_if_null; field_facts
    | apply keeps_kernel; field_facts
    | apply keeps_memcpy_cell; field_facts
    | apply keeps_memcpy_struct
    | apply keeps_modify_slice; field_facts
    | apply keeps_set_keys0
    | apply preserves_bind; [|intros ?] ].

(** With every array in place, [Reset] allocates nothing, whichever way it
    returns, and leaves every array in place. *)
Lemma HITS_Reset_keeps_allocation src delta (p : HITSProblem) :
  allocated (data_slice p) ->
  mallocs (rt (snd (Reset src delta p))) = mallocs (rt p) /\
  allocated (data_slice (snd (Reset src delta p))).
Proof.
  intros HA. unfold Reset.
  apply (preserves_run (keeps (mallocs (rt p)) allocated)); [|split; [reflexivity | exact HA]].
  keep_going.
Qed.

End HITSAllocation.

Section HITSLifecycle.
Import util problem hits.

(** Take a successful run of a raw-pointer problem apart, call by call. *)
Ltac pinv :=
  repeat match goal with
         | H : bind _ _ _ = (inr _, _) |- _ =>
             apply bind_inr in H as (? & ? & ? & H)
         | H : get _ = (inr _, _) |- _ => inversion H; subst; clear H
         | H : ret _ _ = (inr _, _) |- _ => inversion H; subst; clear H
         | H : modify _ _ = (inr _, _) |- _ => inversion H; subst; clear H
         | H : unchecked _ _ = (inr _, _) |- _ => inversion H; subst; clear H
         | H : kernel _ _ _ = (inr _, _) |- _ => inversion H; subst; clear H
         | H : try (rt_call _) _ = (inr ?x, _) |- _ =>
             destruct x;
             apply rt_call_counted in H as (? & ? & ->);
             [|intros; apply GRError_call_mallocs]
         | H : try (fun p => match cudaMalloc tt 1 (rt p) with _ => _ end) _
               = (inr ?x, _) |- _ =>
             destruct x; apply malloc_struct_inr in H as (? & ? & ->)
         | H : malloc_member _ _ _ _ = (inr ?x, _) |- _ =>
             destruct x; apply malloc_member_inr in H as (? & ? & ->)
         | H : memcpy_cell _ _ _ _ = (inr ?x, _) |- _ =>
             destruct x; apply memcpy_cell_inr in H as (? & ? & ->)
         | H : memcpy_struct _ = (inr ?x, _) |- _ =>
             destruct x; apply memcpy_struct_inr in H as (? & ? & ->)
         end.

Lemma sound_Init g n e : sound (S := HITSProblem)
  (modify (set_sizes g n e) ;;;
   unchecked call ;;;
   if g <=? 1 then
     try (rt_call (fun r => let (e, r') := cudaGetDevice r in (GRError e, r'))) ;;;
     modify (set_slice new_DataSlice) ;;;
     try (fun p => match cudaMalloc tt 1 (rt p) with
                   | (e, Some _, r) => (GRError e, set_rt r (set_d_data_slice true p))
                   | (e, None, r) => (GRError e, set_rt r p)
                   end) ;;;
     malloc_member hrank_curr 0%float n ;;;
     malloc_member arank_curr 0%float n ;;;
     malloc_member hrank_next 0%float n ;;;
     malloc_member arank_next 0%float n ;;;
     malloc_member in_degrees 0 n ;;;
     malloc_member out_degrees 0 n ;;;
     malloc_member delta_ 0%float 1 ;;;
     malloc_member src_node 0 1 ;;;
     modify (fun p => set_slice (fset labels_ None (data_slice p)) p)
   else ret tt)%dev.
Proof.
  destruct (g <=? 1);
    repeat first [ apply sound_bind; [|intros ?] | apply sound_modify
                 | apply sound_unchecked | apply sound_try | apply sound_ret ].
Qed.

(** A successful [Init] on one GPU leaves eight arrays of the right sizes,
    allocated by nine [cudaMalloc] calls, and [d_labels] NULL. *)
Lemma HITS_Init_success g n e (p p' : HITSProblem) :
  g <= 1 ->
  Init g n e p = (cudaSuccess, p') ->
  data_slice p' =
    mkDataSlice (Some (replicate (Z.to_nat n) 0%float))
      (Some (replicate (Z.to_nat n) 0%float))
      (Some (replicate (Z.to_nat n) 0%float))
      (Some (replicate (Z.to_nat n) 0%float))
      (Some (replicate (Z.to_nat n) 0)) (Some (replicate (Z.to_nat n) 0))
      (Some [0%float]) (Some [0]) None /\
  mallocs (rt p') = (mallocs (rt p) + 9)%nat /\
  num_gpus p' = g /\ nodes p' = n /\ edges p' = e /\
  d_row_offsets p' = d_row_offsets p /\
  d_column_offsets p' = d_column_offsets p /\
  d_keys0 p' = d_keys0 p.
Proof.
  intros Hg H. unfold Init in H. apply run_success in H; [|apply sound_Init].
  destruct (Z.leb_spec g 1); [|lia].
  pinv. cbn. repeat split; try reflexivity.
  repeat match goal with H : mallocs _ = _ |- _ => progress cbn in H end.
  rewrite call_mallocs in *. lia.
Qed.

End HITSLifecycle.

(* ===================================================================== *)
(** ** Theorems: runs of the raw-pointer problems on a runtime that serves
       every call                                                          *)
Section ProblemProgress.
Import util problem.
Context {DS : Type}.
Implicit Types p : Problem DS.

(** No call still to come fails. *)
Definition calm (r : Runtime) : Prop :=
  Forall (fun e => failed e = false) (pending r).

(** On a calm runtime the step returns normally and leaves the runtime
    calm. *)
Definition succeeds {A} (m : M (S := Problem DS) A) : Prop :=
  forall p, calm (rt p) -> exists a p', m p = (inr a, p') /\ calm (rt p').

Lemma call_calm r :
  calm r -> failed (fst (call r)) = false /\ calm (snd (call r)).
Proof.
  unfold calm, call. destruct r as [[|e es] m]; cbn; intros H.
  - split; [reflexivity | constructor].
  - inversion H; subst. split; assumption.
Qed.

Lemma succeeds_ret {A} (a : A) : succeeds (ret a).
Proof. intros p Hp. eauto. Qed.

Lemma succeeds_get : succeeds (get (S := Problem DS)).
Proof. intros p Hp. unfold get. eauto. Qed.

Lemma succeeds_bind {A B} (m : M A) (k : A -> M B) :
  succeeds m -> (forall a, succeeds (k a)) -> succeeds (bind m k).
Proof.
  intros Hm Hk p Hp. destruct (Hm p Hp) as (a & p1 & E & H1).
  destruct (Hk a p1 H1) as (b & p2 & E2 & H2).
  exists b, p2. unfold bind. rewrite E. auto.
Qed.

Lemma succeeds_modify (f : Problem DS -> Problem DS) :
  (forall p, calm (rt p) -> calm (rt (f p))) -> succeeds (modify f).
Proof. intros Hf p Hp. unfold modify. eauto. Qed.

Lemma succeeds_unchecked : succeeds (unchecked (DS := DS) call).
Proof.
  apply succeeds_modify. intros p Hp. cbn. apply call_calm. exact Hp.
Qed.

Lemma succeeds_kernel {T} (f : field DS T) k : succeeds (kernel f k).
Proof. apply succeeds_modify. intros p Hp. exact Hp. Qed.

Lemma succeeds_rt_call :
  succeeds (try (rt_call (DS := DS)
                   (fun r => let (e, r') := call r in (GRError e, r')))).
Proof.
  intros p Hp. unfold try, rt_call, GRError.
  destruct (call_calm _ Hp) as [Hf Hc].
  destruct (call (rt p)) as [e r]. cbn in Hf, Hc. rewrite Hf. eauto.
Qed.

Lemma succeeds_malloc_struct :
  succeeds (try (fun p : Problem DS =>
                   match cudaMalloc tt 1 (rt p) with
                   | (e, Some _, r) =>
                       (GRError e, set_rt r (set_d_data_slice true p))
                   | (e, None, r) => (GRError e, set_rt r p)
                   end)).
Proof.
  intros p Hp. unfold try, cudaMalloc, GRError.
  destruct (call_calm _ Hp) as [Hf Hc].
  destruct (call (rt p)) as [e r]. cbn in Hf, Hc. rewrite Hf. rewrite Hf.
  eauto.
Qed.

Lemma succeeds_malloc_member {T} (f : field DS T) fill n :
  succeeds (malloc_member f fill n).
Proof.
  intros p Hp. unfold malloc_member, try, cudaMalloc, GRError.
  destruct (call_calm _ Hp) as [Hf Hc].
  destruct (call (rt p)) as [e r]. cbn in Hf, Hc. rewrite Hf. rewrite Hf.
  eauto.
Qed.

Lemma succeeds_malloc_if_null {T} (f : field DS T) fill n :
  succeeds (malloc_if_null f fill n).
Proof.
  apply succeeds_bind; [apply succeeds_get|]. intros p.
  destruct (fget f (data_slice p));
    [apply succeeds_ret | apply succeeds_malloc_member].
Qed.

Lemma succeeds_memcpy_cell {T} (f : field DS T) i v :
  succeeds (memcpy_cell f i v).
Proof.
  intros p Hp. unfold memcpy_cell, try, GRError.
  destruct (call_calm _ Hp) as [Hf Hc].
  destruct (call (rt p)) as [e r]. cbn in Hf, Hc. rewrite Hf. rewrite Hf.
  eauto.
Qed.

Lemma succeeds_memcpy_struct : succeeds (memcpy_struct (DS := DS)).
Proof.
  intros p Hp. unfold memcpy_struct, try, GRError.
  destruct (call_calm _ Hp) as [Hf Hc].
  destruct (call (rt p)) as [e r]. cbn in Hf, Hc. rewrite Hf. eauto.
Qed.

Lemma succeeds_run (m : M unit) p :
  succeeds m -> calm (rt p) ->
  fst (run m p) = cudaSuccess /\ calm (rt (snd (run m p))).
Proof.
  intros Hm Hp. destruct (Hm p Hp) as ([] & p' & E & H').
  unfold run. rewrite E. auto.
Qed.

(** A copy to the host on a calm runtime. *)
Lemma memcpy_to_host_calm {T} (f : field DS T) n (h d : list T) p :
  calm (rt p) -> fget f (data_slice p) = Some d ->
  exists r,
    memcpy_to_host f n h p = (cudaSuccess, copy_cells h d n, set_rt r p) /\
    calm r.
Proof.
  intros Hp Hd. unfold memcpy_to_host, cudaMemcpy, GRError. rewrite Hd.
  destruct (call_calm _ Hp) as [Hf Hc].
  destruct (call (rt p)) as [e r]. cbn in Hf, Hc. rewrite Hf.
  exists r. split; [|exact Hc].
  unfold failed in Hf. apply negb_false_iff, Z.eqb_eq in Hf. subst e.
  reflexivity.
Qed.

End ProblemProgress.

(* ===================================================================== *)
(** ** Theorems: the life cycle of a HITS problem                          *)
Section HITSRuns.
Import util problem hits.

(** Every array of the slice is allocated with the size [Init] gives it. *)
Definition sized (n : Z) (ds : DataSlice) : Prop :=
  exists hc ac hn an ind outd dl sn,
    ds = mkDataSlice (Some hc) (Some ac) (Some hn) (Some an) (Some ind)
           (Some outd) (Some dl) (Some sn) (d_labels ds) /\
    length hc = Z.to_nat n /\ length ac = Z.to_nat n /\
    length hn = Z.to_nat n /\ length an = Z.to_nat n /\
    length ind = Z.to_nat n /\ length outd = Z.to_nat n /\
    length dl = 1%nat /\ length sn = 1%nat.

(** The slice [Reset] leaves behind. *)
Definition reset_slice (src : Z) (delta : Value) (n : Z) (ro co : list Z)
  : DataSlice :=
  mkDataSlice
    (Some (St 1%float (replicate (Z.to_nat n) 0%float) src))
    (Some (replicate (Z.to_nat n) 0%float))
    (Some (replicate (Z.to_nat n) 0%float))
    (Some (replicate (Z.to_nat n) 0%float))
    (Some (MemsetMadVectorKernel (replicate (Z.to_nat n) 0) co (drop 1 co) (-1) n))
    (Some (MemsetMadVectorKernel (replicate (Z.to_nat n) 0) ro (drop 1 ro) (-1) n))
    (Some [delta]) (Some [src]) None.

Ltac pnorm H :=
  cbv [bind kernel modify unchecked ret get
       set_rt set_slice set_keys0 set_d_data_slice set_sizes
       rt num_gpus nodes edges d_row_offsets d_column_offsets d_keys0
       data_slice d_data_slice fget fset fmap option_fmap option_map
       hrank_curr arank_curr hrank_next arank_next in_degrees out_degrees
       delta_ src_node labels_
       d_hrank_curr d_arank_curr d_hrank_next d_arank_next d_in_degrees
       d_out_degrees d_delta d_src_node d_labels] in H.

(** One call of a successful run: its effect on the problem, normalised. *)
Ltac pstep H :=
  let H0 := fresh "H0" in
  let E := fresh "E" in
  apply bind_inr in H as (? & ? & H0 & H);
  try match type of H0 with _ = (inr ?x, _) =>
        match type of x with unit => destruct x end end;
  first
    [ apply rt_call_counted in H0 as (? & ? & E);
      [|intros; apply GRError_call_mallocs]
    | apply malloc_struct_inr in H0 as (? & ? & E)
    | apply malloc_member_inr in H0 as (? & ? & E)
    | apply memcpy_cell_inr in H0 as (? & ? & E)
    | apply memcpy_struct_inr in H0 as (? & ? & E)
    | pnorm H0; first [injection H0 as ? E | injection H0 as E];
      symmetry in E ];
  pnorm E; subst; cbn [nodes] in H.

Lemma sound_Reset_body src delta : sound (S := HITSProblem)
  (unchecked call ;;;
   p0 <- get ;;
   let nodes := nodes p0 in
   try (rt_call (fun r => let (e, r') := cudaSetDevice r in (GRError e, r'))) ;;;
   malloc_if_null hrank_curr 0%float nodes ;;;
   malloc_if_null arank_curr 0%float nodes ;;;
   malloc_if_null hrank_next 0%float nodes ;;;
   malloc_if_null arank_next 0%float nodes ;;;
   malloc_if_null in_degrees 0 nodes ;;;
   malloc_if_null out_degrees 0 nodes ;;;
   malloc_if_null delta_ 0%float 1 ;;;
   malloc_if_null src_node 0 1 ;;;
   modify (fun p => set_slice (fset labels_ None (data_slice p)) p) ;;;
   kernel hrank_curr (fun _ d => MemsetKernel d 0%float nodes) ;;;
   kernel arank_curr (fun _ d => MemsetKernel d 0%float nodes) ;;;
   kernel hrank_next (fun _ d => MemsetKernel d 0%float nodes) ;;;
   kernel arank_next (fun _ d => MemsetKernel d 0%float nodes) ;;;
   kernel out_degrees (fun _ d => MemsetKernel d 0 nodes) ;;;
   kernel in_degrees (fun _ d => MemsetKernel d 0 nodes) ;;;
   kernel out_degrees
     (fun p d => MemsetMadVectorKernel d (d_row_offsets p)
                   (drop 1 (d_row_offsets p)) (-1) nodes) ;;;
   kernel in_degrees
     (fun p d => MemsetMadVectorKernel d (d_column_offsets p)
                   (drop 1 (d_column_offsets p)) (-1) nodes) ;;;
   memcpy_struct ;;;
   memcpy_cell hrank_curr src 1%float ;;;
   memcpy_cell delta_ 0 delta ;;;
   memcpy_cell src_node 0 src ;;;
   modify (fun p => set_keys0 (MemsetIdxKernel (d_keys0 p) nodes) p))%dev.
Proof.
  repeat first [ apply sound_unchecked | apply sound_get | apply sound_try
               | apply sound_malloc_if_null | apply sound_kernel
               | apply sound_modify | apply sound_ret
               | apply sound_bind; [|intros ?] ].
Qed.

(** A successful [Reset] of a sized slice, call by call. *)
Lemma Reset_inr src delta (p p' : HITSProblem) :
  sized (nodes p) (data_slice p) -> 0 <= nodes p ->
  Reset src delta p = (cudaSuccess, p') ->
  data_slice p' =
    reset_slice src delta (nodes p) (d_row_offsets p) (d_column_offsets p) /\
  d_keys0 p' = MemsetIdxKernel (d_keys0 p) (nodes p) /\
  nodes p' = nodes p /\ edges p' = edges p /\ num_gpus p' = num_gpus p /\
  d_row_offsets p' = d_row_offsets p /\
  d_column_offsets p' = d_column_offsets p /\
  mallocs (rt p') = mallocs (rt p).
Proof.
  intros (hc & ac & hn & an & ind & outd & dl & sn & Hds &
          L1 & L2 & L3 & L4 & L5 & L6 & L7 & L8) Hn H.
  unfold Reset in H. apply run_success in H; [|apply sound_Reset_body].
  destruct p as [r g n e ro co k ds b].
  cbn [nodes data_slice d_row_offsets d_column_offsets d_keys0 rt num_gpus edges]
    in Hds, L1, L2, L3, L4, L5, L6, Hn |- *.
  rewrite Hds in H. clear Hds. generalize dependent (d_labels ds). intros lb H.
  unfold malloc_if_null in H.
  repeat pstep H. pnorm H. injection H as <-.
  repeat match goal with H : mallocs _ = _ |- _ => progress cbn in H end.
  cbn. unfold reset_slice.
  rewrite !MemsetKernel_all by (rewrite ?length_replicate; lia).
  rewrite L1, L2, L3, L4, L5, L6.
  destruct dl as [|d0 [|? ?]]; try discriminate.
  destruct sn as [|s0 [|? ?]]; try discriminate.
  cbn. rewrite call_mallocs in *.
  repeat split; try reflexivity. lia.
Qed.

Lemma succeeds_Reset_body src delta (p : HITSProblem) :
  calm (rt p) ->
  fst (Reset src delta p) = cudaSuccess /\ calm (rt (snd (Reset src delta p))).
Proof.
  intros Hp. unfold Reset. apply succeeds_run; [|exact Hp].
  repeat first [ apply succeeds_unchecked | apply succeeds_get
               | apply succeeds_rt_call | apply succeeds_malloc_if_null
               | apply succeeds_kernel | apply succeeds_memcpy_struct
               | apply succeeds_memcpy_cell
               | apply succeeds_modify; intros ? Hc; exact Hc
               | apply succeeds_bind; [|intros ?] ].
Qed.

Lemma succeeds_Init_body g n e (p : HITSProblem) :
  calm (rt p) ->
  fst (Init g n e p) = cudaSuccess /\ calm (rt (snd (Init g n e p))).
Proof.
  intros Hp. unfold Init. apply succeeds_run; [|exact Hp].
  apply succeeds_bind; [apply succeeds_modify; intros ? Hc; exact Hc|intros _].
  apply succeeds_bind; [apply succeeds_unchecked|intros _].
  destruct (g <=? 1); [|apply succeeds_ret].
  repeat first [ apply succeeds_rt_call | apply succeeds_malloc_struct
               | apply succeeds_malloc_member
               | apply succeeds_modify; intros ? Hc; exact Hc
               | apply succeeds_bind; [|intros ?] ].
Qed.

Lemma Init_sized g n e (p p' : HITSProblem) :
  g <= 1 -> Init g n e p = (cudaSuccess, p') ->
  sized n (data_slice p') /\ d_labels (data_slice p') = None.
Proof.
  intros Hg H. destruct (HITS_Init_success g n e p p' Hg H) as (-> & _).
  split; [|reflexivity].
  do 8 eexists. split; [reflexivity|].
  rewrite !length_replicate. repeat split; reflexivity.
Qed.

(** [Extract] on one GPU when no runtime call fails. *)
Lemma Extract_calm h_hrank h_arank hc ac (p : HITSProblem) :
  num_gpus p = 1 -> calm (rt p) ->
  d_hrank_curr (data_slice p) = Some hc ->
  d_arank_curr (data_slice p) = Some ac ->
  exists p',
    Extract h_hrank h_arank p =
      (cudaSuccess, copy_cells h_hrank hc (nodes p),
       copy_cells h_arank ac (nodes p), p') /\
    data_slice p' = data_slice p.
Proof.
  intros Hg Hp Hh Ha. unfold Extract. rewrite Hg. cbn [Z.eqb Pos.eqb].
  unfold rt_call, cudaSetDevice.
  destruct (call_calm _ Hp) as [Hf Hc].
  destruct (call (rt p)) as [e0 r0]. cbn in Hf, Hc. unfold GRError at 1.
  rewrite Hf.
  destruct (memcpy_to_host_calm hrank_curr (nodes (set_rt r0 p)) h_hrank hc
              (set_rt r0 p) Hc Hh) as (r1 & E1 & Hc1).
  rewrite E1. cbn [failed cudaSuccess Z.eqb negb].
  destruct (memcpy_to_host_calm arank_curr (nodes (set_rt r1 (set_rt r0 p)))
              h_arank ac (set_rt r1 (set_rt r0 p)) Hc1 Ha) as (r2 & E2 & Hc2).
  rewrite E2. eexists. split; reflexivity.
Qed.

(** A problem over a three-vertex graph before [Init]: the offsets of the
    hub graph and of the authority graph, and a frontier queue of three
    cells. *)
Definition hits_new : HITSProblem :=
  mkProblem healthy 0 0 0 [0; 1; 2; 3] [0; 0; 1; 3] [7; 7; 7] new_DataSlice false.

(** X1: a successful single-GPU [HITSProblem::Init] has made exactly nine
    device allocations (the slice struct and eight arrays), every rank and
    degree array has [nodes] cells, [d_delta] and [d_src_node] have one,
    [d_labels] is NULL, and the sizes are those of the hub graph. *)
Theorem HITS_Init_allocates_the_slice g n e (p p' : HITSProblem) :
  g <= 1 -> Init g n e p = (cudaSuccess, p') ->
  sized n (data_slice p') /\ d_labels (data_slice p') = None /\
  mallocs (rt p') = (mallocs (rt p) + 9)%nat /\
  num_gpus p' = g /\ nodes p' = n /\ edges p' = e.
Proof.
  intros Hg H. destruct (Init_sized g n e p p' Hg H) as [Hs Hl].
  destruct (HITS_Init_success g n e p p' Hg H) as (_ & Hm & Hg' & Hn & He & _).
  repeat split; assumption.
Qed.

Lemma HITS_Init_allocates_the_slice_witness :
  let p' := snd (Init 1 3 3 hits_new) in
  sized 3 (data_slice p') /\ d_labels (data_slice p') = None /\
  mallocs (rt p') = 9%nat /\
  num_gpus p' = 1 /\ nodes p' = 3 /\ edges p' = 3.
Proof.
  intros p'.
  apply (HITS_Init_allocates_the_slice 1 3 3 hits_new p').
  - lia.
  - vm_compute. reflexivity.
Defined.

(** X2: with more than one GPU [HITSProblem::Init] only records the sizes
    and calls [ProblemBase::Init]; it allocates nothing, leaves the data
    slice as it was and reports success (the multi-GPU branch is a TODO). *)
Theorem HITS_Init_multi_gpu_allocates_nothing g n e (p : HITSProblem) :
  1 < g ->
  Init g n e p = (cudaSuccess, set_rt (snd (call (rt p))) (set_sizes g n e p)) /\
  mallocs (rt (snd (Init g n e p))) = mallocs (rt p) /\
  data_slice (snd (Init g n e p)) = data_slice p.
Proof.
  intros Hg.
  assert (E : Init g n e p =
              (cudaSuccess, set_rt (snd (call (rt p))) (set_sizes g n e p))).
  { unfold Init, run, bind, modify, unchecked.
    destruct (Z.leb_spec g 1); [lia|]. reflexivity. }
  rewrite E. cbn. rewrite call_mallocs. auto.
Qed.

Lemma HITS_Init_multi_gpu_allocates_nothing_witness :
  Init 2 3 3 hits_new = (cudaSuccess, set_rt healthy (set_sizes 2 3 3 hits_new)) /\
  mallocs (rt (snd (Init 2 3 3 hits_new))) = 0%nat /\
  data_slice (snd (Init 2 3 3 hits_new)) = new_DataSlice.
Proof. apply (HITS_Init_multi_gpu_allocates_nothing 2 3 3 hits_new). lia. Defined.

(** X3: when no runtime call fails, [Init] returns [cudaSuccess], and so
    does the [Reset] that follows it. *)
Theorem HITS_Init_then_Reset_succeed g n e src delta (p : HITSProblem) :
  calm (rt p) ->
  fst (Init g n e p) = cudaSuccess /\
  fst (Reset src delta (snd (Init g n e p))) = cudaSuccess.
Proof.
  intros Hp. destruct (succeeds_Init_body g n e p Hp) as [E Hc].
  split; [exact E|]. apply succeeds_Reset_body. exact Hc.
Qed.

Lemma HITS_Init_then_Reset_succeed_witness :
  fst (Init 1 3 3 hits_new) = cudaSuccess /\
  fst (Reset 1 0.5%float (snd (Init 1 3 3 hits_new))) = cudaSuccess.
Proof.
  apply (HITS_Init_then_Reset_succeed 1 3 3 1 0.5%float hits_new).
  constructor.
Defined.

(** X4: whatever the arrays held before, a successful [Reset] leaves every
    rank at 0 except the hub rank of [src], which is 1; the degree arrays
    are recomputed from the offsets, [d_delta] and [d_src_node] hold the
    arguments, [d_labels] is NULL, and the first frontier queue lists the
    vertices [0 .. nodes-1]. *)
Theorem HITS_Reset_reinitialises src delta (p p' : HITSProblem) :
  num_gpus p = 1 ->
  sized (nodes p) (data_slice p) ->
  0 <= src < nodes p ->
  Reset src delta p = (cudaSuccess, p') ->
  data_slice p' =
    mkDataSlice
      (Some (St 1%float (replicate (Z.to_nat (nodes p)) 0%float) src))
      (Some (replicate (Z.to_nat (nodes p)) 0%float))
      (Some (replicate (Z.to_nat (nodes p)) 0%float))
      (Some (replicate (Z.to_nat (nodes p)) 0%float))
      (Some (MemsetMadVectorKernel (replicate (Z.to_nat (nodes p)) 0)
               (d_column_offsets p) (drop 1 (d_column_offsets p)) (-1) (nodes p)))
      (Some (MemsetMadVectorKernel (replicate (Z.to_nat (nodes p)) 0)
               (d_row_offsets p) (drop 1 (d_row_offsets p)) (-1) (nodes p)))
      (Some [delta]) (Some [src]) None /\
  d_keys0 p' = MemsetIdxKernel (d_keys0 p) (nodes p) /\
  mallocs (rt p') = mallocs (rt p).
Proof.
  intros _ Hs Hsrc H.
  destruct (Reset_inr src delta p p' Hs ltac:(lia) H) as (E & Ek & _ & _ & _ & _ & _ & Em).
  auto.
Qed.

Lemma HITS_Reset_reinitialises_witness :
  let p := snd (Init 1 3 3 hits_new) in
  let p' := snd (Reset 1 0.5%float p) in
  data_slice p' =
    mkDataSlice (Some [0; 1; 0]%float) (Some [0; 0; 0]%float)
      (Some [0; 0; 0]%float) (Some [0; 0; 0]%float)
      (Some [0; 1; 2]) (Some [1; 1; 1])
      (Some [0.5%float]) (Some [1]) None /\
  d_keys0 p' = [0; 1; 2] /\
  mallocs (rt p') = mallocs (rt p).
Proof.
  intros p p'.
  apply (HITS_Reset_reinitialises 1 0.5%float p p').
  - reflexivity.
  - do 8 eexists. vm_compute. repeat split; reflexivity.
  - vm_compute. split; [discriminate | reflexivity].
  - vm_compute. reflexivity.
Defined.

(** X5: once every array of the slice is allocated, [Reset] makes no device
    allocation and leaves every array allocated, whether it returns
    [cudaSuccess] or fails part-way. *)
Theorem HITS_Reset_allocates_only_if_necessary src delta (p : HITSProblem) :
  allocated (data_slice p) ->
  mallocs (rt (snd (Reset src delta p))) = mallocs (rt p) /\
  allocated (data_slice (snd (Reset src delta p))).
Proof. apply HITS_Reset_keeps_allocation. Qed.

Lemma HITS_Reset_allocates_only_if_necessary_witness :
  let p := set_rt (mkRuntime [0; 0; cudaErrorLaunchFailure] 9)
             (snd (Init 1 3 3 hits_new)) in
  fst (Reset 1 0.5%float p) = cudaErrorLaunchFailure /\
  mallocs (rt (snd (Reset 1 0.5%float p))) = 9%nat /\
  allocated (data_slice (snd (Reset 1 0.5%float p))).
Proof.
  intros p. split; [vm_compute; reflexivity|].
  apply (HITS_Reset_allocates_only_if_necessary 1 0.5%float p).
  vm_compute. repeat split; eexists; reflexivity.
Defined.

(** X6: with [num_gpus] other than 1, [Extract] touches neither the runtime
    nor the buffers and reports success (the multi-GPU branch is a TODO);
    this includes [num_gpus = 0], for which [Init] does allocate. *)
Theorem HITS_Extract_copies_nothing_unless_one_gpu h_hrank h_arank (p : HITSProblem) :
  num_gpus p <> 1 ->
  Extract h_hrank h_arank p = (cudaSuccess, h_hrank, h_arank, p).
Proof.
  intros Hg. unfold Extract. destruct (Z.eqb_spec (num_gpus p) 1); [contradiction|].
  reflexivity.
Qed.

Lemma HITS_Extract_copies_nothing_unless_one_gpu_witness :
  let p := snd (Reset 1 0.5%float (snd (Init 0 3 3 hits_new))) in
  mallocs (rt p) = 9%nat /\
  Extract [9; 9; 9]%float [9; 9; 9]%float p
  = (cudaSuccess, [9; 9; 9]%float, [9; 9; 9]%float, p).
Proof.
  intros p. split; [vm_compute; reflexivity|].
  apply (HITS_Extract_copies_nothing_unless_one_gpu _ _ p).
  vm_compute. discriminate.
Defined.

(** X7: when no runtime call fails, [Extract] on one GPU returns
    [cudaSuccess] with the first [nodes] cells of the two buffers replaced
    by those of [d_hrank_curr] and [d_arank_curr]. *)
Theorem HITS_Extract_copies_current_ranks h_hrank h_arank hc ac (p : HITSProblem) :
  num_gpus p = 1 -> calm (rt p) ->
  d_hrank_curr (data_slice p) = Some hc ->
  d_arank_curr (data_slice p) = Some ac ->
  exists p',
    Extract h_hrank h_arank p =
      (cudaSuccess, copy_cells h_hrank hc (nodes p),
       copy_cells h_arank ac (nodes p), p') /\
    data_slice p' = data_slice p.
Proof. apply Extract_calm. Qed.

Lemma HITS_Extract_copies_current_ranks_witness :
  let p := snd (Reset 1 0.5%float (snd (Init 1 3 3 hits_new))) in
  exists p',
    Extract [9; 9; 9; 9]%float [9; 9; 9; 9]%float p =
      (cudaSuccess, [0; 1; 0; 9]%float, [0; 0; 0; 9]%float, p') /\
    data_slice p' = data_slice p.
Proof.
  intros p.
  apply (HITS_Extract_copies_current_ranks [9; 9; 9; 9]%float [9; 9; 9; 9]%float
           [0; 1; 0]%float [0; 0; 0]%float p).
  - reflexivity.
  - constructor.
  - vm_compute. reflexivity.
  - vm_compute. reflexivity.
Defined.

(** X8: when [cudaSetDevice] succeeds and the copy of the hub ranks fails,
    [Extract] returns that failure, leaves both buffers as they were and
    does not attempt the second copy. *)
Theorem HITS_Extract_returns_first_copy_failure h_hrank h_arank e0 e1 es m
    (p : HITSProblem) :
  num_gpus p = 1 -> rt p = mkRuntime (e0 :: e1 :: es) m ->
  failed e0 = false -> failed e1 = true ->
  Extract h_hrank h_arank p =
    (e1, h_hrank, h_arank, set_rt (mkRuntime es m) p).
Proof.
  intros Hg Hr H0 H1. unfold Extract. rewrite Hg. cbn [Z.eqb Pos.eqb].
  unfold rt_call, cudaSetDevice, call. rewrite Hr. cbn [pending mallocs].
  unfold GRError at 1. rewrite H0.
  unfold memcpy_to_host, cudaMemcpy, call, GRError.
  cbn [rt set_rt pending mallocs data_slice].
  destruct (fget hrank_curr (data_slice p)); cbn [pending mallocs];
    rewrite !H1; reflexivity.
Qed.

Lemma HITS_Extract_returns_first_copy_failure_witness :
  let p := set_rt (mkRuntime [0; cudaErrorLaunchFailure; 0] 9)
             (snd (Reset 1 0.5%float (snd (Init 1 3 3 hits_new)))) in
  Extract [9; 9; 9]%float [9; 9; 9]%float p =
    (cudaErrorLaunchFailure, [9; 9; 9]%float, [9; 9; 9]%float,
     set_rt (mkRuntime [0] 9) p).
Proof.
  intros p.
  apply (HITS_Extract_returns_first_copy_failure _ _ 0 cudaErrorLaunchFailure [0] 9 p);
    reflexivity.
Defined.

(** X9: on a runtime where no call fails, [Init] for one GPU, [Reset] and
    [Extract] in a row hand back hub rank 1 for [src] and 0 for every other
    vertex, and authority rank 0 for every vertex. *)
Theorem HITS_Init_Reset_Extract n e src delta h_hrank h_arank (p : HITSProblem) :
  calm (rt p) -> 0 <= src < n ->
  length h_hrank = Z.to_nat n -> length h_arank = Z.to_nat n ->
  let p1 := snd (Init 1 n e p) in
  let p2 := snd (Reset src delta p1) in
  let r := Extract h_hrank h_arank p2 in
  fst (fst (fst r)) = cudaSuccess /\
  snd (fst (fst r)) = St 1%float (replicate (Z.to_nat n) 0%float) src /\
  snd (fst r) = replicate (Z.to_nat n) 0%float.
Proof.
  intros Hp Hsrc Lh La p1 p2 r.
  destruct (succeeds_Init_body 1 n e p Hp) as [E1 Hc1].
  destruct (succeeds_Reset_body src delta p1 Hc1) as [E2 Hc2].
  assert (I : Init 1 n e p = (cudaSuccess, p1)).
  { subst p1. destruct (Init 1 n e p); cbn in *; congruence. }
  assert (R : Reset src delta p1 = (cudaSuccess, p2)).
  { subst p2. destruct (Reset src delta p1); cbn in *; congruence. }
  destruct (HITS_Init_success 1 n e p p1 ltac:(lia) I)
    as (_ & _ & _ & Hn & _).
  destruct (Init_sized 1 n e p p1 ltac:(lia) I) as [Hs _].
  rewrite <- Hn in Hs.
  destruct (Reset_inr src delta p1 p2 Hs ltac:(lia) R)
    as (Hds & _ & Hn2 & _ & Hg2 & _).
  assert (G1 : num_gpus p1 = 1)
    by (destruct (HITS_Init_success 1 n e p p1 ltac:(lia) I)
          as (_ & _ & G & _); exact G).
  destruct (Extract_calm h_hrank h_arank
              (St 1%float (replicate (Z.to_nat (nodes p1)) 0%float) src)
              (replicate (Z.to_nat (nodes p1)) 0%float) p2)
    as (p3 & E3 & _);
    [congruence | exact Hc2 | rewrite Hds; reflexivity
    | rewrite Hds; reflexivity |].
  subst r. rewrite E3. cbn [fst snd]. rewrite Hn2, Hn.
  split; [reflexivity|].
  unfold copy_cells.
  rewrite !take_ge, !drop_ge, !app_nil_r
    by (rewrite ?St_length, ?length_replicate; lia).
  split; reflexivity.
Qed.

Lemma HITS_Init_Reset_Extract_witness :
  let p2 := snd (Reset 1 0.5%float (snd (Init 1 3 3 hits_new))) in
  let r := Extract [9; 9; 9]%float [9; 9; 9]%float p2 in
  fst (fst (fst r)) = cudaSuccess /\
  snd (fst (fst r)) = [0; 1; 0]%float /\
  snd (fst r) = [0; 0; 0]%float.
Proof.
  apply (HITS_Init_Reset_Extract 3 3 1 0.5%float [9; 9; 9]%float [9; 9; 9]%float
           hits_new).
  - constructor.
  - lia.
  - reflexivity.
  - reflexivity.
Defined.

End HITSRuns.

(* ===================================================================== *)
(** ** Theorems: the life cycle of a BC problem                            *)
Section BCRuns.
Import util problem bc.

(** Every array of the slice is allocated. *)
Definition bc_allocated (ds : DataSlice) : Prop :=
  is_Some (d_labels ds) /\ is_Some (d_preds ds) /\
  is_Some (d_bc_values ds) /\ is_Some (d_ebc_values ds) /\
  is_Some (d_sigmas ds) /\ is_Some (d_deltas ds) /\
  is_Some (d_src_node ds) /\ is_Some (d_forward_output ds).

Ltac bnorm H :=
  cbv [bind kernel modify unchecked ret get
       set_rt set_slice set_keys0 set_d_data_slice set_sizes
       rt num_gpus nodes edges d_row_offsets d_column_offsets d_keys0
       data_slice d_data_slice fget fset fmap option_fmap option_map
       labels_ preds_ bc_values ebc_values sigmas deltas src_node
       forward_output new_DataSlice
       d_labels d_preds d_bc_values d_ebc_values d_sigmas d_deltas
       d_src_node d_forward_output] in H.

Lemma memcpy_keys0_inr src (p p' : BCProblem) :
  try (fun p : BCProblem =>
         let (e, r) := call (rt p) in
         if failed e then (GRError e, set_rt r p)
         else (GRError e, set_rt r (set_keys0 (St src (d_keys0 p) 0) p))) p
  = (inr tt, p') ->
  exists r, mallocs r = mallocs (rt p) /\
            p' = set_rt r (set_keys0 (St src (d_keys0 p) 0) p).
Proof.
  intros H. apply try_inr in H as (e & H & Hf).
  pose proof (call_mallocs (rt p)) as Hm.
  destruct (call (rt p)) as [e' r]. cbn in Hm. unfold GRError in H.
  destruct (failed e') eqn:E; inversion H; subst; [congruence|]. eauto.
Qed.

(** One call of a successful run: its effect on the problem, normalised. *)
Ltac bstep H :=
  let H0 := fresh "H0" in
  let E := fresh "E" in
  apply bind_inr in H as (? & ? & H0 & H);
  try match type of H0 with _ = (inr ?x, _) =>
        match type of x with unit => destruct x end end;
  first
    [ apply rt_call_counted in H0 as (? & ? & E);
      [|intros; apply GRError_call_mallocs]
    | apply malloc_struct_inr in H0 as (? & ? & E)
    | apply malloc_member_inr in H0 as (? & ? & E)
    | apply memcpy_cell_inr in H0 as (? & ? & E)
    | apply memcpy_struct_inr in H0 as (? & ? & E)
    | apply memcpy_keys0_inr in H0 as (? & ? & E)
    | bnorm H0; first [injection H0 as ? E | injection H0 as E];
      symmetry in E ];
  bnorm E; subst; cbn [nodes] in H.

Ltac bsound :=
  repeat first [ apply sound_unchecked | apply sound_get | apply sound_try
               | apply sound_malloc_if_null | apply sound_malloc_member
               | apply sound_kernel | apply sound_memcpy_struct
               | apply sound_memcpy_cell
               | apply sound_modify | apply sound_ret
               | apply sound_bind; [|intros ?] ].

(** A successful single-GPU [Init], call by call. *)
Lemma BC_Init_inr g n e (p p' : BCProblem) :
  g <= 1 -> 0 <= n -> 0 <= e ->
  Init g n e p = (cudaSuccess, p') ->
  data_slice p' =
    mkDataSlice (Some (replicate (Z.to_nat n) 0)) (Some (replicate (Z.to_nat n) 0))
      (Some (replicate (Z.to_nat n) 0%float)) (Some (replicate (Z.to_nat e) 0%float))
      (Some (replicate (Z.to_nat n) 0%float)) (Some (replicate (Z.to_nat n) 0%float))
      (Some [0]) (Some (replicate (Z.to_nat n) 0)) /\
  mallocs (rt p') = (mallocs (rt p) + 9)%nat /\
  num_gpus p' = g /\ nodes p' = n /\ edges p' = e /\
  d_keys0 p' = d_keys0 p.
Proof.
  intros Hg Hn He H. unfold Init in H.
  destruct (Z.leb_spec g 1); [|lia].
  apply run_success in H; [|bsound].
  destruct p as [r g0 n0 e0 ro co k ds b].
  repeat bstep H.
  apply malloc_member_inr in H as (? & ? & E). bnorm E. subst.
  repeat match goal with H : mallocs _ = _ |- _ => progress cbn in H end.
  cbn. rewrite !MemsetKernel_all by (rewrite ?length_replicate; lia).
  rewrite !length_replicate. rewrite call_mallocs in *.
  repeat split; try reflexivity. lia.
Qed.

(** A successful [Reset] of an allocated slice, call by call. *)
Lemma BC_Reset_inr src (p p' : BCProblem) lb pr bv ev sg dl sn fo :
  data_slice p =
    mkDataSlice (Some lb) (Some pr) (Some bv) (Some ev) (Some sg) (Some dl)
      (Some sn) (Some fo) ->
  length lb = Z.to_nat (nodes p) -> length pr = Z.to_nat (nodes p) ->
  length sg = Z.to_nat (nodes p) -> length dl = Z.to_nat (nodes p) ->
  length sn = 1%nat -> 0 <= nodes p ->
  Reset src p = (cudaSuccess, p') ->
  data_slice p' =
    mkDataSlice
      (Some (St 0 (replicate (Z.to_nat (nodes p)) (-1)) src))
      (Some (St (-1) (replicate (Z.to_nat (nodes p)) (-2)) src))
      (Some bv) (Some ev)
      (Some (St 1%float (replicate (Z.to_nat (nodes p)) 0%float) src))
      (Some (replicate (Z.to_nat (nodes p)) 0%float))
      (Some [src]) (Some fo) /\
  d_keys0 p' = St src (d_keys0 p) 0 /\
  nodes p' = nodes p /\ edges p' = edges p /\ num_gpus p' = num_gpus p /\
  mallocs (rt p') = mallocs (rt p).
Proof.
  intros Hds L1 L2 L3 L4 L5 Hn H.
  unfold Reset in H. apply run_success in H; [|bsound].
  destruct p as [r g n e ro co k ds b].
  cbn [nodes data_slice d_keys0 rt num_gpus edges] in Hds, L1, L2, L3, L4, Hn |- *.
  subst ds. unfold malloc_if_null in H.
  repeat bstep H.
  apply memcpy_cell_inr in H as (? & ? & E). bnorm E. subst.
  repeat match goal with H : mallocs _ = _ |- _ => progress cbn in H end.
  cbn. rewrite !MemsetKernel_all by (rewrite ?length_replicate; lia).
  rewrite L1, L2, L3, L4.
  destruct sn as [|s0 [|? ?]]; try discriminate.
  cbn. rewrite call_mallocs in *.
  repeat split; try reflexivity. lia.
Qed.

(** The accumulated values survive [Reset]. *)
Definition bc_kept (bv ev : list Value) (ds : DataSlice) : Prop :=
  bc_allocated ds /\ d_bc_values ds = Some bv /\ d_ebc_values ds = Some ev.

Ltac bc_field_facts :=
  unfold bc_kept, bc_allocated;
  first [ intros [] ? ((?&?&?&?&?&?&?&?)&?&?); cbn in *; repeat split; eauto
        | intros [] ((?&?&?&?&?&?&?&?)&?&?); cbn in *; repeat split; eauto ].

Lemma BC_Reset_keeps src bv ev (p : BCProblem) :
  bc_kept bv ev (data_slice p) ->
  mallocs (rt (snd (Reset src p))) = mallocs (rt p) /\
  bc_kept bv ev (data_slice (snd (Reset src p))).
Proof.
  intros HA. unfold Reset.
  apply (preserves_run (keeps (mallocs (rt p)) (bc_kept bv ev)));
    [|split; [reflexivity | exact HA]].
  repeat first
    [ apply keeps_unchecked
    | apply preserves_get
    | apply keeps_rt_call;
        [intros r; unfold cudaSetDevice, cudaGetDevice;
         pose proof (call_mallocs r); destruct (call r); assumption]
    | apply keeps_malloc_if_null; bc_field_facts
    | apply keeps_kernel; bc_field_facts
    | apply keeps_memcpy_cell; bc_field_facts
    | apply keeps_memcpy_struct
    | apply preserves_try; intros q [Hm Hk];
      pose proof (call_mallocs (rt q)) as Hc;
      destruct (call (rt q)) as [e r]; cbn in Hc; unfold GRError;
      destruct (failed e); cbn; (split; cbn; [congruence | exact Hk])
    | apply preserves_bind; [|intros ?] ].
Qed.

Lemma memcpy_opt_calm (f : field DataSlice Value) n h d (p : BCProblem) :
  calm (rt p) -> fget f (data_slice p) = Some d ->
  exists p',
    memcpy_opt f n h p = (cudaSuccess, (fun b => copy_cells b d n) <$> h, p') /\
    calm (rt p') /\ data_slice p' = data_slice p /\
    nodes p' = nodes p /\ edges p' = edges p /\
    (h = None -> p' = p).
Proof.
  intros Hp Hd. unfold memcpy_opt. destruct h as [b|].
  - destruct (memcpy_to_host_calm f n b d p Hp Hd) as (r & E & Hc).
    rewrite E. exists (set_rt r p). repeat split; try assumption.
    discriminate.
  - exists p. repeat split; assumption.
Qed.

(** [Extract] on one GPU when no runtime call fails. *)
Lemma BC_Extract_calm h_sigmas h_bc_values h_ebc_values bv ev sg (p : BCProblem) :
  num_gpus p = 1 -> calm (rt p) ->
  d_bc_values (data_slice p) = Some bv ->
  d_ebc_values (data_slice p) = Some ev ->
  d_sigmas (data_slice p) = Some sg ->
  exists p',
    Extract h_sigmas h_bc_values h_ebc_values p =
      (cudaSuccess,
       (fun b => copy_cells b sg (nodes p)) <$> h_sigmas,
       copy_cells h_bc_values bv (nodes p),
       (fun b => copy_cells b ev (edges p)) <$> h_ebc_values, p') /\
    data_slice p' = data_slice p /\
    (h_sigmas = None -> h_ebc_values = None ->
     rt p' = snd (call (snd (call (rt p))))).
Proof.
  intros Hg Hp Hb He Hs. unfold Extract. rewrite Hg. cbn [Z.eqb Pos.eqb].
  unfold rt_call, cudaSetDevice.
  destruct (call_calm _ Hp) as [Hf Hc].
  destruct (call (rt p)) as [e0 r0]. cbn in Hf, Hc. unfold GRError at 1.
  rewrite Hf.
  destruct (memcpy_to_host_calm bc_values (nodes (set_rt r0 p)) h_bc_values bv
              (set_rt r0 p) Hc Hb) as (r1 & E1 & Hc1).
  assert (R1 : r1 = snd (call r0)).
  { unfold memcpy_to_host, cudaMemcpy in E1.
    cbn [rt set_rt data_slice fget bc_values] in E1.
    rewrite Hb in E1. destruct (call r0) as [e1 r1'].
    destruct (failed e1); inversion E1; reflexivity. }
  rewrite E1. cbn [failed cudaSuccess Z.eqb negb].
  destruct (memcpy_opt_calm ebc_values (edges (set_rt r1 (set_rt r0 p)))
              h_ebc_values ev (set_rt r1 (set_rt r0 p)) Hc1 He)
    as (p2 & E2 & Hc2 & D2 & N2 & _ & Z2).
  rewrite E2. cbn [failed cudaSuccess Z.eqb negb].
  destruct (memcpy_opt_calm sigmas (nodes p2) h_sigmas sg p2 Hc2
              ltac:(rewrite D2; exact Hs))
    as (p3 & E3 & Hc3 & D3 & _ & _ & Z3).
  rewrite E3, N2. exists p3. split; [reflexivity|].
  split; [rewrite D3, D2; reflexivity|].
  intros -> ->. rewrite (Z3 eq_refl), (Z2 eq_refl), R1. reflexivity.
Qed.

(** A problem over a three-vertex graph with three edges before [Init]. *)
Definition bc_new : BCProblem :=
  mkProblem healthy 0 0 0 [0; 1; 2; 3] [] [7; 7; 7] new_DataSlice false.

(** X10: a successful single-GPU [BCProblem::Init] has made nine device
    allocations, every array is in place, and the two accumulators are
    zeroed: [d_bc_values] holds [nodes] zeros and [d_ebc_values] holds
    [edges] zeros. *)
Theorem BC_Init_zeroes_the_accumulators g n e (p p' : BCProblem) :
  g <= 1 -> 0 <= n -> 0 <= e ->
  Init g n e p = (cudaSuccess, p') ->
  bc_allocated (data_slice p') /\
  d_bc_values (data_slice p') = Some (replicate (Z.to_nat n) 0%float) /\
  d_ebc_values (data_slice p') = Some (replicate (Z.to_nat e) 0%float) /\
  mallocs (rt p') = (mallocs (rt p) + 9)%nat /\
  num_gpus p' = g /\ nodes p' = n /\ edges p' = e.
Proof.
  intros Hg Hn He H.
  destruct (BC_Init_inr g n e p p' Hg Hn He H) as (-> & Hm & G & N & E & _).
  unfold bc_allocated. cbn. repeat split; eauto.
Qed.

Lemma BC_Init_zeroes_the_accumulators_witness :
  let p' := snd (Init 1 3 4 bc_new) in
  bc_allocated (data_slice p') /\
  d_bc_values (data_slice p') = Some [0; 0; 0]%float /\
  d_ebc_values (data_slice p') = Some [0; 0; 0; 0]%float /\
  mallocs (rt p') = 9%nat /\
  num_gpus p' = 1 /\ nodes p' = 3 /\ edges p' = 4.
Proof.
  intros p'. apply (BC_Init_zeroes_the_accumulators 1 3 4 bc_new p').
  - lia.
  - lia.
  - lia.
  - vm_compute. reflexivity.
Defined.

(** X11: with every array of the slice in place, [BCProblem::Reset] leaves
    [d_bc_values] and [d_ebc_values] as they are and makes no device
    allocation, whether it returns [cudaSuccess] or fails part-way: the
    values accumulated over earlier sources survive. *)
Theorem BC_Reset_keeps_the_accumulators src bv ev (p : BCProblem) :
  bc_allocated (data_slice p) ->
  d_bc_values (data_slice p) = Some bv ->
  d_ebc_values (data_slice p) = Some ev ->
  d_bc_values (data_slice (snd (Reset src p))) = Some bv /\
  d_ebc_values (data_slice (snd (Reset src p))) = Some ev /\
  mallocs (rt (snd (Reset src p))) = mallocs (rt p).
Proof.
  intros HA Hb He.
  destruct (BC_Reset_keeps src bv ev p) as (Hm & _ & Hb' & He');
    [split; [exact HA | split; assumption]|].
  auto.
Qed.

Lemma BC_Reset_keeps_the_accumulators_witness :
  let p := set_slice
             (fset bc_values (Some [0.25; 0.5; 0.75]%float)
                (data_slice (snd (Init 1 3 3 bc_new))))
             (snd (Init 1 3 3 bc_new)) in
  d_bc_values (data_slice (snd (Reset 2 p))) = Some [0.25; 0.5; 0.75]%float /\
  d_ebc_values (data_slice (snd (Reset 2 p))) = Some [0; 0; 0]%float /\
  mallocs (rt (snd (Reset 2 p))) = mallocs (rt p).
Proof.
  intros p. apply (BC_Reset_keeps_the_accumulators 2 _ _ p).
  - vm_compute. repeat split; eexists; reflexivity.
  - vm_compute. reflexivity.
  - vm_compute. reflexivity.
Defined.

(** X12: whatever the arrays held before, a successful [BCProblem::Reset]
    leaves label -1, predecessor -2, sigma 0 and delta 0 at every vertex
    except [src], whose label is 0, predecessor -1 and sigma 1;
    [d_src_node] holds [src], which is also the first cell of the frontier
    queue; [d_bc_values], [d_ebc_values] and [d_forward_output] are not
    written. *)
Theorem BC_Reset_reinitialises src (p p' : BCProblem) lb pr bv ev sg dl sn fo :
  num_gpus p = 1 ->
  data_slice p =
    mkDataSlice (Some lb) (Some pr) (Some bv) (Some ev) (Some sg) (Some dl)
      (Some sn) (Some fo) ->
  length lb = Z.to_nat (nodes p) -> length pr = Z.to_nat (nodes p) ->
  length sg = Z.to_nat (nodes p) -> length dl = Z.to_nat (nodes p) ->
  length sn = 1%nat ->
  0 <= src < nodes p ->
  Reset src p = (cudaSuccess, p') ->
  data_slice p' =
    mkDataSlice
      (Some (St 0 (replicate (Z.to_nat (nodes p)) (-1)) src))
      (Some (St (-1) (replicate (Z.to_nat (nodes p)) (-2)) src))
      (Some bv) (Some ev)
      (Some (St 1%float (replicate (Z.to_nat (nodes p)) 0%float) src))
      (Some (replicate (Z.to_nat (nodes p)) 0%float))
      (Some [src]) (Some fo) /\
  d_keys0 p' = St src (d_keys0 p) 0.
Proof.
  intros _ Hds L1 L2 L3 L4 L5 Hsrc H.
  destruct (BC_Reset_inr src p p' lb pr bv ev sg dl sn fo Hds L1 L2 L3 L4 L5
              ltac:(lia) H) as (E & K & _).
  auto.
Qed.

Lemma BC_Reset_reinitialises_witness :
  let p := snd (Init 1 3 3 bc_new) in
  let p' := snd (Reset 2 p) in
  data_slice p' =
    mkDataSlice (Some [-1; -1; 0]) (Some [-2; -2; -1])
      (Some [0; 0; 0]%float) (Some [0; 0; 0]%float)
      (Some [0; 0; 1]%float) (Some [0; 0; 0]%float)
      (Some [2]) (Some [0; 0; 0]) /\
  d_keys0 p' = [2; 7; 7].
Proof.
  intros p p'.
  apply (BC_Reset_reinitialises 2 p p' [0; 0; 0] [0; 0; 0] [0; 0; 0]%float
           [0; 0; 0]%float [0; 0; 0]%float [0; 0; 0]%float [0] [0; 0; 0]).
  - reflexivity.
  - vm_compute. reflexivity.
  - reflexivity.
  - reflexivity.
  - reflexivity.
  - reflexivity.
  - reflexivity.
  - vm_compute. split; [discriminate | reflexivity].
  - vm_compute. reflexivity.
Defined.

(** X13: when no runtime call fails, [BCProblem::Extract] on one GPU
    returns [cudaSuccess]; [h_bc_values] receives [nodes] cells of
    [d_bc_values]; [h_ebc_values], when given, receives [edges] cells of
    [d_ebc_values] and [h_sigmas], when given, [nodes] cells of [d_sigmas];
    a buffer left out (NULL) costs no runtime call. *)
Theorem BC_Extract_copies_the_requested_buffers
    h_sigmas h_bc_values h_ebc_values bv ev sg (p : BCProblem) :
  num_gpus p = 1 -> calm (rt p) ->
  d_bc_values (data_slice p) = Some bv ->
  d_ebc_values (data_slice p) = Some ev ->
  d_sigmas (data_slice p) = Some sg ->
  exists p',
    Extract h_sigmas h_bc_values h_ebc_values p =
      (cudaSuccess,
       (fun b => copy_cells b sg (nodes p)) <$> h_sigmas,
       copy_cells h_bc_values bv (nodes p),
       (fun b => copy_cells b ev (edges p)) <$> h_ebc_values, p') /\
    data_slice p' = data_slice p /\
    (h_sigmas = None -> h_ebc_values = None ->
     rt p' = snd (call (snd (call (rt p))))).
Proof. apply BC_Extract_calm. Qed.

Lemma BC_Extract_copies_the_requested_buffers_witness :
  let p := snd (Reset 2 (snd (Init 1 3 4 bc_new))) in
  exists p',
    Extract (Some [9; 9; 9]%float) [9; 9; 9]%float None p =
      (cudaSuccess, Some [0; 0; 1]%float, [0; 0; 0]%float, None, p') /\
    data_slice p' = data_slice p /\
    (Some [9; 9; 9]%float = None -> @None (list Value) = None ->
     rt p' = snd (call (snd (call (rt p))))).
Proof.
  intros p.
  apply (BC_Extract_copies_the_requested_buffers (Some [9; 9; 9]%float)
           [9; 9; 9]%float None [0; 0; 0]%float [0; 0; 0; 0]%float
           [0; 0; 1]%float p).
  - reflexivity.
  - constructor.
  - vm_compute. reflexivity.
  - vm_compute. reflexivity.
  - vm_compute. reflexivity.
Defined.

End BCRuns.

(* ===================================================================== *)
(** ** Theorems: the BFS functor, one call at a time                       *)
Section BFSFunctorFacts.
Import util bfs.

(** The label [CondEdge] proposes for the destination of an edge. *)
Definition proposed (cfg : Config) (lab : list Z) (s_id : Z) : Z :=
  wrap ((if MARK_PREDECESSORS cfg then Ld 0 lab s_id else s_id) + 1).

Lemma dev_mk {T} (h : option (list T)) (d : list T) :
  dev (mkArray1D h (Some d)) = d.
Proof. reflexivity. Qed.

Lemma CondEdge_eq cfg s_id d_id ds e_id e_id_in lab :
  ENABLE_IDEMPOTENCE cfg = false ->
  d_pointer (labels ds) = Some lab ->
  CondEdge cfg s_id d_id ds e_id e_id_in =
    (proposed cfg lab s_id <? Ld 0 lab d_id,
     set_labels
       (mkArray1D (h_pointer (labels ds))
          (Some (St (Z.min (Ld 0 lab d_id) (proposed cfg lab s_id)) lab d_id)))
       ds).
Proof.
  intros Hi Hl. unfold CondEdge, atomicMin, proposed, dev, on_dev.
  rewrite Hi, Hl. reflexivity.
Qed.

(** X14: without idempotence, [CondEdge] stores in [labels[d_id]] the
    minimum of its old value and the proposed label, returns true exactly
    when the proposed label is smaller than the old one, and writes no
    other label and no predecessor. *)
Theorem CondEdge_lowers_the_label cfg s_id d_id ds e_id e_id_in lab :
  ENABLE_IDEMPOTENCE cfg = false ->
  d_pointer (labels ds) = Some lab ->
  0 <= d_id < Z.of_nat (length lab) ->
  let r := CondEdge cfg s_id d_id ds e_id e_id_in in
  let lab' := dev (labels (snd r)) in
  Ld 0 lab' d_id = Z.min (Ld 0 lab d_id) (proposed cfg lab s_id) /\
  (fst r = true <-> proposed cfg lab s_id < Ld 0 lab d_id) /\
  (fst r = true -> Ld 0 lab' d_id = proposed cfg lab s_id) /\
  (fst r = false -> lab' = lab) /\
  (forall v, v <> d_id -> Ld 0 lab' v = Ld 0 lab v) /\
  preds (snd r) = preds ds.
Proof.
  intros Hi Hl Hd r lab'. subst r lab'.
  rewrite (CondEdge_eq cfg s_id d_id ds e_id e_id_in lab Hi Hl).
  cbn [fst snd labels set_labels preds]. rewrite dev_mk.
  rewrite Ld_St_eq by exact Hd.
  split; [reflexivity|]. split; [apply Z.ltb_lt|].
  split; [intros H; apply Z.ltb_lt in H; lia|].
  split.
  - intros H. apply Z.ltb_ge in H. rewrite Z.min_l by lia.
    apply St_same. exact Hd.
  - split; [|reflexivity]. intros v Hv. apply Ld_St_ne. congruence.
Qed.

Lemma CondEdge_lowers_the_label_witness :
  let ds := set_labels (mkArray1D None (Some [0; 5; 1])) DataSlice_empty in
  let r := CondEdge (mkConfig true false) 0 1 ds 0 0 in
  let lab' := dev (labels (snd r)) in
  Ld 0 lab' 1 = Z.min (Ld 0 [0; 5; 1] 1) (proposed (mkConfig true false) [0; 5; 1] 0) /\
  (fst r = true <-> proposed (mkConfig true false) [0; 5; 1] 0 < Ld 0 [0; 5; 1] 1) /\
  (fst r = true -> Ld 0 lab' 1 = proposed (mkConfig true false) [0; 5; 1] 0) /\
  (fst r = false -> lab' = [0; 5; 1]) /\
  (forall v, v <> 1 -> Ld 0 lab' v = Ld 0 [0; 5; 1] v) /\
  preds (snd r) = preds ds.
Proof.
  intros ds.
  apply (CondEdge_lowers_the_label (mkConfig true false) 0 1 ds 0 0 [0; 5; 1]).
  - reflexivity.
  - reflexivity.
  - cbn. lia.
Defined.

(** X15: an edge claims its destination at most once: when [CondEdge] is
    called again for the same edge on the slice the first call left, it
    returns false and changes no label. *)
Theorem CondEdge_claims_at_most_once cfg s_id d_id ds e_id e_id_in lab :
  ENABLE_IDEMPOTENCE cfg = false ->
  d_pointer (labels ds) = Some lab ->
  0 <= d_id < Z.of_nat (length lab) ->
  s_id <> d_id ->
  let ds1 := snd (CondEdge cfg s_id d_id ds e_id e_id_in) in
  let r := CondEdge cfg s_id d_id ds1 e_id e_id_in in
  fst r = false /\ dev (labels (snd r)) = dev (labels ds1).
Proof.
  intros Hi Hl Hd Hne ds1 r. subst r ds1.
  rewrite (CondEdge_eq cfg s_id d_id ds e_id e_id_in lab Hi Hl).
  cbn [snd].
  set (new := proposed cfg lab s_id).
  set (lab1 := St (Z.min (Ld 0 lab d_id) new) lab d_id).
  rewrite (CondEdge_eq cfg s_id d_id
             (set_labels (mkArray1D (h_pointer (labels ds)) (Some lab1)) ds)
             e_id e_id_in lab1 Hi eq_refl).
  cbn [fst snd labels set_labels]. rewrite !dev_mk.
  assert (Hp : proposed cfg lab1 s_id = new).
  { subst new lab1. unfold proposed. destruct (MARK_PREDECESSORS cfg); [|reflexivity].
    rewrite Ld_St_ne by congruence. reflexivity. }
  assert (Hd1 : Ld 0 lab1 d_id = Z.min (Ld 0 lab d_id) new)
    by (apply Ld_St_eq; exact Hd).
  rewrite Hp, Hd1. split; [apply Z.ltb_ge; lia|].
  rewrite Z.min_l by lia. rewrite <- Hd1. apply St_same.
  unfold lab1. rewrite St_length. exact Hd.
Qed.

Lemma CondEdge_claims_at_most_once_witness :
  let ds := set_labels (mkArray1D None (Some [0; 5; 1])) DataSlice_empty in
  let ds1 := snd (CondEdge (mkConfig true false) 0 1 ds 0 0) in
  let r := CondEdge (mkConfig true false) 0 1 ds1 0 0 in
  fst r = false /\ dev (labels (snd r)) = dev (labels ds1).
Proof.
  intros ds.
  apply (CondEdge_claims_at_most_once (mkConfig true false) 0 1 ds 0 0 [0; 5; 1]).
  - reflexivity.
  - reflexivity.
  - cbn. lia.
  - discriminate.
Defined.

(** X16: [ApplyEdge] writes only with [MARK_PREDECESSORS] and without
    idempotence; it then stores in [preds[d_id]] the source, translated by
    [original_vertex] when that table is present, and touches neither the
    labels nor any other predecessor; in every other configuration it
    does nothing. *)
Theorem ApplyEdge_records_the_parent cfg s_id d_id ds e_id e_id_in P :
  d_pointer (preds ds) = Some P ->
  0 <= d_id < Z.of_nat (length P) ->
  let ds' := ApplyEdge cfg s_id d_id ds e_id e_id_in in
  labels ds' = labels ds /\
  (ENABLE_IDEMPOTENCE cfg = false -> MARK_PREDECESSORS cfg = true ->
   Ld 0 (dev (preds ds')) d_id =
     match d_pointer (original_vertex ds) with
     | None => s_id
     | Some ov => Ld 0 ov s_id
     end /\
   forall v, v <> d_id -> Ld 0 (dev (preds ds')) v = Ld 0 P v) /\
  (ENABLE_IDEMPOTENCE cfg = true \/ MARK_PREDECESSORS cfg = false -> ds' = ds).
Proof.
  intros HP Hd ds'. subst ds'. unfold ApplyEdge, GetPointer_DEVICE.
  destruct (ENABLE_IDEMPOTENCE cfg), (MARK_PREDECESSORS cfg);
    (split; [reflexivity|]); (split; [intros; try discriminate|]);
    try (intros [?|?]; try discriminate; reflexivity).
  unfold on_dev. cbn [preds set_preds]. rewrite HP. cbn [fmap option_fmap option_map].
  rewrite dev_mk.
  split; [apply Ld_St_eq; exact Hd|].
  intros v Hv. apply Ld_St_ne. congruence.
Qed.

Lemma ApplyEdge_records_the_parent_witness :
  let ds := set_preds (mkArray1D None (Some [-1; -2; -2])) DataSlice_empty in
  let ds' := ApplyEdge (mkConfig true false) 0 1 ds 0 0 in
  labels ds' = labels ds /\
  (false = false -> true = true ->
   Ld 0 (dev (preds ds')) 1 = 0 /\
   forall v, v <> 1 -> Ld 0 (dev (preds ds')) v = Ld 0 [-1; -2; -2] v) /\
  (false = true \/ true = false -> ds' = ds).
Proof.
  intros ds.
  apply (ApplyEdge_records_the_parent (mkConfig true false) 0 1 ds 0 0 [-1; -2; -2]).
  - reflexivity.
  - cbn. lia.
Defined.

(** X17: [CondFilter] keeps exactly the vertices other than -1 and writes
    nothing; [ApplyFilter] stores the value it is given in [labels[node]]
    under idempotence and does nothing otherwise. *)
Theorem filter_functor_drops_invalid_vertices cfg node ds v nid lab :
  d_pointer (labels ds) = Some lab ->
  0 <= node < Z.of_nat (length lab) ->
  (fst (CondFilter cfg node ds v nid) = true <-> node <> -1) /\
  snd (CondFilter cfg node ds v nid) = ds /\
  fst (CondFilter cfg (-1) ds v nid) = false /\
  (ENABLE_IDEMPOTENCE cfg = true ->
   Ld 0 (dev (labels (ApplyFilter cfg node ds v nid))) node = v /\
   forall u, u <> node ->
     Ld 0 (dev (labels (ApplyFilter cfg node ds v nid))) u = Ld 0 lab u) /\
  (ENABLE_IDEMPOTENCE cfg = false -> ApplyFilter cfg node ds v nid = ds).
Proof.
  intros Hl Hn. unfold CondFilter, ApplyFilter. cbn [fst snd].
  split.
  { rewrite negb_true_iff, Z.eqb_neq. reflexivity. }
  split; [reflexivity|]. split; [reflexivity|].
  destruct (ENABLE_IDEMPOTENCE cfg); split; intros; try discriminate;
    try reflexivity.
  unfold on_dev. cbn [labels set_labels]. rewrite Hl. cbn [fmap option_fmap option_map].
  rewrite dev_mk.
  split; [apply Ld_St_eq; exact Hn|].
  intros u Hu. apply Ld_St_ne. congruence.
Qed.

Lemma filter_functor_drops_invalid_vertices_witness :
  let cfg := mkConfig false true in
  let ds := set_labels (mkArray1D None (Some [0; -1; -1])) DataSlice_empty in
  (fst (CondFilter cfg 2 ds 1 0) = true <-> 2 <> -1) /\
  snd (CondFilter cfg 2 ds 1 0) = ds /\
  fst (CondFilter cfg (-1) ds 1 0) = false /\
  (true = true ->
   Ld 0 (dev (labels (ApplyFilter cfg 2 ds 1 0))) 2 = 1 /\
   forall u, u <> 2 ->
     Ld 0 (dev (labels (ApplyFilter cfg 2 ds 1 0))) u = Ld 0 [0; -1; -1] u) /\
  (true = false -> ApplyFilter cfg 2 ds 1 0 = ds).
Proof.
  intros cfg ds.
  apply (filter_functor_drops_invalid_vertices cfg 2 ds 1 0 [0; -1; -1]).
  - reflexivity.
  - cbn. lia.
Defined.

End BFSFunctorFacts.

(* ===================================================================== *)
(** ** Theorems: allocation and failures of the BFS problem                *)
Section BFSProblemRuns.
Import util oprtr bfs.

Lemma bfs_call_counted p p' :
  try (rt_call call) p = (inr tt, p') ->
  exists r, mallocs r = mallocs (rt p) /\ p' = set_rt r p.
Proof.
  intros H. apply try_inr in H as (e & H & _). unfold rt_call in H.
  pose proof (call_mallocs (rt p)) as Hm.
  destruct (call (rt p)) as [e' r]. inversion H. eauto.
Qed.

Lemma allocate_counted getf setf size p p' :
  allocate getf setf size p = (inr tt, p') ->
  exists r,
    mallocs r = S (mallocs (rt p)) /\
    p' = set_rt r (set_slice
           (setf (mkArray1D (h_pointer (getf (data_slice p)))
                    (Some (replicate (Z.to_nat size) 0))) (data_slice p)) p).
Proof.
  intros H. unfold allocate in H. apply try_inr in H as (e & H & Hf).
  unfold Allocate_DEVICE, cudaMalloc in H.
  pose proof (call_mallocs (rt p)) as Hm.
  destruct (call (rt p)) as [e' r]. cbn in Hm. destruct (failed e') eqn:E.
  - inversion H; subst. congruence.
  - inversion H; subst. eexists. split; [|reflexivity]. cbn. congruence.
Qed.

(** Take a successful run apart, call by call, counting allocations. *)
Ltac cinv :=
  repeat match goal with
         | H : bind _ _ _ = (inr _, _) |- _ =>
             apply bind_inr in H as (? & ? & ? & H)
         | H : get _ = (inr _, _) |- _ => inversion H; subst; clear H
         | H : ret _ _ = (inr _, _) |- _ => inversion H; subst; clear H
         | H : modify _ _ = (inr _, _) |- _ => inversion H; subst; clear H
         | H : launch _ _ _ _ = (inr _, _) |- _ => inversion H; subst; clear H
         | H : try (rt_call _) _ = (inr ?x, _) |- _ =>
             destruct x; apply bfs_call_counted in H as (? & ? & ->)
         | H : allocate _ _ _ _ = (inr ?x, _) |- _ =>
             destruct x; apply allocate_counted in H as (? & ? & ->)
         end.

Lemma sound_BFS_Init cfg n : sound
  (try (rt_call call) ;;;
   try (rt_call cudaSetDevice) ;;;
   try (rt_call call) ;;;
   DataSlice_Init cfg n ;;;
   when (ENABLE_IDEMPOTENCE cfg) (try (rt_call call)))%dev.
Proof.
  unfold DataSlice_Init.
  repeat first [ apply sound_try | apply sound_allocate | apply sound_ret
               | apply sound_when | apply sound_bind; [|intros ?] ].
Qed.

(** X18: a successful [BFSProblem::Init] allocates [labels] with one cell
    per vertex, [preds] and [temp_preds] likewise exactly when
    [MARK_PREDECESSORS] is set, and [visited_mask] with [(nodes + 7) / 8]
    cells exactly when [ENABLE_IDEMPOTENCE] is set; the arrays of a
    configuration that is switched off are not touched. *)
Theorem BFS_Init_allocates_by_configuration cfg (p p' : BFSProblem) :
  Init cfg p = (cudaSuccess, p') ->
  mallocs (rt p') =
    (mallocs (rt p) + 1 + (if MARK_PREDECESSORS cfg then 2 else 0)
     + (if ENABLE_IDEMPOTENCE cfg then 1 else 0))%nat /\
  length <$> d_pointer (labels (data_slice p')) = Some (Z.to_nat (gs_nodes p)) /\
  (if MARK_PREDECESSORS cfg
   then length <$> d_pointer (preds (data_slice p')) = Some (Z.to_nat (gs_nodes p)) /\
        length <$> d_pointer (temp_preds (data_slice p'))
          = Some (Z.to_nat (gs_nodes p))
   else preds (data_slice p') = preds (data_slice p) /\
        temp_preds (data_slice p') = temp_preds (data_slice p)) /\
  (if ENABLE_IDEMPOTENCE cfg
   then length <$> d_pointer (visited_mask (data_slice p'))
          = Some (Z.to_nat ((gs_nodes p + 7) ÷ 8))
   else visited_mask (data_slice p') = visited_mask (data_slice p)).
Proof.
  intros H. unfold Init in H. apply run_success in H; [|apply sound_BFS_Init].
  unfold DataSlice_Init in H.
  destruct cfg as [mp idem]. cbn [MARK_PREDECESSORS ENABLE_IDEMPOTENCE] in *.
  destruct mp, idem; cbn [when] in H; cinv;
    repeat match goal with H : mallocs _ = _ |- _ => progress cbn in H end;
    cbn; rewrite ?length_replicate; repeat split; try reflexivity; lia.
Qed.

Lemma BFS_Init_allocates_by_configuration_witness :
  let p := mkBFSProblem healthy 10 None DataSlice_empty in
  let p' := snd (Init (mkConfig true true) p) in
  mallocs (rt p') = 4%nat /\
  length <$> d_pointer (labels (data_slice p')) = Some 10%nat /\
  (length <$> d_pointer (preds (data_slice p')) = Some 10%nat /\
   length <$> d_pointer (temp_preds (data_slice p')) = Some 10%nat) /\
  length <$> d_pointer (visited_mask (data_slice p')) = Some 2%nat.
Proof.
  intros p p'.
  apply (BFS_Init_allocates_by_configuration (mkConfig true true) p p').
  vm_compute. reflexivity.
Defined.

(** X19: when [SetDevice] fails, [BFSProblem::Extract] returns that status
    at once: the buffers are not attached and nothing is copied. *)
Theorem BFS_Extract_returns_SetDevice_failure cfg h_labels h_preds e0 es m
    (p : BFSProblem) :
  rt p = mkRuntime (e0 :: es) m -> failed e0 = true ->
  Extract cfg h_labels h_preds p = (e0, set_rt (mkRuntime es m) p).
Proof.
  intros Hr H0. unfold Extract, run, bind, try, rt_call, cudaSetDevice, call.
  rewrite Hr. cbn [pending mallocs]. rewrite H0. reflexivity.
Qed.

Lemma BFS_Extract_returns_SetDevice_failure_witness :
  let p := set_rt (mkRuntime [cudaErrorInvalidDevice; 0] 3)
             (snd (Reset (mkConfig true false)
                     (mkBFSProblem healthy 4 None DataSlice_empty))) in
  Extract (mkConfig true false) [7; 7; 7; 7] [7; 7; 7; 7] p
  = (cudaErrorInvalidDevice, set_rt (mkRuntime [0] 3) p).
Proof.
  intros p.
  apply (BFS_Extract_returns_SetDevice_failure (mkConfig true false)
           [7; 7; 7; 7] [7; 7; 7; 7] cudaErrorInvalidDevice [0] 3 p);
    reflexivity.
Defined.

(** X20: when the copy of the labels fails, [BFSProblem::Extract] returns
    that status and stops: no further runtime call is made and the
    predecessors are neither attached nor copied. *)
Theorem BFS_Extract_stops_at_failed_label_copy cfg h_labels h_preds e0 e1 es m
    (p : BFSProblem) :
  rt p = mkRuntime (e0 :: e1 :: es) m ->
  failed e0 = false -> failed e1 = true ->
  fst (Extract cfg h_labels h_preds p) = e1 /\
  rt (snd (Extract cfg h_labels h_preds p)) = mkRuntime es m /\
  preds (data_slice (snd (Extract cfg h_labels h_preds p)))
    = preds (data_slice p) /\
  d_pointer (labels (data_slice (snd (Extract cfg h_labels h_preds p))))
    = d_pointer (labels (data_slice p)).
Proof.
  intros Hr H0 H1. unfold Extract, run, bind, try, rt_call, cudaSetDevice, call.
  rewrite Hr. cbn [pending mallocs]. rewrite H0.
  unfold modify, move_to_host, try, Move_DEVICE_HOST, cudaMemcpy, call.
  cbn [rt set_rt set_slice data_slice labels set_labels SetPointer_HOST
       h_pointer d_pointer pending mallocs].
  destruct (d_pointer (labels (data_slice p))) eqn:E; cbn [pending mallocs];
    rewrite !H1; cbn; rewrite ?E; auto.
Qed.

Lemma BFS_Extract_stops_at_failed_label_copy_witness :
  let p := set_rt (mkRuntime [0; cudaErrorLaunchFailure; 0] 3)
             (snd (Reset (mkConfig true false)
                     (mkBFSProblem healthy 4 None DataSlice_empty))) in
  let r := Extract (mkConfig true false) [7; 7; 7; 7] [7; 7; 7; 7] p in
  fst r = cudaErrorLaunchFailure /\
  rt (snd r) = mkRuntime [0] 3 /\
  preds (data_slice (snd r)) = preds (data_slice p) /\
  d_pointer (labels (data_slice (snd r))) = d_pointer (labels (data_slice p)).
Proof.
  intros p.
  apply (BFS_Extract_stops_at_failed_label_copy (mkConfig true false)
           [7; 7; 7; 7] [7; 7; 7; 7] 0 cudaErrorLaunchFailure [0] 3 p);
    reflexivity.
Defined.

End BFSProblemRuns.

(* ===================================================================== *)
(** ** Theorems: what a SALSA run does on the host                         *)
Section SalsaRuns.
Import util salsa.

(** The result of a run, seen from the host. *)
Definition host_result (r : option (cudaError_t * Enactor))
  : option (cudaError_t * (Runtime * Z * Z * (Z * Z) * Z)) :=
  option_map (fun r => (fst r, host (snd r))) r.

Lemma loop_host K K' DEBUG INSTRUMENT max_iteration fuel : forall s s',
  host s = host s' ->
  host_result (loop fuel K DEBUG INSTRUMENT max_iteration s)
  = host_result (loop fuel K' DEBUG INSTRUMENT max_iteration s').
Proof.
  induction fuel as [|fuel IH]; intros s s' Hs; [reflexivity|].
  cbn [loop].
  pose proof (loop_body_host K K' DEBUG INSTRUMENT s s' Hs) as Hb.
  destruct (loop_body K DEBUG INSTRUMENT s) as [[e s1]|s1],
           (loop_body K' DEBUG INSTRUMENT s') as [[e' s1']|s1'];
    cbn in Hb; try discriminate.
  - inversion Hb. cbn. congruence.
  - assert (H1 : host s1 = host s1') by congruence.
    assert (Hi : iteration s1 = iteration s1')
      by (unfold host in H1; congruence).
    unfold termination_check. rewrite Hi.
    destruct (max_iteration <=? iteration s1').
    + cbn. rewrite H1. reflexivity.
    + apply IH. exact H1.
Qed.

(** X21: the status [EnactSALSA] returns, the runtime calls it makes and
    the iteration counter it ends with do not depend on what the advance
    kernels do to the frontier, the queues or the ranks: nothing a kernel
    writes is read back by the host outside [DEBUG] printing. *)
Theorem EnactSALSA_host_ignores_the_kernels K K' DEBUG INSTRUMENT LB
    max_iteration s :
  host_result (EnactSALSA K DEBUG INSTRUMENT LB max_iteration s)
  = host_result (EnactSALSA K' DEBUG INSTRUMENT LB max_iteration s).
Proof.
  unfold EnactSALSA.
  pose proof (prologue_host K K' DEBUG LB s s eq_refl) as Hp.
  destruct (prologue K DEBUG LB s) as [[e s1]|s1],
           (prologue K' DEBUG LB s) as [[e' s1']|s1'];
    cbn in Hp; try discriminate.
  - inversion Hp. cbn. congruence.
  - apply loop_host. congruence.
Qed.

(** X22: the loop of [EnactSALSA] tests [iteration >= max_iteration] only
    after a turn, so with [max_iteration] of 1 or less (zero and negative
    values included) a run that does not fail still makes exactly one
    turn. *)
Theorem EnactSALSA_makes_one_turn_at_least K DEBUG INSTRUMENT LB max_iteration s :
  max_iteration <= 1 ->
  exists retval s',
    EnactSALSA K DEBUG INSTRUMENT LB max_iteration s = Some (retval, s') /\
    (retval = cudaSuccess -> iteration s' = 1).
Proof.
  intros Hm.
  destruct (EnactSALSA_ends K DEBUG INSTRUMENT LB max_iteration s)
    as (e & s' & He & Hit).
  exists e, s'. split; [assumption|]. intros Hs. rewrite (Hit Hs). lia.
Qed.

Lemma EnactSALSA_makes_one_turn_at_least_witness :
  exists retval s',
    EnactSALSA K_idle false false true (-2) (enactor0 [] 2 2) = Some (retval, s') /\
    (retval = cudaSuccess -> iteration s' = 1).
Proof.
  apply (EnactSALSA_makes_one_turn_at_least K_idle false false true (-2)
           (enactor0 [] 2 2)).
  lia.
Defined.

(** X23: [Enact] runs only on devices of SM version 3.0 or later; on an
    older device it returns [cudaErrorInvalidDeviceFunction] without a
    runtime call or a kernel launch. *)
Theorem Enact_rejects_devices_below_sm_30 K DEBUG INSTRUMENT device_sm_version
    max_iteration s :
  device_sm_version < 300 ->
  Enact K DEBUG INSTRUMENT device_sm_version max_iteration s
  = Some (cudaErrorInvalidDeviceFunction, s).
Proof.
  intros H. unfold Enact. destruct (Z.leb_spec 300 device_sm_version); [lia|].
  reflexivity.
Qed.

Lemma Enact_rejects_devices_below_sm_30_witness :
  Enact K_idle false false 200 3 (enactor0 [] 2 2)
  = Some (cudaErrorInvalidDeviceFunction, enactor0 [] 2 2).
Proof.
  apply (Enact_rejects_devices_below_sm_30 K_idle false false 200 3 (enactor0 [] 2 2)).
  lia.
Defined.

Ltac count_steps :=
  repeat match goal with
         | |- context [call ?r] =>
             let e := fresh "e" in
             let r' := fresh "r" in
             let Hc := fresh "Hc" in
             pose proof (call_mallocs r) as Hc;
             destruct (call r) as [e r']; cbn in Hc |- *
         | |- context [failed ?e] =>
             let E := fresh "E" in destruct (failed e) eqn:E; cbn
         | |- context [if ?b then _ else _] => is_var b; destruct b; cbn
         end.

Lemma loop_body_mallocs K DEBUG INSTRUMENT s :
  match loop_body K DEBUG INSTRUMENT s with
  | inl (_, s') | inr s' =>
      mallocs (rt s') = mallocs (rt s) /\ d_scanned_edges s' = d_scanned_edges s
  end.
Proof.
  destruct s as [r n m fe it sc d].
  unfold loop_body, SetQueueLength, GetQueueLength, debug_sync, rt_call, launch,
    cudaThreadSynchronize, GRError.
  cbn. count_steps; split; (reflexivity || congruence).
Qed.

Lemma loop_mallocs K DEBUG INSTRUMENT max_iteration fuel : forall s e s',
  loop fuel K DEBUG INSTRUMENT max_iteration s = Some (e, s') ->
  mallocs (rt s') = mallocs (rt s) /\ d_scanned_edges s' = d_scanned_edges s.
Proof.
  induction fuel as [|fuel IH]; intros s e s' H; [discriminate|].
  cbn [loop] in H. pose proof (loop_body_mallocs K DEBUG INSTRUMENT s) as Hb.
  destruct (loop_body K DEBUG INSTRUMENT s) as [[e1 s1]|s1].
  - inversion H; subst. exact Hb.
  - destruct (termination_check max_iteration s1).
    + inversion H; subst. exact Hb.
    + apply IH in H. destruct H, Hb. split; congruence.
Qed.

Lemma prologue_mallocs K DEBUG LB s :
  match prologue K DEBUG LB s with
  | inl _ => True
  | inr s' =>
      if LB
      then mallocs (rt s') = S (mallocs (rt s)) /\
           length <$> d_scanned_edges s' = Some (Z.to_nat (gs_edges s + 1))
      else mallocs (rt s') = mallocs (rt s) /\
           d_scanned_edges s' = d_scanned_edges s
  end.
Proof.
  destruct s as [r n m fe it sc d].
  unfold prologue, SetQueueLength, debug_sync, rt_call, launch, cudaMalloc,
    cudaThreadSynchronize, GRError.
  cbn. count_steps; try exact I; rewrite ?length_replicate;
    split; (reflexivity || congruence).
Qed.

(** X24: with the load-balanced advance, every run of [EnactSALSA] that
    returns [cudaSuccess] has allocated the array [d_scanned_edges] of
    [edges + 1] cells and returns with it still allocated: no call of the
    run releases it, so each run adds one to the number of live device
    allocations.  With another advance mode nothing is allocated. *)
Theorem EnactSALSA_leaves_scanned_edges_allocated K DEBUG INSTRUMENT LB
    max_iteration s s' :
  EnactSALSA K DEBUG INSTRUMENT LB max_iteration s = Some (cudaSuccess, s') ->
  if LB
  then mallocs (rt s') = S (mallocs (rt s)) /\
       length <$> d_scanned_edges s' = Some (Z.to_nat (gs_edges s + 1))
  else mallocs (rt s') = mallocs (rt s) /\
       d_scanned_edges s' = d_scanned_edges s.
Proof.
  unfold EnactSALSA. intros H.
  pose proof (prologue_mallocs K DEBUG LB s) as Hp.
  pose proof (prologue_outcome K DEBUG LB s) as Ho.
  destruct (prologue K DEBUG LB s) as [[e s1]|s1].
  - inversion H; subst. discriminate.
  - apply loop_mallocs in H. destruct H as [Hm Hd].
    destruct LB; destruct Hp; split; congruence.
Qed.

Lemma EnactSALSA_leaves_scanned_edges_allocated_witness :
  let r := EnactSALSA K_idle false false true 3 (enactor0 [] 2 5) in
  let s' := match r with Some (_, s') => s' | None => enactor0 [] 2 5 end in
  mallocs (rt s') = 1%nat /\
  length <$> d_scanned_edges s' = Some 6%nat.
Proof.
  intros r s'.
  apply (EnactSALSA_leaves_scanned_edges_allocated K_idle false false true 3
           (enactor0 [] 2 5) s').
  vm_compute. reflexivity.
Defined.

End SalsaRuns.

(* ===================================================================== *)
(** ** Theorems: the PageRank functor on edges                             *)
Section PageRankEdges.
Import util pr.

(** What an edge from [s_id] adds to the rank of its destination. *)
Definition contribution (s_id : Z) (problem : DataSlice) : Value :=
  let degree := Ld 0 (d_degrees problem) s_id in
  (Ld 0 (d_rank_curr problem) s_id / Value_of_int degree)%float.

(** X25: the advance functor of PageRank accepts every edge; [ApplyEdge]
    adds [rank_curr[s_id] / degrees[s_id]] to [rank_next[d_id]] and writes
    no other cell and no other array; [ApplyFilter] does nothing. *)
Theorem PR_ApplyEdge_adds_the_share_of_the_source s_id d_id problem e_id e_id_in :
  0 <= d_id < Z.of_nat (length (d_rank_next problem)) ->
  let problem' := ApplyEdge s_id d_id problem e_id e_id_in in
  CondEdge s_id d_id problem e_id e_id_in = (true, problem) /\
  Ld 0%float (d_rank_next problem') d_id =
    (Ld 0 (d_rank_next problem) d_id + contribution s_id problem)%float /\
  (forall v, v <> d_id ->
     Ld 0%float (d_rank_next problem') v = Ld 0%float (d_rank_next problem) v) /\
  length (d_rank_next problem') = length (d_rank_next problem) /\
  d_rank_curr problem' = d_rank_curr problem /\
  d_degrees problem' = d_degrees problem /\
  d_delta problem' = d_delta problem /\
  d_threshold problem' = d_threshold problem /\
  (forall node v nid, ApplyFilter node problem v nid = problem).
Proof.
  intros Hd problem'. subst problem'. unfold ApplyEdge, contribution.
  cbn [d_rank_next d_rank_curr d_degrees d_delta d_threshold set_rank_next].
  split; [reflexivity|].
  split; [apply Ld_St_eq; exact Hd|].
  split; [intros v Hv; apply Ld_St_ne; congruence|].
  split; [apply St_length|].
  repeat split; reflexivity.
Qed.

Lemma PR_ApplyEdge_adds_the_share_of_the_source_witness :
  let problem :=
    mkDataSlice [1; 0.5]%float [0; 0.25]%float [2; 1] [0.75%float] [0.125%float] in
  let problem' := ApplyEdge 0 1 problem 0 0 in
  CondEdge 0 1 problem 0 0 = (true, problem) /\
  Ld 0%float (d_rank_next problem') 1 = 0.75%float /\
  (forall v, v <> 1 ->
     Ld 0%float (d_rank_next problem') v = Ld 0%float (d_rank_next problem) v) /\
  length (d_rank_next problem') = 2%nat /\
  d_rank_curr problem' = d_rank_curr problem /\
  d_degrees problem' = d_degrees problem /\
  d_delta problem' = d_delta problem /\
  d_threshold problem' = d_threshold problem /\
  (forall node v nid, ApplyFilter node problem v nid = problem).
Proof.
  intros problem.
  apply (PR_ApplyEdge_adds_the_share_of_the_source 0 1 problem 0 0).
  cbn. lia.
Defined.

(** X26: two edges with different destinations can be applied in either
    order: the data slice ends the same.  (For a common destination the
    sum depends on the order, floating-point addition not being
    associative.) *)
Theorem PR_ApplyEdge_commutes_on_distinct_destinations s1 d1 s2 d2 problem e1 e2 :
  d1 <> d2 ->
  ApplyEdge s1 d1 (ApplyEdge s2 d2 problem e2 e2) e1 e1
  = ApplyEdge s2 d2 (ApplyEdge s1 d1 problem e1 e1) e2 e2.
Proof.
  intros Hne. unfold ApplyEdge.
  cbn [d_rank_next d_rank_curr d_degrees d_delta d_threshold set_rank_next].
  rewrite !Ld_St_ne by congruence.
  unfold set_rank_next. cbn [d_rank_curr d_degrees d_delta d_threshold].
  f_equal. unfold St.
  destruct (Z.leb_spec 0 d1), (Z.leb_spec 0 d2); try reflexivity.
  apply list_insert_insert_ne. lia.
Qed.

Lemma PR_ApplyEdge_commutes_on_distinct_destinations_witness :
  let problem :=
    mkDataSlice [1; 0.5; 0.25]%float [0; 0; 0]%float [2; 1; 1] [0.75%float]
      [0.125%float] in
  ApplyEdge 0 1 (ApplyEdge 1 2 problem 0 0) 1 1
  = ApplyEdge 1 2 (ApplyEdge 0 1 problem 1 1) 0 0.
Proof.
  intros problem.
  apply (PR_ApplyEdge_commutes_on_distinct_destinations 0 1 1 2 problem 1 0).
  discriminate.
Defined.

End PageRankEdges.
